(** * Storage-server core: onion pipeline, channel cipher, swarm mapping,
      client RPC dispatch and the storage-test retry loop.

    A shallow embedding of
      - crypto/src/channel_encryption.cpp
      - httpserver/onion_processing.cpp
      - httpserver/request_handler.cpp
      - httpserver/swarm.cpp
      - httpserver/http_connection.cpp (storage test, snode requests,
        onion request)
      - httpserver/https_server.cpp (response queue, client and onion
        requests, storage test, remote address)
      - httpserver/https_client.cpp (client session)
      - httpserver/stats.cpp
    Part I holds the definitions, Part II the theorems.

    Conventions.  [uint64_t] and [size_t] values are [Z] in [0, 2^64) with the
    wrap-around written out ([wrap64]); byte strings and text are [string];
    a C++ function that can throw returns [result]; callbacks and requests to
    other processes are recorded as events of a run. *)

From Stdlib Require Import ZArith List String Ascii Bool Lia DecimalString.
From Stdlib Require HexadecimalString.
Import ListNotations.

Local Open Scope string_scope.
Local Open Scope Z_scope.

(* ===================================================================== *)
(** * Part I: definitions                                                 *)
(* ===================================================================== *)

(** ** Machine integers *)

Definition wrap64 (z : Z) : Z := z mod 2 ^ 64.
Definition wrap32 (z : Z) : Z := z mod 2 ^ 32.
Definition wrap16 (z : Z) : Z := z mod 2 ^ 16.

Definition UINT64_MAX : Z := 2 ^ 64 - 1.

(** [std::string::size()] / [string_view::size()] as a [size_t]. *)
Definition size (s : string) : Z := Z.of_nat (String.length s).

(** [string_view::substr(0, n)]: the count is clipped at the end. *)
Definition substr0 (n : Z) (s : string) : string :=
  String.substring 0 (Z.to_nat n) s.

(** [string_view::remove_prefix(n)], for [n <= size()]. *)
Definition remove_prefix (n : Z) (s : string) : string :=
  String.substring (Z.to_nat n) (String.length s - Z.to_nat n) s.

(** [std::to_string] / [{}] of fmt for an unsigned number. *)
Definition to_string_Z (z : Z) : string :=
  NilEmpty.string_of_uint (N.to_uint (Z.to_N z)).

(** ** Exceptions and results *)

(** The exceptions the modelled code throws or lets through.  All of them
    derive from [std::exception]. *)
Inductive exn : Type :=
| runtime_error (what : string)
| length_error                    (* std::string::resize beyond max_size() *)
| json_parse_error                (* nlohmann parse_error.101 *)
| json_type_error                 (* nlohmann type_error.302/303/304 *)
| json_out_of_range               (* nlohmann out_of_range.403 *)
| json_invalid_iterator.          (* nlohmann invalid_iterator.214 *)

Inductive result (A : Type) : Type :=
| Ok (a : A)
| Throw (e : exn).
Arguments Ok {A} a.
Arguments Throw {A} e.

Definition bind {A B : Type} (r : result A) (k : A -> result B) : result B :=
  match r with
  | Ok a => k a
  | Throw e => Throw e
  end.

Notation "x <- r ;; k" := (bind r (fun x => k))
  (at level 61, r at next level, right associativity).
Notation "' pat <- r ;; k" := (bind r (fun x => match x with pat => k end))
  (at level 61, pat pattern, r at next level, right associativity).

Definition is_ok {A : Type} (r : result A) : bool :=
  match r with Ok _ => true | Throw _ => false end.

(** ** JSON values (nlohmann::json) *)

Module Json.

(** Objects are [std::map]s: an association list read by first match.
    Numbers are the integer kinds ([number_integer], [number_unsigned]);
    floating point values are outside the modelled value space.
    [JDiscarded] is the value [json::parse(s, nullptr, false)] yields for
    input that is not JSON. *)
#[warnings="-register-all"]
Inductive json : Type :=
| JNull
| JBool (b : bool)
| JInt (z : Z)
| JString (s : string)
| JArray (l : list json)
| JObject (kv : list (string * json))
| JDiscarded.

Fixpoint assoc (key : string) (kv : list (string * json)) : option json :=
  match kv with
  | [] => None
  | (k, v) :: rest => if String.eqb k key then Some v else assoc key rest
  end.

(** [j.find(key)]: [None] is the [end()] iterator.  On anything but an
    object [find] returns [end()]. *)
Definition find (key : string) (j : json) : option json :=
  match j with
  | JObject kv => assoc key kv
  | _ => None
  end.

(** [j.count(key)] as a truth value, and [j.contains(key)]. *)
Definition count (key : string) (j : json) : bool :=
  match find key j with Some _ => true | None => false end.

Definition contains (key : string) (j : json) : bool := count key j.

(** [j.at(key)]: [type_error.304] on a non-object, [out_of_range.403] on a
    missing key. *)
Definition at_ (key : string) (j : json) : result json :=
  match j with
  | JObject kv =>
      match assoc key kv with
      | Some v => Ok v
      | None => Throw json_out_of_range
      end
  | _ => Throw json_type_error
  end.

Definition is_string (j : json) : bool :=
  match j with JString _ => true | _ => false end.

Definition is_object (j : json) : bool :=
  match j with JObject _ => true | _ => false end.

Definition is_discarded (j : json) : bool :=
  match j with JDiscarded => true | _ => false end.

(** [get<std::string>()] and [get_ref<const std::string&>()]. *)
Definition get_string (j : json) : result string :=
  match j with
  | JString s => Ok s
  | _ => Throw json_type_error
  end.

(** [get<bool>()]: only a boolean converts. *)
Definition get_bool (j : json) : result bool :=
  match j with
  | JBool b => Ok b
  | _ => Throw json_type_error
  end.

(** [get<uint16_t>()]: numbers and booleans convert by [static_cast]. *)
Definition get_uint16 (j : json) : result Z :=
  match j with
  | JInt z => Ok (wrap16 z)
  | JBool b => Ok (if b then 1 else 0)
  | _ => Throw json_type_error
  end.

(** [j[key] = v] on an object (or on null, which becomes an object). *)
Definition set (key : string) (v : json) (j : json) : json :=
  match j with
  | JObject kv => JObject ((key, v) :: kv)
  | _ => JObject [(key, v)]
  end.

End Json.
Import Json.

(** The parts of the JSON library the code calls and this development does
    not spell out: the parser, the serialiser, and what [operator==] answers
    when a discarded value is compared with [value_t::discarded]. *)
Class JsonLib : Type := {
  json_parse : string -> option json;  (* [None]: not valid JSON *)
  json_dump : json -> string;
  discarded_eq_discarded : bool
}.

(** [json::parse(s, nullptr, false)]: no exception, a discarded value. *)
Definition parse_noexcept `{JsonLib} (s : string) : json :=
  match json_parse s with
  | Some j => j
  | None => JDiscarded
  end.

(** [json::parse(s)]: throws on invalid input. *)
Definition parse_throwing `{JsonLib} (s : string) : result json :=
  match json_parse s with
  | Some j => Ok j
  | None => Throw json_parse_error
  end.

(** [body == nlohmann::detail::value_t::discarded]: the right-hand side
    converts to an empty value of the discarded kind; values of different
    kinds are unequal (no number is involved). *)
Definition eq_value_t_discarded `{JsonLib} (body : json) : bool :=
  match body with
  | JDiscarded => discarded_eq_discarded
  | _ => false
  end.

(** ** HTTP responses *)

Inductive Status : Type :=
| OK
| BAD_REQUEST
| FORBIDDEN
| NOT_ACCEPTABLE
| MISDIRECTED_REQUEST
| INTERNAL_SERVER_ERROR
| BAD_GATEWAY
| SERVICE_UNAVAILABLE
| GATEWAY_TIMEOUT.

Definition status_code (s : Status) : Z :=
  match s with
  | OK => 200
  | BAD_REQUEST => 400
  | FORBIDDEN => 403
  | NOT_ACCEPTABLE => 406
  | MISDIRECTED_REQUEST => 421
  | INTERNAL_SERVER_ERROR => 500
  | BAD_GATEWAY => 502
  | SERVICE_UNAVAILABLE => 503
  | GATEWAY_TIMEOUT => 504
  end.

Inductive ContentType : Type := plaintext | json_content.

Record Response : Type := mkResponse {
  status : Status;
  message : string;
  content_type : ContentType
}.

(** [Response{status, message}]: the content type defaults to plain text. *)
Definition text_response (st : Status) (msg : string) : Response :=
  mkResponse st msg plaintext.

(** ** Channel encryption (crypto/src/channel_encryption.cpp) *)

(** Modelled from the spec: the declaration of [EncryptType] is in
    channel_encryption.hpp, which is not among the sources.  The spec gives
    the tags: enc_type is one of aes_gcm, aes_cbc, xchacha20. *)
Inductive EncryptType : Type := aes_gcm | aes_cbc | xchacha20.

(** Outcome of an OpenSSL EVP cipher pass (Init, Update, Final). *)
Inductive evp_outcome : Type :=
| EvpDone (out : string)
| EvpInitFailed
| EvpUpdateFailed
| EvpFinalFailed.

(** The primitives of libsodium, OpenSSL and oxenmq the cipher is built on.
    An [option] is [None] where the C function reports failure. *)
Class CryptoLib : Type := {
  crypto_scalarmult : string -> string -> option string;
  crypto_auth_hmacsha256 : string -> string -> string;         (* key, msg *)
  crypto_aead_aes256gcm_encrypt : string -> string -> string -> string;
                                                          (* m, nonce, key *)
  crypto_aead_aes256gcm_decrypt : string -> string -> string -> option string;
                                                          (* c, nonce, key *)
  EVP_aes_256_cbc_encrypt : string -> string -> string -> evp_outcome;
                                                          (* key, iv, in *)
  EVP_aes_256_cbc_decrypt : string -> string -> string -> evp_outcome;
  crypto_generichash : list string -> string;    (* the updates, in order *)
  crypto_aead_xchacha20poly1305_ietf_encrypt :
    string -> string -> string -> string;
  crypto_aead_xchacha20poly1305_ietf_decrypt :
    string -> string -> string -> option string;
  randombytes_buf : Z -> string;                 (* that many fresh bytes *)
  to_base64 : string -> string;
  string_max_size : Z                            (* std::string::max_size() *)
}.

Definition crypto_aead_aes256gcm_NPUBBYTES : Z := 12.
Definition crypto_aead_aes256gcm_ABYTES : Z := 16.
Definition crypto_aead_xchacha20poly1305_ietf_NPUBBYTES : Z := 24.
Definition crypto_aead_xchacha20poly1305_ietf_ABYTES : Z := 16.
Definition EVP_CIPHER_iv_length : Z := 16.
Definition EVP_CIPHER_block_size : Z := 16.

(** [EncryptType parse_enc_type(std::string_view)] *)
Definition parse_enc_type (enc_type : string) : result EncryptType :=
  if String.eqb enc_type "aes-gcm" || String.eqb enc_type "gcm" then Ok aes_gcm
  else if String.eqb enc_type "aes-cbc" || String.eqb enc_type "cbc"
  then Ok aes_cbc
  else Throw (runtime_error ("Invalid encryption type " ++ enc_type)).

Definition salt : string := "LOKI".

(** The [ChannelEncryption] object: this node's X25519 key pair. *)
Record ChannelEncryption : Type := mkChannel {
  private_key_ : string;
  public_key_ : string
}.

Section ChannelCipher.
Context `{CryptoLib}.

(** [output.resize(n)] for a [size_t] [n]: [std::length_error] beyond
    [max_size()]. *)
Definition resize (n : Z) : result unit :=
  if string_max_size <? n then Throw length_error else Ok tt.

Definition calculate_shared_secret (seckey pubkey : string)
  : result string :=
  match crypto_scalarmult seckey pubkey with
  | Some secret => Ok secret
  | None =>
      Throw (runtime_error "Shared key derivation failed (crypto_scalarmult)")
  end.

Definition derive_symmetric_key (seckey pubkey : string) : result string :=
  key <- calculate_shared_secret seckey pubkey ;;
  Ok (crypto_auth_hmacsha256 salt key).

Definition encrypt_cbc (ce : ChannelEncryption) (plaintext pubKey : string)
  : result string :=
  sharedKey <- calculate_shared_secret (private_key_ ce) pubKey ;;
  _ <- resize (wrap64 (EVP_CIPHER_iv_length + size plaintext
                       + EVP_CIPHER_block_size)) ;;
  let iv := randombytes_buf EVP_CIPHER_iv_length in
  match EVP_aes_256_cbc_encrypt sharedKey iv plaintext with
  | EvpInitFailed =>
      Throw (runtime_error "Could not initialise encryption context")
  | EvpUpdateFailed => Throw (runtime_error "Could not encrypt plaintext")
  | EvpFinalFailed => Throw (runtime_error "Could not finalise encryption")
  | EvpDone out => Ok (iv ++ out)
  end.

Definition encrypt_gcm (ce : ChannelEncryption) (plaintext pubKey : string)
  : result string :=
  derived_key <- derive_symmetric_key (private_key_ ce) pubKey ;;
  _ <- resize (wrap64 (crypto_aead_aes256gcm_NPUBBYTES + size plaintext
                       + crypto_aead_aes256gcm_ABYTES)) ;;
  let nonce := randombytes_buf crypto_aead_aes256gcm_NPUBBYTES in
  Ok (nonce ++ crypto_aead_aes256gcm_encrypt plaintext nonce derived_key).

(** The argument of [output.resize] in [decrypt_gcm]:
    [ciphertext.size() - crypto_aead_aes256gcm_ABYTES] on [size_t], taken
    after the nonce is removed. *)
Definition decrypt_gcm_output_size (ciphertext_ : string) : Z :=
  let nonce := substr0 crypto_aead_aes256gcm_NPUBBYTES ciphertext_ in
  let ciphertext := remove_prefix (size nonce) ciphertext_ in
  wrap64 (size ciphertext - crypto_aead_aes256gcm_ABYTES).

Definition decrypt_gcm (ce : ChannelEncryption) (ciphertext_ pubKey : string)
  : result string :=
  derived_key <- derive_symmetric_key (private_key_ ce) pubKey ;;
  let nonce := substr0 crypto_aead_aes256gcm_NPUBBYTES ciphertext_ in
  let ciphertext := remove_prefix (size nonce) ciphertext_ in
  _ <- resize (decrypt_gcm_output_size ciphertext_) ;;
  match crypto_aead_aes256gcm_decrypt ciphertext nonce derived_key with
  | Some output => Ok output
  | None => Throw (runtime_error "Could not decrypt (AES-GCM)")
  end.

Definition decrypt_cbc (ce : ChannelEncryption) (ciphertext_ pubKey : string)
  : result string :=
  sharedKey <- calculate_shared_secret (private_key_ ce) pubKey ;;
  let iv := substr0 EVP_CIPHER_iv_length ciphertext_ in
  let ciphertext := remove_prefix (size iv) ciphertext_ in
  _ <- resize (wrap64 (size ciphertext + EVP_CIPHER_block_size)) ;;
  match EVP_aes_256_cbc_decrypt sharedKey iv ciphertext with
  | EvpInitFailed =>
      Throw (runtime_error "Could not initialise decryption context")
  | EvpUpdateFailed => Throw (runtime_error "Could not decrypt block")
  | EvpFinalFailed => Throw (runtime_error "Could not finalise decryption")
  | EvpDone out => Ok out
  end.

Definition xchacha20_shared_key (local_pub local_sec remote_pub : string)
    (sending : bool) : result string :=
  match crypto_scalarmult local_sec remote_pub with
  | None =>
      Throw (runtime_error "Failed to compute shared key for xchacha20")
  | Some key =>
      Ok (crypto_generichash
            [key;
             if sending then local_pub else remote_pub;
             if sending then remote_pub else local_pub])
  end.

Definition encrypt_xchacha20 (ce : ChannelEncryption)
    (plaintext pubKey : string) : result string :=
  _ <- resize (wrap64 (crypto_aead_xchacha20poly1305_ietf_NPUBBYTES
                       + size plaintext
                       + crypto_aead_xchacha20poly1305_ietf_ABYTES)) ;;
  key <- xchacha20_shared_key (public_key_ ce) (private_key_ ce) pubKey true ;;
  let nonce := randombytes_buf crypto_aead_xchacha20poly1305_ietf_NPUBBYTES in
  Ok (nonce
      ++ crypto_aead_xchacha20poly1305_ietf_encrypt plaintext nonce key).

Definition decrypt_xchacha20 (ce : ChannelEncryption)
    (ciphertext_ pubKey : string) : result string :=
  let nonce := substr0 crypto_aead_xchacha20poly1305_ietf_NPUBBYTES
                 ciphertext_ in
  let ciphertext := remove_prefix (size nonce) ciphertext_ in
  if size ciphertext <? crypto_aead_xchacha20poly1305_ietf_ABYTES
  then Throw (runtime_error "Invalid ciphertext: too short")
  else
    key <- xchacha20_shared_key (public_key_ ce) (private_key_ ce) pubKey
             false ;;
    _ <- resize (size ciphertext
                 - crypto_aead_xchacha20poly1305_ietf_ABYTES) ;;
    match crypto_aead_xchacha20poly1305_ietf_decrypt ciphertext nonce key
    with
    | Some m => Ok m
    | None => Throw (runtime_error "Could not decrypt (XChaCha20-Poly1305)")
    end.

(** [ChannelEncryption::encrypt]: the [switch] has the two AES cases; any
    other tag leaves it and reaches the [throw]. *)
Definition encrypt (ce : ChannelEncryption) (type : EncryptType)
    (plaintext pubkey : string) : result string :=
  match type with
  | aes_gcm => encrypt_gcm ce plaintext pubkey
  | aes_cbc => encrypt_cbc ce plaintext pubkey
  | _ => Throw (runtime_error "Invalid encryption type")
  end.

(** [ChannelEncryption::decrypt] *)
Definition decrypt (ce : ChannelEncryption) (type : EncryptType)
    (ciphertext pubkey : string) : result string :=
  match type with
  | aes_gcm => decrypt_gcm ce ciphertext pubkey
  | aes_cbc => decrypt_cbc ce ciphertext pubkey
  | _ => Throw (runtime_error "Invalid decryption type")
  end.

End ChannelCipher.

(** ** Onion processing (httpserver/onion_processing.cpp) *)

Record FinalDestinationInfo : Type := mkFinal {
  fd_body : string;
  fd_json : bool;
  fd_base64 : bool
}.

Record RelayToServerInfo : Type := mkToServer {
  rs_payload : string;
  rs_host : string;
  rs_port : Z;
  rs_protocol : string;
  rs_target : string
}.

Record RelayToNodeInfo : Type := mkToNode {
  rn_ciphertext : string;
  rn_ephemeral_key : string;
  rn_enc_type : EncryptType;
  rn_next_node : string
}.

Inductive ProcessCiphertextError : Type :=
| INVALID_CIPHERTEXT
| INVALID_JSON.

(** [ParsedInfo], a [std::variant]. *)
Inductive ParsedInfo : Type :=
| FinalDestination (info : FinalDestinationInfo)
| RelayToNode (info : RelayToNodeInfo)
| RelayToServer (info : RelayToServerInfo)
| ParseError (e : ProcessCiphertextError).

(** What onion_processing.h and the key types declare and the sources do not
    show: the default members of [FinalDestinationInfo] and the two
    [from_hex] parsers ([None]: the parser throws). *)
Class OnionDecls : Type := {
  fd_json_default : bool;
  fd_base64_default : bool;
  ed25519_pubkey_from_hex : string -> option string;
  x25519_pubkey_from_hex : string -> option string
}.

Definition from_hex (parser : string -> option string) (hex : string)
  : result string :=
  match parser hex with
  | Some key => Ok key
  | None => Throw (runtime_error "Invalid pubkey hex")
  end.

(** The first four bytes of the payload as a little-endian [uint32_t]. *)
Definition byte_at (i : nat) (s : string) : Z :=
  match String.get i s with
  | Some c => Z.of_N (N_of_ascii c)
  | None => 0
  end.

Definition read_u32_le (s : string) : Z :=
  byte_at 0 s + 2 ^ 8 * byte_at 1 s + 2 ^ 16 * byte_at 2 s
  + 2 ^ 24 * byte_at 3 s.

Section Onion.
Context `{JsonLib} `{OnionDecls}.

(** [| <4 bytes>: N | <N bytes>: ciphertext | <rest>: json as utf8 |] *)
Definition parse_combined_payload (payload : string)
  : result (string * json) :=
  if size payload <? 4
  then Throw (runtime_error
                "Unexpected payload size; expected ciphertext size")
  else
    let n := read_u32_le payload in
    let payload := remove_prefix 4 payload in
    if size payload <? n
    then Throw (runtime_error
                  ("Unexpected payload size " ++ to_string_Z (size payload)
                   ++ ", expected >= " ++ to_string_Z n))
    else
      let ciphertext := substr0 n payload in
      let payload := remove_prefix (size ciphertext) payload in
      json <- parse_throwing payload ;;
      Ok (ciphertext, json).

(** An optional field read with [find] and a throwing getter. *)
Definition optional_field {A : Type} (key : string) (get : json -> result A)
    (default : A) (j : json) : result A :=
  match find key j with
  | Some v => get v
  | None => Ok default
  end.

(** The body of the [try] block of [process_inner_request]. *)
Definition classify_inner (plaintext : string) : result ParsedInfo :=
  '(ciphertext, inner_json) <- parse_combined_payload plaintext ;;
  if count "headers" inner_json then
    json <- optional_field "json" get_bool fd_json_default inner_json ;;
    b64 <- optional_field "base64" get_bool fd_base64_default inner_json ;;
    Ok (FinalDestination (mkFinal ciphertext json b64))
  else
    match find "host" inner_json with
    | Some it =>
        host <- get_string it ;;
        target_json <- at_ "target" inner_json ;;
        target <- get_string target_json ;;
        port <- optional_field "port" get_uint16 443 inner_json ;;
        protocol <- optional_field "protocol" get_string "https"
                      inner_json ;;
        Ok (RelayToServer (mkToServer plaintext host port protocol target))
    | None =>
        dest_json <- at_ "destination" inner_json ;;
        dest_hex <- get_string dest_json ;;
        next <- from_hex ed25519_pubkey_from_hex dest_hex ;;
        eph_json <- at_ "ephemeral_key" inner_json ;;
        eph_hex <- get_string eph_json ;;
        eph_key <- from_hex x25519_pubkey_from_hex eph_hex ;;
        enc_type <- optional_field "enc_type"
                      (fun v => s <- get_string v ;; parse_enc_type s)
                      aes_gcm inner_json ;;
        Ok (RelayToNode (mkToNode ciphertext eph_key enc_type next))
    end.

(** [process_inner_request]: every exception of the [try] block becomes
    [INVALID_JSON]. *)
Definition process_inner_request (plaintext : string) : ParsedInfo :=
  match classify_inner plaintext with
  | Ok ret => ret
  | Throw _ => ParseError INVALID_JSON
  end.

(** [is_server_url_allowed] *)
Definition starts_with (s prefix : string) : bool := String.prefix prefix s.

Fixpoint ends_with (s suffix : string) : bool :=
  String.eqb s suffix ||
  match s with
  | EmptyString => false
  | String _ rest => ends_with rest suffix
  end.

Fixpoint contains_char (c : ascii) (s : string) : bool :=
  match s with
  | EmptyString => false
  | String d rest => Ascii.eqb c d || contains_char c rest
  end.

Definition is_server_url_allowed (url : string) : bool :=
  (starts_with url "/loki/" || starts_with url "/oxen/")
  && ends_with url "/lsrpc"
  && negb (contains_char "?"%char url).

End Onion.

Definition is_final (p : ParsedInfo) : bool :=
  match p with FinalDestination _ => true | _ => false end.
Definition is_relay_to_server (p : ParsedInfo) : bool :=
  match p with RelayToServer _ => true | _ => false end.
Definition is_relay_to_node (p : ParsedInfo) : bool :=
  match p with RelayToNode _ => true | _ => false end.
Definition is_invalid_json (p : ParsedInfo) : bool :=
  match p with ParseError INVALID_JSON => true | _ => false end.

(** *** The shapes of inner JSON that each variant needs *)

Definition is_some {A : Type} (o : option A) : bool :=
  match o with Some _ => true | None => false end.

(** [json] and [base64], where present, are booleans. *)
Definition bool_or_absent (key : string) (j : json) : bool :=
  match find key j with
  | None | Some (JBool _) => true
  | Some _ => false
  end.

Definition final_fields_ok (j : json) : bool :=
  bool_or_absent "json" j && bool_or_absent "base64" j.

(** [host] and [target] are strings; [port], where present, is a number or
    a boolean; [protocol], where present, is a string. *)
Definition server_fields_ok (j : json) : bool :=
  match find "host" j, find "target" j with
  | Some (JString _), Some (JString _) =>
      match find "port" j with
      | None | Some (JInt _) | Some (JBool _) => true
      | Some _ => false
      end
      && match find "protocol" j with
         | None | Some (JString _) => true
         | Some _ => false
         end
  | _, _ => false
  end.

(** [destination] and [ephemeral_key] are strings that parse as keys;
    [enc_type], where present, is one of the four names of the two AES
    schemes. *)
Definition node_fields_ok `{OnionDecls} (j : json) : bool :=
  match find "destination" j, find "ephemeral_key" j with
  | Some (JString d), Some (JString e) =>
      is_some (ed25519_pubkey_from_hex d)
      && is_some (x25519_pubkey_from_hex e)
      && match find "enc_type" j with
         | None => true
         | Some (JString t) =>
             String.eqb t "aes-gcm" || String.eqb t "gcm"
             || String.eqb t "aes-cbc" || String.eqb t "cbc"
         | Some _ => false
         end
  | _, _ => false
  end.

(** ** Swarm model (httpserver/swarm.cpp) *)

Definition swarm_id_t : Type := Z.

Definition INVALID_SWARM_ID : swarm_id_t := UINT64_MAX.

Record sn_record_t : Type := mkSnode {
  ip : string;
  port : Z;
  lmq_port : Z;
  pubkey_legacy : string;
  pubkey_ed25519 : string;
  pubkey_x25519 : string
}.

(** Modelled from the spec: [operator==] of [sn_record_t] is declared in a
    header that is not among the sources.  The spec: two snodes with equal
    [pubkey_legacy] are equal. *)
Definition sn_record_eqb (a b : sn_record_t) : bool :=
  String.eqb (pubkey_legacy a) (pubkey_legacy b).

Record SwarmInfo : Type := mkSwarmInfo {
  swarm_id : swarm_id_t;
  snodes : list sn_record_t
}.

Definition all_swarms_t : Type := list SwarmInfo.

Record SwarmEvents : Type := mkEvents {
  our_swarm_id : swarm_id_t;
  our_swarm_members : list sn_record_t;
  new_snodes : list sn_record_t;
  new_swarms : list swarm_id_t;
  dissolved : bool
}.

(** The data members of the [Swarm] object. *)
Record Swarm : Type := mkSwarm {
  cur_swarm_id_ : swarm_id_t;
  our_address_ : sn_record_t;
  swarm_peers_ : list sn_record_t;
  all_valid_swarms_ : all_swarms_t
}.

(** [std::find(v.begin(), v.end(), x) != v.end()] on snode records. *)
Definition contains_snode (v : list sn_record_t) (x : sn_record_t) : bool :=
  existsb (fun y => sn_record_eqb y x) v.

Definition swarm_exists (all_swarms : all_swarms_t) (swarm : swarm_id_t)
  : bool :=
  existsb (fun si => swarm_id si =? swarm) all_swarms.

Definition is_existing_swarm (this : Swarm) (sid : swarm_id_t) : bool :=
  existsb (fun cur_swarm_info => swarm_id cur_swarm_info =? sid)
    (all_valid_swarms_ this).

(** [SwarmEvents events = {}]; the swarm id is assigned on every path. *)
Definition empty_events (id : swarm_id_t) : SwarmEvents :=
  mkEvents id [] [] [] false.

Definition derive_swarm_events (this : Swarm) (swarms : all_swarms_t)
  : SwarmEvents :=
  match List.find (fun swarm_info =>
                     contains_snode (snodes swarm_info) (our_address_ this))
          swarms with
  | None =>
      (* We are not in any swarm, nothing to do *)
      empty_events INVALID_SWARM_ID
  | Some our_swarm =>
      let new_swarm_snodes := snodes our_swarm in
      let new_swarm_id := swarm_id our_swarm in
      if cur_swarm_id_ this =? INVALID_SWARM_ID then
        (* Only started in a swarm, nothing to do at this stage *)
        mkEvents new_swarm_id new_swarm_snodes [] [] false
      else if negb (cur_swarm_id_ this =? new_swarm_id) then
        (* Got moved to a new swarm *)
        mkEvents new_swarm_id new_swarm_snodes [] []
          (negb (swarm_exists swarms (cur_swarm_id_ this)))
      else
        (* still in the same swarm *)
        mkEvents new_swarm_id new_swarm_snodes
          (filter (fun sn =>
                     negb (contains_snode (swarm_peers_ this) sn)
                     && negb (sn_record_eqb sn (our_address_ this)))
             new_swarm_snodes)
          (map swarm_id
             (filter (fun swarm_info =>
                        negb (is_existing_swarm this (swarm_id swarm_info)))
                swarms))
          false
  end.

(** This node is listed in a swarm of the roster. *)
Definition in_some_swarm (this : Swarm) (swarms : all_swarms_t) : bool :=
  existsb (fun si => contains_snode (snodes si) (our_address_ this)) swarms.

(** *** Pubkey to swarm *)

Definition user_pubkey_t : Type := string.   (* [pk.str()] *)

Definition char_code (c : ascii) : Z := Z.of_N (N_of_ascii c).

(** [isspace] in the C locale. *)
Definition isspace (c : ascii) : bool :=
  (char_code c =? 32) || ((9 <=? char_code c) && (char_code c <=? 13)).

Definition hex_digit (c : ascii) : option Z :=
  let n := char_code c in
  if (48 <=? n) && (n <=? 57) then Some (n - 48)
  else if (97 <=? n) && (n <=? 102) then Some (n - 87)
  else if (65 <=? n) && (n <=? 70) then Some (n - 55)
  else None.

Fixpoint skip_space (s : string) : string :=
  match s with
  | String c rest => if isspace c then skip_space rest else s
  | EmptyString => s
  end.

(** The digits [strtoull] consumes, accumulated in base 16. *)
Fixpoint hex_digits (acc : Z) (s : string) : Z :=
  match s with
  | String c rest =>
      match hex_digit c with
      | Some d => hex_digits (16 * acc + d) rest
      | None => acc
      end
  | EmptyString => acc
  end.

(** [strtoull(buf, nullptr, 16)] on a buffer of at most 16 characters:
    white space, an optional sign, an optional [0x], then hex digits up to
    the first other character (the terminator included).  At most 16 digits
    never exceed 64 bits, so the saturation of [strtoull] is not reached; a
    minus sign negates within [uint64_t]. *)
Definition strtoull16 (buf : string) : Z :=
  let s := skip_space buf in
  let '(neg, s) :=
    match s with
    | String "-"%char rest => (true, rest)
    | String "+"%char rest => (false, rest)
    | _ => (false, s)
    end in
  let s :=
    match s with
    | String "0"%char (String x (String d rest)) =>
        if (Ascii.eqb x "x"%char || Ascii.eqb x "X"%char)
           && match hex_digit d with Some _ => true | None => false end
        then String d rest else s
    | _ => s
    end in
  let v := hex_digits 0 s in
  if neg then wrap64 (- v) else v.

Fixpoint string_drop (n : nat) (s : string) : string :=
  match n, s with
  | O, _ => s
  | S n', String _ rest => string_drop n' rest
  | S _, EmptyString => EmptyString
  end.

(** The loop of [hex_to_u64]: 16 characters at a time from the iterator to
    the end.  [fuel] bounds the number of rounds.  A last chunk shorter than
    16 characters is followed in the buffer by the string's terminator, where
    [strtoull] stops. *)
Fixpoint xor_chunks (fuel : nat) (rest : string) (res : Z) : Z :=
  match fuel with
  | O => res
  | S fuel' =>
      match rest with
      | EmptyString => res
      | _ =>
          xor_chunks fuel' (string_drop 16 rest)
            (Z.lxor res (strtoull16 (substr0 16 rest)))
      end
  end.

Definition hex_to_u64 (pk : user_pubkey_t) : Z :=
  xor_chunks (String.length pk) (string_drop 2 pk) 0.

(** The locals of the loop of [get_swarm_by_pk]. *)
Record scan : Type := mkScan {
  cur_best : swarm_id_t;
  cur_min : Z;
  leftmost_id : swarm_id_t;
  rightmost_id : swarm_id_t
}.

Definition MAX_ID : swarm_id_t := INVALID_SWARM_ID - 1.

Definition scan_init : scan :=
  mkScan INVALID_SWARM_ID INVALID_SWARM_ID INVALID_SWARM_ID 0.

(** One round of the loop. *)
Definition scan_step (res : Z) (st : scan) (si : SwarmInfo) : scan :=
  if swarm_id si =? INVALID_SWARM_ID then st
  else
    let dist :=
      if swarm_id si >? res then swarm_id si - res else res - swarm_id si in
    let closer := dist <? cur_min st in
    mkScan
      (if closer then swarm_id si else cur_best st)
      (if closer then dist else cur_min st)
      (if swarm_id si <? leftmost_id st then swarm_id si else leftmost_id st)
      (if swarm_id si >? rightmost_id st then swarm_id si
       else rightmost_id st).

(** [get_swarm_by_pk] after [res = hex_to_u64(pk)]. *)
Definition closest_swarm (all_swarms : all_swarms_t) (res : Z) : swarm_id_t :=
  let st := fold_left (scan_step res) all_swarms scan_init in
  if res >? rightmost_id st then
    let dist := wrap64 (wrap64 (MAX_ID - res) + leftmost_id st) in
    if dist <? cur_min st then leftmost_id st else cur_best st
  else if res <? leftmost_id st then
    let dist := wrap64 (res + wrap64 (MAX_ID - rightmost_id st)) in
    if dist <? cur_min st then rightmost_id st else cur_best st
  else cur_best st.

Definition get_swarm_by_pk (all_swarms : all_swarms_t) (pk : user_pubkey_t)
  : swarm_id_t :=
  closest_swarm all_swarms (hex_to_u64 pk).

(** *** Distances on the ring of swarm ids *)

(** The swarm ids of a roster that are not the sentinel, in roster order. *)
Definition valid_ids (all_swarms : all_swarms_t) : list swarm_id_t :=
  filter (fun id => negb (id =? INVALID_SWARM_ID)) (map swarm_id all_swarms).

(** The distance without wrap-around. *)
Definition direct_dist (h id : Z) : Z := Z.abs (id - h).

(** The distance [get_swarm_by_pk] minimises: the shorter way round a ring
    on which going up from [MAX_ID] by [k] leads to [k], so that the ring
    has [MAX_ID = 2^64 - 2] steps. *)
Definition ring_dist (h id : Z) : Z :=
  Z.min (direct_dist h id) (MAX_ID - direct_dist h id).

(** The distance in the words of the spec: [|id - h|] modulo [2^64 - 1],
    the shorter way round. *)
Definition spec_ring_dist (h id : Z) : Z :=
  let d := Z.abs (id - h) mod (2 ^ 64 - 1) in
  Z.min d (2 ^ 64 - 1 - d).

(** [id] occurs in [ids], and no element of [ids] listed before its first
    occurrence satisfies [P]. *)
Definition first_among (P : Z -> Prop) (id : Z) (ids : list Z) : Prop :=
  exists before after,
    ids = (before ++ id :: after)%list /\ forall x, In x before -> ~ P x.

(** What the loop of [get_swarm_by_pk] has established once it has gone
    through the valid ids [seen], at least one. *)
Definition scan_facts (res : Z) (seen : list Z) (st : scan) : Prop :=
  cur_min st = direct_dist res (cur_best st)
  /\ first_among (fun x => direct_dist res x <= cur_min st) (cur_best st) seen
  /\ (forall x, In x seen -> cur_min st <= direct_dist res x)
  /\ In (leftmost_id st) seen
  /\ (forall x, In x seen -> leftmost_id st <= x)
  /\ In (rightmost_id st) seen
  /\ (forall x, In x seen -> x <= rightmost_id st).

Definition scan_inv (res : Z) (seen : list Z) (st : scan) : Prop :=
  match seen with
  | [] => st = scan_init
  | _ :: _ => scan_facts res seen st
  end.

(** A swarm id as a [uint64_t]. *)
Definition is_u64 (z : Z) : Prop := 0 <= z <= UINT64_MAX.

(** [Swarm::is_pubkey_for_us] *)
Definition is_pubkey_for_us (this : Swarm) (pk : user_pubkey_t) : bool :=
  cur_swarm_id_ this =? get_swarm_by_pk (all_valid_swarms_ this) pk.

(** ** Request handler (httpserver/request_handler.cpp) *)

Definition nl : string := String (ascii_of_nat 10) EmptyString.

Definition MAX_MESSAGE_BODY : Z := 102400.

Record message_t : Type := mkMessage {
  msg_pub_key : string;
  msg_data : string;
  msg_hash : string;
  msg_ttl : Z;
  msg_timestamp : Z
}.

(** [storage::Item] *)
Record Item : Type := mkItem {
  item_hash : string;
  item_pub_key : string;
  item_timestamp : Z;
  item_ttl : Z;
  item_data : string
}.

(** [e.what()] *)
Definition what (e : exn) : string :=
  match e with
  | runtime_error w => w
  | length_error => "basic_string::resize"
  | json_parse_error => "parse_error"
  | json_type_error => "type_error"
  | json_out_of_range => "out_of_range"
  | json_invalid_iterator => "invalid_iterator"
  end.

(** What the handler calls and the sources do not define: the message store
    behind [ServiceNode] (state of type [Store]), the pubkey and field
    parsers of the utility headers, and the encoders. *)
Class ServiceDecls : Type := {
  Store : Type;
  user_pubkey_create : string -> option user_pubkey_t;
                                    (* [user_pubkey_t::create]; [None]:
                                       [success] is false *)
  get_user_pubkey_size : Z;
  parseTTL : string -> option Z;
  parseTimestamp : string -> Z -> option Z;
  store_message : message_t -> Store -> result bool * Store;
                                    (* [ServiceNode::process_store] *)
  retrieve_messages : string -> string -> Store -> option (list Item);
                                    (* [ServiceNode::retrieve] *)
  sha512_hex : list string -> string;   (* SHA-512 of the updates, as hex *)
  to_base32z : string -> string;
  to_hex : string -> string
}.

(** The [ServiceNode] as the handler sees it. *)
Record ServiceNode : Type := mkServiceNode {
  swarm_ : Swarm;
  snode_ready : bool
}.

(** Modelled from the spec: [ServiceNode::is_pubkey_for_us] is defined in
    service_node.cpp, which is not among the sources.  The spec compares the
    pubkey's swarm with our swarm; that comparison is
    [Swarm::is_pubkey_for_us]. *)
Definition sn_is_pubkey_for_us (sn : ServiceNode) (pk : user_pubkey_t) : bool :=
  is_pubkey_for_us (swarm_ sn) pk.

(** The members of the swarm with a given id. *)
Definition swarm_members (all_swarms : all_swarms_t) (id : swarm_id_t)
  : list sn_record_t :=
  match List.find (fun si => swarm_id si =? id) all_swarms with
  | Some si => snodes si
  | None => []
  end.

(** Modelled from the spec: [ServiceNode::get_snodes_by_pk] is defined in
    service_node.cpp, which is not among the sources.  The spec: the snode
    list for the swarm owning the pubkey. *)
Definition get_snodes_by_pk (sn : ServiceNode) (pk : user_pubkey_t)
  : list sn_record_t :=
  let all_swarms := all_valid_swarms_ (swarm_ sn) in
  swarm_members all_swarms (get_swarm_by_pk all_swarms pk).

(** A [const char*] by the array it points into: a string literal of the
    program, or the buffer of a [std::string] (named by its contents).  Two
    pointers are equal when they point into the same array; a literal and a
    string buffer are different objects. *)
Inductive char_ptr : Type :=
| literal (text : string)
| c_str (owner : string).

Definition char_ptr_eqb (p q : char_ptr) : bool :=
  match p, q with
  | literal a, literal b => String.eqb a b
  | c_str a, c_str b => String.eqb a b
  | _, _ => false
  end.

(** [std::unordered_set{"get_service_nodes", "ons_resolve"}]: the element
    type deduced from the two literals is [const char*], hashed and
    compared as a pointer. *)
Definition allowed_endpoints : list char_ptr :=
  [literal "get_service_nodes"; literal "ons_resolve"].

Definition set_count (s : list char_ptr) (p : char_ptr) : bool :=
  existsb (char_ptr_eqb p) s.

(** One of the two names the endpoint check is meant to let through. *)
Definition allowed_name (endpoint : string) : bool :=
  String.eqb endpoint "get_service_nodes" || String.eqb endpoint "ons_resolve".

(** What a handler that is given the callback [cb] does with it: call it
    now, or hand a request to the daemon together with the continuation that
    will call [cb] on the daemon's answer. *)
Inductive handled : Type :=
| Replied (r : Response)
| Forwarded (rpc_endpoint : string) (payload : option string)
    (on_reply : bool -> list string -> Response).

Definition is_forwarded (h : handled) : bool :=
  match h with Forwarded _ _ _ => true | Replied _ => false end.

Section RequestHandler.
Context `{JsonLib} `{CryptoLib} `{ServiceDecls}.

Definition snode_to_json (sn : sn_record_t) : json :=
  JObject [("address", JString (to_base32z (pubkey_legacy sn) ++ ".snode"));
           ("pubkey_legacy", JString (to_hex (pubkey_legacy sn)));
           ("pubkey_x25519", JString (to_hex (pubkey_x25519 sn)));
           ("pubkey_ed25519", JString (to_hex (pubkey_ed25519 sn)));
           ("port", JString (to_string_Z (port sn)));
           ("ip", JString (ip sn))].

Definition snodes_to_json (snodes : list sn_record_t) : json :=
  set "snodes" (JArray (map snode_to_json snodes)) JNull.

Definition handle_wrong_swarm (sn : ServiceNode) (pubKey : user_pubkey_t)
  : Response :=
  let nodes := get_snodes_by_pk sn pubKey in
  let res_body := snodes_to_json nodes in
  mkResponse MISDIRECTED_REQUEST (json_dump res_body) json_content.

Definition computeMessageHash (timestamp ttl recipient data : string)
  : string :=
  sha512_hex [timestamp; ttl; recipient; data].

(** The first name of [fields] that [params] does not contain. *)
Fixpoint first_missing (fields : list string) (params : json)
  : option string :=
  match fields with
  | [] => None
  | field :: rest =>
      if contains field params then first_missing rest params
      else Some field
  end.

Definition pubkey_length_msg : string :=
  "Pubkey must be " ++ to_string_Z get_user_pubkey_size
  ++ " characters long" ++ nl.

(** [params.at(key).get<std::string>()] *)
Definition string_at (key : string) (params : json) : result string :=
  v <- at_ key params ;; get_string v.

Definition process_store (sn : ServiceNode) (params : json) (db : Store)
  : result (Response * Store) :=
  match first_missing ["pubKey"; "ttl"; "timestamp"; "data"] params with
  | Some field =>
      Ok (text_response BAD_REQUEST
            ("invalid json: no `" ++ field ++ "` field" ++ nl), db)
  | None =>
      ttl <- string_at "ttl" params ;;
      timestamp <- string_at "timestamp" params ;;
      data <- string_at "data" params ;;
      pk_str <- string_at "pubKey" params ;;
      match user_pubkey_create pk_str with
      | None => Ok (text_response BAD_REQUEST pubkey_length_msg, db)
      | Some pk =>
          if size data >? MAX_MESSAGE_BODY then
            Ok (text_response BAD_REQUEST
                  ("Message body exceeds maximum allowed length of "
                   ++ to_string_Z MAX_MESSAGE_BODY ++ nl), db)
          else if negb (sn_is_pubkey_for_us sn pk) then
            Ok (handle_wrong_swarm sn pk, db)
          else
            match parseTTL ttl with
            | None =>
                Ok (text_response FORBIDDEN
                      ("Provided TTL is not valid." ++ nl), db)
            | Some ttlInt =>
                match parseTimestamp timestamp ttlInt with
                | None =>
                    Ok (text_response NOT_ACCEPTABLE
                          ("Timestamp error: check your clock" ++ nl), db)
                | Some timestampInt =>
                    let messageHash :=
                      computeMessageHash timestamp ttl pk data in
                    let msg :=
                      mkMessage pk data messageHash ttlInt timestampInt in
                    match store_message msg db with
                    | (Throw e, db') =>
                        Ok (text_response INTERNAL_SERVER_ERROR (what e),
                            db')
                    | (Ok false, db') =>
                        Ok (text_response SERVICE_UNAVAILABLE
                              ("Service node is initializing" ++ nl), db')
                    | (Ok true, db') =>
                        Ok (mkResponse OK
                              (json_dump (set "difficulty" (JInt 1) JNull))
                              json_content, db')
                    end
                end
            end
      end
  end.

(** [obfuscate_pubkey], for a pubkey of at least three characters. *)
Definition obfuscate_pubkey (pk : string) : string :=
  String.substring 0 2 pk ++ "..."
  ++ String.substring (String.length pk - 3) 3 pk.

Definition item_to_json (item : Item) : json :=
  set "data" (JString (item_data item))
    (set "expiration" (JInt (wrap64 (item_timestamp item + item_ttl item)))
       (set "hash" (JString (item_hash item)) JNull)).

Definition process_retrieve (sn : ServiceNode) (params : json) (db : Store)
  : result (Response * Store) :=
  match first_missing ["pubKey"; "lastHash"] params with
  | Some field =>
      Ok (text_response BAD_REQUEST
            ("invalid json: no `" ++ field ++ "` field"), db)
  | None =>
      pk_str <- string_at "pubKey" params ;;
      match user_pubkey_create pk_str with
      | None => Ok (text_response BAD_REQUEST pubkey_length_msg, db)
      | Some pk =>
          if negb (sn_is_pubkey_for_us sn pk) then
            Ok (handle_wrong_swarm sn pk, db)
          else
            last_hash <- string_at "lastHash" params ;;
            match retrieve_messages pk last_hash db with
            | None =>
                Ok (text_response INTERNAL_SERVER_ERROR
                      ("Internal Server Error. Could not retrieve messages for "
                       ++ obfuscate_pubkey pk), db)
            | Some items =>
                Ok (mkResponse OK
                      (json_dump
                         (set "messages" (JArray (map item_to_json items))
                            JNull))
                      json_content, db)
            end
      end
  end.

Definition process_snodes_by_pk (sn : ServiceNode) (params : json)
  : result Response :=
  if negb (contains "pubKey" params) then
    Ok (text_response BAD_REQUEST
          ("invalid json: no `pubKey` field" ++ nl))
  else
    pk_str <- string_at "pubKey" params ;;
    match user_pubkey_create pk_str with
    | None => Ok (text_response BAD_REQUEST pubkey_length_msg)
    | Some pk =>
        Ok (mkResponse OK (json_dump (snodes_to_json (get_snodes_by_pk sn pk)))
              json_content)
    end.

(** The continuation [process_oxend_request] gives to the daemon client. *)
Definition oxend_reply (success : bool) (data : list string) : Response :=
  match success, data with
  | true, d0 :: d1 :: _ =>
      let res :=
        if negb (String.eqb d0 "200") then
          set "error" (JObject [("code", JString d0);
                                ("message", JString d1)]) JNull
        else set "result" (JString d1) JNull in
      mkResponse OK (json_dump res) json_content
  | _, _ => text_response BAD_REQUEST "unknown oxend error"
  end.

Definition process_oxend_request (params : json) : handled :=
  match find "endpoint" params with
  | Some (JString endpoint_str) =>
      if negb (set_count allowed_endpoints (c_str endpoint_str)) then
        Replied (text_response BAD_REQUEST
                   ("Endpoint not allowed: " ++ endpoint_str))
      else
        match find "oxend_params" params with
        | Some (JObject kv) =>
            Forwarded ("rpc." ++ endpoint_str)
              (Some (json_dump (JObject kv))) oxend_reply
        | _ => Replied (text_response BAD_REQUEST "missing 'oxend_params'")
        end
  | _ => Replied (text_response BAD_REQUEST "missing 'endpoint'")
  end.

Definition lns_reply (success : bool) (data : list string) : Response :=
  match success, data with
  | true, front :: _ => text_response OK front
  | _, _ => text_response BAD_REQUEST "unknown oxend error"
  end.

(** [process_lns_request] (the build without INTEGRATION_TEST): the
    [params] it assembles are not passed on. *)
Definition process_lns_request (name_hash : string) : handled :=
  Forwarded "rpc.lns_names_to_owners" None lns_reply.

Definition wrap_proxy_response (ce : ChannelEncryption) (res : Response)
    (client_key : string) (enc_type : EncryptType) : result Response :=
  let json_res :=
    set "body" (JString (message res))
      (set "status" (JInt (status_code (status res))) JNull) in
  let res_body := json_dump json_res in
  let ciphertext := EmptyString in
  (* the string [encrypt] returns is not assigned *)
  _ <- encrypt ce enc_type res_body client_key ;;
  let ciphertext := to_base64 ciphertext in
  Ok (mkResponse OK ciphertext json_content).

End RequestHandler.

(** The JSON object [{status, body}] built from a response. *)
Definition status_body_json (res : Response) : json :=
  set "body" (JString (message res))
    (set "status" (JInt (status_code (status res))) JNull).

(** *** Dispatch of a client request *)

(** How a call ends: it returns, an exception leaves it, or it runs into
    undefined behaviour (an [end()] iterator of an object is dereferenced). *)
Inductive outcome : Type :=
| Returned
| Threw (e : exn)
| Undefined.

(** [*it] and [it->] for an iterator that [find] returned on [body].  The
    [end()] of an object or array must not be dereferenced; the [end()] of
    any other value throws [invalid_iterator.214]. *)
Inductive deref_result : Type :=
| Value (v : json)
| DerefThrows
| DerefUndefined.

Definition deref (body : json) (it : option json) : deref_result :=
  match it with
  | Some v => Value v
  | None =>
      match body with
      | JObject _ | JArray _ => DerefUndefined
      | _ => DerefThrows
      end
  end.

Section ClientRequest.
Context `{JsonLib} `{ServiceDecls}.

(** One run of [process_client_req]: what was done with the callback, in
    order, how the call ended, and the message store afterwards. *)
Record run : Type := mkRun {
  events : list handled;
  finish : outcome;
  store_after : Store
}.

(** The number of times the callback was invoked during the call. *)
Definition cb_calls (r : run) : nat :=
  List.length (filter (fun h => negb (is_forwarded h)) (events r)).

Definition bad_request (msg : string) : handled :=
  Replied (text_response BAD_REQUEST msg).

(** The continuation of a run at [*params_it]. *)
Definition with_deref (body : json) (it : option json)
    (done : list handled) (db : Store) (k : json -> run) : run :=
  match deref body it with
  | Value v => k v
  | DerefThrows => mkRun done (Threw json_invalid_iterator) db
  | DerefUndefined => mkRun done Undefined db
  end.

(** [cb(handler(params))] for a handler that returns a [Response]. *)
Definition reply_with (done : list handled) (db : Store)
    (r : result (Response * Store)) : run :=
  match r with
  | Ok (res, db') => mkRun (done ++ [Replied res]) Returned db'
  | Throw e => mkRun done (Threw e) db
  end.

Definition process_client_req (sn : ServiceNode) (req_json : string)
    (db : Store) : run :=
  let body := parse_noexcept req_json in
  let cb1 :=
    if eq_value_t_discarded body
    then [bad_request ("invalid json" ++ nl)] else [] in
  (* no return: the call goes on *)
  let method_it := find "method" body in
  let cb2 :=
    if match method_it with
       | None => true
       | Some m => negb (is_string m)
       end
    then [bad_request ("invalid json: no `method` field" ++ nl)]
    else [] in
  with_deref body method_it (cb1 ++ cb2) db (fun method_json =>
  match get_string method_json with
  | Throw e => mkRun (cb1 ++ cb2) (Threw e) db
  | Ok method_name =>
      let params_it := find "params" body in
      let cb3 :=
        if match params_it with
           | None => true
           | Some p => negb (is_object p)
           end
        then [bad_request ("invalid json: no `params` field" ++ nl)]
        else [] in
      let done := (cb1 ++ cb2 ++ cb3)%list in
      if String.eqb method_name "store" then
        with_deref body params_it done db (fun params =>
          reply_with done db (process_store sn params db))
      else if String.eqb method_name "retrieve" then
        with_deref body params_it done db (fun params =>
          reply_with done db (process_retrieve sn params db))
      else if String.eqb method_name "get_snodes_for_pubkey" then
        with_deref body params_it done db (fun params =>
          reply_with done db
            (res <- process_snodes_by_pk sn params ;; Ok (res, db)))
      else if String.eqb method_name "oxend_request" then
        with_deref body params_it done db (fun params =>
          mkRun (done ++ [process_oxend_request params]) Returned db)
      else if String.eqb method_name "get_lns_mapping" then
        with_deref body params_it done db (fun params =>
          match find "name_hash" params with
          | None =>
              mkRun (done ++ [bad_request "Field <name_hash> is missing"])
                Returned db
          | Some name =>
              match get_string name with
              | Ok name_hash =>
                  mkRun (done ++ [process_lns_request name_hash]) Returned db
              | Throw e => mkRun done (Threw e) db
              end
          end)
      else
        mkRun (done ++ [bad_request ("no method " ++ method_name)])
          Returned db
  end).

End ClientRequest.

(** ** Storage test of a peer (httpserver/http_connection.cpp) *)

(** Modelled from the spec: [MessageTestStatus] is declared in a header
    that is not among the sources.  The spec gives the three outcomes. *)
Inductive MessageTestStatus : Type := SUCCESS | WRONG_REQ | RETRY.

(** [TEST_RETRY_PERIOD], in milliseconds. *)
Definition TEST_RETRY_PERIOD : Z := 50.

(** What one call of [process_storage_test_req] observes: the answer of
    [ServiceNode::process_storage_test_req] and the clock, as whole
    milliseconds since [start_timestamp_]. *)
Record attempt : Type := mkAttempt {
  lookup_status : MessageTestStatus;
  lookup_answer : string;
  elapsed_ms : Z
}.

(** The members of [connection_t] the storage test touches.
    [responses_written] collects what [write_response] sent, latest first;
    [repeat_timer_] is the pending wait, if any; [timer_waits] the waits
    armed so far, latest first. *)
Record connection_t : Type := mkConn {
  delay_response_ : bool;
  repetition_count_ : Z;
  body_stream_ : string;
  response_result : Z;
  repeat_timer_ : option Z;
  timer_waits : list Z;
  responses_written : list (Z * string)
}.

(** The connection when the storage test starts: [process_swarm_req] has set
    the status to "bad request" and nothing is in the body. *)
Definition connection_at_test : connection_t :=
  mkConn false 0 EmptyString 400 None [] [].

(** A storage test that has been delayed and has written nothing. *)
Definition pending (c : connection_t) : Prop :=
  delay_response_ c = true /\ responses_written c = [].

Section StorageTest.
Context `{JsonLib}.

(** [write_response]: the body is what [body_stream_] holds. *)
Definition write_response (c : connection_t) : connection_t :=
  mkConn (delay_response_ c) (repetition_count_ c) (body_stream_ c)
    (response_result c) (repeat_timer_ c) (timer_waits c)
    ((response_result c, body_stream_ c) :: responses_written c).

Definition put_body (c : connection_t) (delay : bool) (body : json)
  : connection_t :=
  mkConn delay (repetition_count_ c)
    (body_stream_ c ++ json_dump body) 200
    (repeat_timer_ c) (timer_waits c) (responses_written c).

Definition process_storage_test_req (a : attempt) (c : connection_t)
  : connection_t :=
  match lookup_status a with
  | SUCCESS =>
      write_response
        (put_body c true
           (set "value" (JString (lookup_answer a))
              (set "status" (JString "OK") JNull)))
  | RETRY =>
      if elapsed_ms a <? 60000 then
        mkConn true (repetition_count_ c + 1) (body_stream_ c)
          (response_result c) (Some TEST_RETRY_PERIOD)
          (TEST_RETRY_PERIOD :: timer_waits c) (responses_written c)
      else
        put_body c (delay_response_ c)
          (set "status" (JString "other") JNull)
  | WRONG_REQ =>
      put_body c (delay_response_ c)
        (set "status" (JString "wrong request") JNull)
  end.

(** The read handler: the request is processed, then the response is
    written unless it was delayed. *)
Definition on_data (first : attempt) (c : connection_t) : connection_t :=
  let c := process_storage_test_req first c in
  if delay_response_ c then c else write_response c.

(** The wait handler of [repeat_timer_], when the wait ends without an
    error. *)
Definition on_timer (a : attempt) (c : connection_t) : connection_t :=
  process_storage_test_req a
    (mkConn (delay_response_ c) (repetition_count_ c) (body_stream_ c)
       (response_result c) None (timer_waits c) (responses_written c)).

(** The later attempts are made while a wait is pending. *)
Fixpoint run_timers (later : list attempt) (c : connection_t)
  : connection_t :=
  match later with
  | [] => c
  | a :: rest =>
      match repeat_timer_ c with
      | Some _ => run_timers rest (on_timer a c)
      | None => c
      end
  end.

Definition storage_test (first : attempt) (later : list attempt)
  : connection_t :=
  run_timers later (on_data first connection_at_test).

End StorageTest.

(** *** Hex words *)

(** Every character of [s] is a hex digit (of either case). *)
Fixpoint all_hex (s : string) : bool :=
  match s with
  | EmptyString => true
  | String c rest =>
      match hex_digit c with
      | Some _ => all_hex rest
      | None => false
      end
  end.

(** The number a string of hex digits denotes, most significant first. *)
Definition hex_value (s : string) : Z := hex_digits 0 s.

(** A word of a pubkey: 16 hex digits. *)
Definition is_word (w : string) : Prop :=
  String.length w = 16%nat /\ all_hex w = true.

(** ** Applying a roster (httpserver/swarm.cpp) *)

(** A [std::unordered_map] with string keys: an association list without
    duplicate keys.  [emplace] keeps the entry a key already has.  The order
    of the list is the order of insertion; the code never relies on it,
    except where it iterates (see [update_state]). *)
Definition umap (V : Type) : Type := list (string * V).

Fixpoint um_find {V : Type} (k : string) (m : umap V) : option V :=
  match m with
  | [] => None
  | (k', v) :: rest => if String.eqb k' k then Some v else um_find k rest
  end.

Definition um_emplace {V : Type} (k : string) (v : V) (m : umap V) : umap V :=
  match um_find k m with
  | Some _ => m
  | None => (m ++ [(k, v)])%list
  end.

(** All snodes of a roster, swarm after swarm. *)
Definition all_snodes (swarms : all_swarms_t) : list sn_record_t :=
  flat_map snodes swarms.

Definition emplace_snodes (l : list sn_record_t) (m : umap sn_record_t)
  : umap sn_record_t :=
  fold_left (fun m snode => um_emplace (pubkey_legacy snode) snode m) l m.

Definition get_snode_map_from_swarms (swarms : all_swarms_t)
  : umap sn_record_t :=
  fold_left (fun m swarm => emplace_snodes (snodes swarm) m) swarms [].

(** [update_if_changed(val, new_val, ignore_val)]: the new [val] and the
    value returned. *)
Definition update_if_changed {T : Type} (eqb : T -> T -> bool)
    (val new_val ignore_val : T) : T * bool :=
  if negb (eqb new_val ignore_val) && negb (eqb new_val val)
  then (new_val, true)
  else (val, false).

(** The body of the inner loop of [apply_ips]: the snode afterwards, and
    [updated]. *)
Definition apply_ips_snode (other_snode_map : umap sn_record_t)
    (snode : sn_record_t) : sn_record_t * bool :=
  match um_find (pubkey_legacy snode) other_snode_map with
  | Some sn =>
      let '(ip', u1) :=
        update_if_changed String.eqb (ip snode) (ip sn) "0.0.0.0" in
      let '(port', u2) := update_if_changed Z.eqb (port snode) (port sn) 0 in
      let '(lmq_port', u3) :=
        update_if_changed Z.eqb (lmq_port snode) (lmq_port sn) 0 in
      (mkSnode ip' port' lmq_port' (pubkey_legacy snode)
         (pubkey_ed25519 snode) (pubkey_x25519 snode),
       u1 || u2 || u3)
  | None => (snode, false)
  end.

Definition apply_ips (swarms_to_keep other_swarms : all_swarms_t)
  : all_swarms_t :=
  let other_snode_map := get_snode_map_from_swarms other_swarms in
  map (fun si =>
         mkSwarmInfo (swarm_id si)
           (map (fun snode => fst (apply_ips_snode other_snode_map snode))
              (snodes si)))
    swarms_to_keep.

(** [updates_count], which [apply_ips] logs. *)
Definition apply_ips_updates (swarms_to_keep other_swarms : all_swarms_t)
  : nat :=
  let other_snode_map := get_snode_map_from_swarms other_swarms in
  List.length
    (filter (fun snode => snd (apply_ips_snode other_snode_map snode))
       (all_snodes swarms_to_keep)).

(** [Swarm::apply_swarm_changes] *)
Definition apply_swarm_changes (this : Swarm) (new_swarms : all_swarms_t)
  : Swarm :=
  mkSwarm (cur_swarm_id_ this) (our_address_ this) (swarm_peers_ this)
    (apply_ips new_swarms (all_valid_swarms_ this)).

(** [Swarm::set_swarm_id] *)
Definition set_swarm_id (this : Swarm) (sid : swarm_id_t) : Swarm :=
  mkSwarm sid (our_address_ this) (swarm_peers_ this) (all_valid_swarms_ this).

(** The first record of [l] with a given legacy key. *)
Definition first_with_key (pk : string) (l : list sn_record_t)
  : option sn_record_t :=
  List.find (fun sn => String.eqb (pubkey_legacy sn) pk) l.

(** Two records of the same node. *)
Definition same_keys (a b : sn_record_t) : Prop :=
  pubkey_legacy a = pubkey_legacy b
  /\ pubkey_ed25519 a = pubkey_ed25519 b
  /\ pubkey_x25519 a = pubkey_x25519 b.

(** [after] is [kept] with address fields carried forward from [other]: a
    field of [after] is the non-default field of [other], or else the one
    of [kept]. *)
Definition carried_forward (kept : sn_record_t) (other : option sn_record_t)
    (after : sn_record_t) : Prop :=
  same_keys kept after
  /\ match other with
     | None => after = kept
     | Some o =>
         ip after = (if String.eqb (ip o) "0.0.0.0" then ip kept else ip o)
         /\ port after = (if port o =? 0 then port kept else port o)
         /\ lmq_port after
            = (if lmq_port o =? 0 then lmq_port kept else lmq_port o)
     end.

(** ** The funded-node indexes (httpserver/swarm.cpp) *)

(** The three lookup tables of [Swarm]: every funded node by legacy key, and
    the legacy key by ed25519 and by x25519 key. *)
Record SwarmIndex : Type := mkIndex {
  all_funded_nodes_ : umap sn_record_t;
  all_funded_ed25519_ : umap string;
  all_funded_x25519_ : umap string
}.

(** One of the two [emplace] calls of the last loop of [update_state], over
    the entries in the order the loop visits them. *)
Definition index_by (key : sn_record_t -> string)
    (entries : list (string * sn_record_t)) : umap string :=
  fold_left (fun m (e : string * sn_record_t) =>
               um_emplace (key (snd e)) (fst e) m)
    entries [].

(** [Swarm::update_state].  [visit] is the order in which the range-for
    over [all_funded_nodes_] reaches its entries, which the standard leaves
    to the implementation of [std::unordered_map]. *)
Definition update_state
    (visit : umap sn_record_t -> list (string * sn_record_t))
    (this : Swarm) (idx : SwarmIndex)
    (swarms : all_swarms_t) (decommissioned : list sn_record_t)
    (events : SwarmEvents) (active : bool) : Swarm * SwarmIndex :=
  let this1 := if active then apply_swarm_changes this swarms else this in
  let members := our_swarm_members events in
  if active && (match members with [] => true | _ => false end)
  then (this1, idx)
  else
    let this2 :=
      if active
      then mkSwarm (cur_swarm_id_ this1) (our_address_ this1)
             (filter (fun record =>
                        negb (sn_record_eqb record (our_address_ this1)))
                members)
             (all_valid_swarms_ this1)
      else this1 in
    let funded :=
      emplace_snodes decommissioned
        (fold_left (fun m si => emplace_snodes (snodes si) m) swarms []) in
    (this2,
     mkIndex funded
       (index_by pubkey_ed25519 (visit funded))
       (index_by pubkey_x25519 (visit funded))).

(** [Swarm::find_node(const legacy_pubkey&)] *)
Definition find_node (idx : SwarmIndex) (pk : string) : option sn_record_t :=
  um_find pk (all_funded_nodes_ idx).

(** [Swarm::find_node(const ed25519_pubkey&)] *)
Definition find_node_ed25519 (idx : SwarmIndex) (pk : string)
  : option sn_record_t :=
  match um_find pk (all_funded_ed25519_ idx) with
  | Some legacy => find_node idx legacy
  | None => None
  end.

(** [Swarm::find_node(const x25519_pubkey&)] *)
Definition find_node_x25519 (idx : SwarmIndex) (pk : string)
  : option sn_record_t :=
  match um_find pk (all_funded_x25519_ idx) with
  | Some legacy => find_node idx legacy
  | None => None
  end.

(** A visiting order reaches exactly the entries of the map. *)
Definition visits_all
    (visit : umap sn_record_t -> list (string * sn_record_t)) : Prop :=
  forall m e, In e (visit m) <-> In e m.

(** Every entry is filed under the legacy key of its record, and no key is
    filed twice. *)
Definition keyed_by_legacy (m : umap sn_record_t) : Prop :=
  NoDup (map fst m)
  /\ forall k sn, In (k, sn) m -> pubkey_legacy sn = k.

(** ** Peer statistics (httpserver/stats.cpp) *)

Section Stats.
(** [test_result_t] is declared in stats.h; the code here reads only its
    [timestamp], a [time_t]. *)
Variable test_result_t : Type.
Variable timestamp : test_result_t -> Z.

(** [cleanup_old]: [find_if] for the first result newer than the cutoff,
    then [erase] of everything before it. *)
Fixpoint cleanup_old (tests : list test_result_t) (cutoff_time : Z)
  : list test_result_t :=
  match tests with
  | [] => []
  | res :: rest =>
      if timestamp res >? cutoff_time then tests
      else cleanup_old rest cutoff_time
  end.

(** The results are in the order of their timestamps. *)
Fixpoint in_time_order (tests : list test_result_t) : Prop :=
  match tests with
  | [] => True
  | res :: rest =>
      Forall (fun later => timestamp res <= timestamp later) rest
      /\ in_time_order rest
  end.

End Stats.

(** ** The combined payload, written (httpserver/onion_processing.cpp) *)

(** The layout [parse_combined_payload] expects, as its comment gives it:
    [| <4 bytes>: N | <N bytes>: ciphertext | <rest>: json as utf8 |], with
    N little-endian. *)
Definition byte_char (b : Z) : ascii := ascii_of_N (Z.to_N b).

Definition le32 (n : Z) : string :=
  String (byte_char (n mod 2 ^ 8))
    (String (byte_char (n / 2 ^ 8 mod 2 ^ 8))
       (String (byte_char (n / 2 ^ 16 mod 2 ^ 8))
          (String (byte_char (n / 2 ^ 24 mod 2 ^ 8)) EmptyString))).

Definition combined_payload (ciphertext json_text : string) : string :=
  le32 (size ciphertext) ++ ciphertext ++ json_text.

(** ** The onion request dispatch (httpserver/onion_processing.cpp) *)

(** [OnionRequestMetadata], as far as this file reads it; its callback [cb]
    is the continuation, see [onion_step]. *)
Record OnionRequestMetadata : Type := mkOnionMeta {
  md_ephem_key : string;
  md_enc_type : EncryptType;
  md_hop_no : Z
}.

(** What one call of [process_onion_req] does: it calls [data.cb] with a
    response, it hands over to one of three other methods (which get the
    callback), or an exception leaves it before either. *)
Inductive onion_step : Type :=
| Cb (res : Response)
| ProcessOnionExit (body : string) (json b64 : bool)
    (data : OnionRequestMetadata)
| SendOnionToSn (dest_node : sn_record_t) (payload : string)
    (data : OnionRequestMetadata)
| ProcessOnionToUrl (protocol host : string) (port : Z)
    (target payload : string)
| Raised (e : exn).

Definition cb_of (r : result Response) : onion_step :=
  match r with
  | Ok res => Cb res
  | Throw e => Raised e
  end.

Section OnionDispatch.
Context `{JsonLib} `{CryptoLib} `{OnionDecls}.

(** [ServiceNode::find_node] for an ed25519 key and
    [ServiceNode::own_address] are defined in service_node.cpp, which is
    not among the sources. *)
Variable service_node_find_node : string -> option sn_record_t.
Variable own_address : sn_record_t.

(** [process_ciphertext_v2] *)
Definition process_ciphertext_v2 (decryptor : ChannelEncryption)
    (ciphertext ephem_key : string) (enc_type : EncryptType) : ParsedInfo :=
  match decrypt decryptor enc_type ciphertext ephem_key with
  | Ok text => process_inner_request text
  | Throw _ => ParseError INVALID_CIPHERTEXT
  end.

(** The four overloads of [RequestHandler::process_onion_req] that
    [var::visit] selects from. *)
Definition process_onion_req_parsed (channel_cipher_ : ChannelEncryption)
    (parsed : ParsedInfo) (data : OnionRequestMetadata) : onion_step :=
  match parsed with
  | FinalDestination info =>
      ProcessOnionExit (fd_body info) (fd_json info) (fd_base64 info) data
  | RelayToNode info =>
      match service_node_find_node (rn_next_node info) with
      | None =>
          Cb (text_response BAD_GATEWAY
                ("Next node not found: " ++ rn_next_node info))
      | Some dest_node =>
          SendOnionToSn dest_node (rn_ciphertext info)
            (mkOnionMeta (rn_ephemeral_key info) (rn_enc_type info)
               (md_hop_no data))
      end
  | RelayToServer info =>
      if is_server_url_allowed (rs_target info)
      then ProcessOnionToUrl (rs_protocol info) (rs_host info)
             (rs_port info) (rs_target info) (rs_payload info)
      else cb_of (wrap_proxy_response channel_cipher_
                    (text_response BAD_REQUEST "Invalid url")
                    (md_ephem_key data) (md_enc_type data))
  | ParseError INVALID_CIPHERTEXT =>
      Cb (text_response BAD_REQUEST "Invalid ciphertext")
  | ParseError INVALID_JSON =>
      cb_of (wrap_proxy_response channel_cipher_
               (text_response BAD_REQUEST "Invalid json")
               (md_ephem_key data) (md_enc_type data))
  end.

(** [RequestHandler::process_onion_req(ciphertext, data)] *)
Definition process_onion_req (ready : bool)
    (channel_cipher_ : ChannelEncryption) (ciphertext : string)
    (data : OnionRequestMetadata) : onion_step :=
  if negb ready
  then Cb (text_response SERVICE_UNAVAILABLE
             ("Snode not ready: " ++ pubkey_ed25519 own_address))
  else
    process_onion_req_parsed channel_cipher_
      (process_ciphertext_v2 channel_cipher_ ciphertext
         (md_ephem_key data) (md_enc_type data))
      data.

End OnionDispatch.

(** What a parsed request carries on, given the plaintext it came from. *)
Definition carries_on `{JsonLib} (plaintext : string) (parsed : ParsedInfo)
  : Prop :=
  match parsed with
  | FinalDestination info =>
      exists j, parse_combined_payload plaintext = Ok (fd_body info, j)
  | RelayToNode info =>
      (exists j, parse_combined_payload plaintext = Ok (rn_ciphertext info, j))
      /\ rn_enc_type info <> xchacha20
  | RelayToServer info =>
      rs_payload info = plaintext /\ 0 <= rs_port info < 2 ^ 16
  | ParseError e => e = INVALID_JSON
  end.

(** ** The HTTPS front end (httpserver/https_server.cpp) *)

(** [call_data]: the two flags, and the responses that [queue_response] has
    handed to the http thread with [loop_defer], oldest first. *)
Record call_data : Type := mkCallData {
  replied : bool;
  aborted : bool;
  deferred : list Response
}.

Definition fresh_call : call_data := mkCallData false false [].

(** [queue_response(data, res)].  [holds] says that the [shared_ptr] passed
    is not null; [d] is the [call_data] behind it. *)
Definition queue_response (holds : bool) (d : call_data) (res : Response)
  : call_data :=
  if negb holds || replied d then d
  else mkCallData true (aborted d) (deferred d ++ [res])%list.

(** The callback [[data, started](Response response) mutable] that the
    handlers get: it moves its [data] into [queue_response], so the pointer
    it holds is null from its first call on.  The state is that pointer's
    [holds] and the [call_data]. *)
Definition response_cb (st : bool * call_data) (response : Response)
  : bool * call_data :=
  (false, queue_response (fst st) (snd st) response).

(** The callback over what a handler did with it during the call: a
    [Forwarded] callback has been moved to the daemon request and is not
    called during the call. *)
Definition run_cb (events : list handled) (st : bool * call_data)
  : bool * call_data :=
  fold_left (fun st ev =>
               match ev with
               | Replied response => response_cb st response
               | Forwarded _ _ _ => st
               end)
    events st.

(** The first response among the events. *)
Fixpoint first_reply (events : list handled) : option Response :=
  match events with
  | [] => None
  | Replied response :: _ => Some response
  | Forwarded _ _ _ :: rest => first_reply rest
  end.

Section HttpsServer.
Context `{JsonLib} `{CryptoLib} `{ServiceDecls} `{OnionDecls}.

(** The task that [process_storage_rpc_req] injects once the body is
    complete: the callback's pointer state, the [call_data] and the message
    store when the task ends, and whether it ends within defined behaviour.
    [false] says that [process_client_req] dereferences an end iterator;
    the state is then the one at that point. *)
Definition storage_rpc_task (sn : ServiceNode) (body : string) (db : Store)
    (data : call_data) : (bool * call_data * Store) * bool :=
  if replied data || aborted data then ((true, data, db), true)
  else
    let r := process_client_req sn body db in
    let st := run_cb (events r) (true, data) in
    match finish r with
    | Returned => ((st, store_after r), true)
    | Threw e =>
        let error :=
          "Exception caught with processing client request: " ++ what e in
        ((fst st,
          queue_response true (snd st)
            (text_response INTERNAL_SERVER_ERROR error),
          store_after r),
         true)
    | Undefined => ((st, store_after r), false)
    end.

(** [get<int>()]: numbers and booleans convert by [static_cast]. *)
Definition get_int (j : json) : result Z :=
  match j with
  | JInt z => Ok ((z + 2 ^ 31) mod 2 ^ 32 - 2 ^ 31)
  | JBool b => Ok (if b then 1 else 0)
  | _ => Throw json_type_error
  end.

(** The [try] block of the task of [process_onion_req_v2], up to the call
    of [process_onion_req]: the ciphertext and the metadata. *)
Definition parse_onion_req_v2 (body : string)
  : result (string * OnionRequestMetadata) :=
  '(ciphertext, json_req) <- parse_combined_payload body ;;
  eph_json <- at_ "ephemeral_key" json_req ;;
  eph_hex <- get_string eph_json ;;
  ephem_key <- from_hex x25519_pubkey_from_hex eph_hex ;;
  enc_type <- optional_field "enc_type"
                (fun v => s <- get_string v ;; parse_enc_type s)
                aes_gcm json_req ;;
  hop_no <- optional_field "hop_no"
              (fun v => n <- get_int v ;; Ok (Z.max 0 n)) 0 json_req ;;
  Ok (ciphertext, mkOnionMeta ephem_key enc_type hop_no).

(** What the task of [process_onion_req_v2] has done when it returns: the
    [call_data], and the step of [process_onion_req] if it was reached. *)
Definition onion_req_v2_task
    (service_node_find_node : string -> option sn_record_t)
    (own_address : sn_record_t) (ready : bool)
    (channel_cipher_ : ChannelEncryption) (body : string) (data : call_data)
  : call_data * option onion_step :=
  if replied data || aborted data then (data, None)
  else
    let parse_error (e : exn) :=
      text_response BAD_REQUEST
        ("Error parsing onion request: " ++ what e) in
    match parse_onion_req_v2 body with
    | Throw e => (queue_response true data (parse_error e), None)
    | Ok (ciphertext, onion) =>
        let step :=
          process_onion_req service_node_find_node own_address ready
            channel_cipher_ ciphertext onion in
        match step with
        | Cb res => (snd (response_cb (true, data) res), Some step)
        | Raised e => (queue_response true data (parse_error e), Some step)
        | _ => (data, Some step)
        end
    end.

End HttpsServer.

(** ** The remote address as text (httpserver/https_server.cpp) *)

(** The locals of the first loop of [get_remote_address]: [start] and [end]
    of the run of zero groups being read, and the longest run so far. *)
Record zero_run : Type := mkZeroRun {
  run_start : Z;
  run_end : Z;
  zero_start : Z;
  zero_end : Z
}.

(** One round of that loop, at index [i] with [a[i] = x]. *)
Definition zero_scan_step (x i : Z) (s : zero_run) : zero_run :=
  if negb (x =? 0) then s
  else
    let start := if negb (run_end s =? i) then i else run_start s in
    let end_ := wrap64 (i + 1) in
    if wrap64 (end_ - start) >? wrap64 (zero_end s - zero_start s)
    then mkZeroRun start end_ start end_
    else mkZeroRun start end_ (zero_start s) (zero_end s).

Fixpoint zero_scan (a : list Z) (i : Z) (s : zero_run) : zero_run :=
  match a with
  | [] => s
  | x :: rest => zero_scan rest (i + 1) (zero_scan_step x i s)
  end.

Definition longest_zero_run (a : list Z) : Z * Z :=
  let s := zero_scan a 0 (mkZeroRun 0 0 0 0) in
  (zero_start s, zero_end s).

(** [std::ostream << x] under [std::hex]. *)
Definition hex_string (x : Z) : string :=
  HexadecimalString.NilZero.string_of_uint (N.to_hex_uint (Z.to_N x)).

(** The second loop: what is written for the groups from index [i] on. *)
Fixpoint write_groups (a : list Z) (i zero_start zero_end : Z) : string :=
  match a with
  | [] => EmptyString
  | x :: rest =>
      (if (zero_start <=? i) && (i <? zero_end)
       then (if i =? zero_start then "::" else EmptyString)
       else (if (0 <? i) && negb (i =? zero_end) then ":" else EmptyString)
            ++ hex_string x)
      ++ write_groups rest (i + 1) zero_start zero_end
  end.

(** The bytes of a string, and sixteen bytes as eight big-endian shorts. *)
Definition bytes_of (s : string) : list Z :=
  map char_code (list_ascii_of_string s).

Fixpoint shorts_of (bytes : list Z) : list Z :=
  match bytes with
  | hi :: lo :: rest => (2 ^ 8 * hi + lo) :: shorts_of rest
  | _ => []
  end.

Fixpoint dotted (bytes : list Z) (first : bool) : string :=
  match bytes with
  | [] => EmptyString
  | c :: rest =>
      (if first then EmptyString else ".") ++ to_string_Z c
      ++ dotted rest false
  end.

(** [get_remote_address], on the packed address that uWebSockets gives;
    [to_hex] is oxenmq's. *)
Definition get_remote_address (to_hex : string -> string) (addr : string)
  : string :=
  if size addr =? 4 then dotted (bytes_of addr) true
  else if size addr =? 16 then
    let a := shorts_of (bytes_of addr) in
    let '(zero_start, zero_end) := longest_zero_run a in
    "[" ++ write_groups a 0 zero_start zero_end ++ "]"
  else "{unknown:" ++ to_hex addr ++ "}".

(** The group at an index, and a stretch of zero groups. *)
Definition group_at (a : list Z) (k : Z) : Z := nth (Z.to_nat k) a 1.

Definition zeros_between (a : list Z) (s e : Z) : Prop :=
  forall k, s <= k < e -> group_at a k = 0.

(** The loop invariant after [i] rounds. *)
Definition zero_scan_inv (a : list Z) (i : Z) (st : zero_run) : Prop :=
  0 <= run_start st <= run_end st /\ run_end st <= i
  /\ (run_end st = i ->
      zeros_between a (run_start st) (run_end st)
      /\ (run_start st = 0 \/ group_at a (run_start st - 1) <> 0))
  /\ (run_end st <> i -> group_at a (i - 1) <> 0)
  /\ 0 <= zero_start st <= zero_end st /\ zero_end st <= i
  /\ zeros_between a (zero_start st) (zero_end st)
  /\ (forall s e, 0 <= s < e -> e <= i -> zeros_between a s e ->
        e - s <= zero_end st - zero_start st
        /\ (e - s = zero_end st - zero_start st -> zero_start st <= s))
  /\ (zero_start st = zero_end st -> zero_end st = 0).

(** ** Requests from other snodes (httpserver/http_connection.cpp) *)

(** [header_[key] = value] on a [std::map]. *)
Fixpoint um_assign {V : Type} (k : string) (v : V) (m : umap V) : umap V :=
  match m with
  | [] => [(k, v)]
  | (k', v') :: rest =>
      if String.eqb k' k then (k, v) :: rest
      else (k', v') :: um_assign k v rest
  end.

(** What a handler asks of the service node or the request handler. *)
Inductive service_call : Type :=
| PushBatch (body : string)
| StorageTest (height : Z) (tester_pk msg_hash : string)
| BlockchainTest (height : Z) (tester_pk : string) (max_height seed : Z)
| ProxyExit (key body : string)
| ProcessOnionReq (ciphertext ephem_key : string).

(** The request as the handlers read it: its header fields through [find],
    and its body. *)
Record request_t : Type := mkRequest {
  req_find : string -> option string;
  req_body : string
}.

(** The members of [connection_t] that the handlers of snode requests
    write: the status and the fields of [response_], [body_stream_],
    [header_], [delay_response_], the calls made, oldest first, the body of
    [response_], and the responses given to [async_write], oldest first,
    each as its status and body. *)
Record snode_conn : Type := mkSnodeConn {
  sc_result : Z;
  sc_fields : list (string * string);
  sc_body_stream : string;
  sc_header : umap string;
  sc_delay_response : bool;
  sc_calls : list service_call;
  sc_body : string;
  sc_written : list (Z * string)
}.

Definition set_result (status : Z) (c : snode_conn) : snode_conn :=
  mkSnodeConn status (sc_fields c) (sc_body_stream c) (sc_header c)
    (sc_delay_response c) (sc_calls c) (sc_body c) (sc_written c).

Definition write_body (text : string) (c : snode_conn) : snode_conn :=
  mkSnodeConn (sc_result c) (sc_fields c) (sc_body_stream c ++ text)
    (sc_header c) (sc_delay_response c) (sc_calls c) (sc_body c)
    (sc_written c).

Definition set_field (name value : string) (c : snode_conn) : snode_conn :=
  mkSnodeConn (sc_result c) ((name, value) :: sc_fields c)
    (sc_body_stream c) (sc_header c) (sc_delay_response c) (sc_calls c)
    (sc_body c) (sc_written c).

Definition call (request : service_call) (c : snode_conn) : snode_conn :=
  mkSnodeConn (sc_result c) (sc_fields c) (sc_body_stream c) (sc_header c)
    (sc_delay_response c) (sc_calls c ++ [request])%list (sc_body c)
    (sc_written c).

(** [delay_response_ = true] *)
Definition delay_response (c : snode_conn) : snode_conn :=
  mkSnodeConn (sc_result c) (sc_fields c) (sc_body_stream c) (sc_header c)
    true (sc_calls c) (sc_body c) (sc_written c).

(** [connection_t::write_response]: a body stream that is not empty becomes
    the body, the content length is set, and the response is written.
    [response_modifier_] is set nowhere in the sources and is taken to be
    empty. *)
Definition conn_write_response (c : snode_conn) : snode_conn :=
  let body :=
    if String.eqb (sc_body_stream c) EmptyString then sc_body c
    else sc_body_stream c in
  mkSnodeConn (sc_result c)
    (("Content-Length", to_string_Z (size body)) :: sc_fields c)
    (sc_body_stream c) (sc_header c) (sc_delay_response c) (sc_calls c)
    body (sc_written c ++ [(sc_result c, body)])%list.

(** [get<uint64_t>()] *)
Definition get_uint64 (j : json) : result Z :=
  match j with
  | JInt z => Ok (wrap64 z)
  | JBool b => Ok (if b then 1 else 0)
  | _ => Throw json_type_error
  end.

Section SnodeRequests.
Context `{JsonLib}.

(** The names of the header fields (loki_common.h), the node's view of its
    peers, the signature check, the rate limiter's verdict for this request,
    the certificate signature, and the answer of
    [RequestHandler::process_proxy_exit]: none of them is among the
    sources. *)
Variables LOKI_SENDER_SNODE_PUBKEY_HEADER LOKI_SNODE_SIGNATURE_HEADER
  LOKI_SENDER_KEY_HEADER : string.
Variable is_snode_address_known : string -> bool.
Variable check_signature_of : string -> string -> string -> bool.
                                         (* payload, signature, public key *)
Variable should_rate_limit : string -> bool.
Variable get_cert_signature : string.
Variable process_proxy_exit_response : string -> string -> Response.

(** [connection_t::parse_header(key)] *)
Definition parse_header (req : request_t) (key : string) (c : snode_conn)
  : bool * snode_conn :=
  match req_find req key with
  | None =>
      (false, write_body ("Missing field in header : " ++ key ++ nl) c)
  | Some value =>
      (true,
       mkSnodeConn (sc_result c) (sc_fields c) (sc_body_stream c)
         (um_assign key value (sc_header c)) (sc_delay_response c)
         (sc_calls c) (sc_body c) (sc_written c))
  end.

(** [header_[key]], for a key that is there. *)
Definition header_at (key : string) (c : snode_conn) : string :=
  match um_find key (sc_header c) with
  | Some value => value
  | None => EmptyString
  end.

(** [connection_t::validate_snode_request] *)
Definition validate_snode_request (req : request_t) (c : snode_conn)
  : bool * snode_conn :=
  let '(found, c) := parse_header req LOKI_SENDER_SNODE_PUBKEY_HEADER c in
  let '(found, c) :=
    if found then parse_header req LOKI_SNODE_SIGNATURE_HEADER c
    else (false, c) in
  if negb found then (false, c)
  else
    let signature := header_at LOKI_SNODE_SIGNATURE_HEADER c in
    let public_key_b32z := header_at LOKI_SENDER_SNODE_PUBKEY_HEADER c in
    let snode_address := public_key_b32z ++ ".snode" in
    if negb (is_snode_address_known snode_address)
    then (false, set_result 401 (write_body ("Unknown service node" ++ nl) c))
    else if negb (check_signature_of (req_body req) signature public_key_b32z)
    then (false,
          set_result 401 (write_body "Could not verify batch signature" c))
    else if should_rate_limit public_key_b32z
    then (false, set_result 429 (write_body ("Too many requests" ++ nl) c))
    else (true, c).

(** [connection_t::set_response] *)
Definition set_response (res : Response) (c : snode_conn) : snode_conn :=
  let content_type :=
    match content_type res with
    | plaintext => "text/plain"
    | json_content => "application/json"
    end in
  write_body (message res)
    (set_field "Content-Type" content_type
       (set_result (status_code (status res)) c)).

(** The storage-test branch of [process_swarm_req]. *)
Definition swarm_storage_test (req : request_t) (c : snode_conn)
  : snode_conn :=
  let c := set_result 400 c in
  let body := parse_noexcept (req_body req) in
  if eq_value_t_discarded body
  then set_result 400 (write_body ("invalid json" ++ nl) c)
  else
    match (blk_height <- (v <- at_ "height" body ;; get_uint64 v) ;;
           msg_hash <- (v <- at_ "hash" body ;; get_string v) ;;
           Ok (blk_height, msg_hash)) with
    | Throw _ =>
        set_result 400
          (write_body "Bad snode test request: missing fields in json" c)
    | Ok (blk_height, msg_hash) =>
        match um_find LOKI_SENDER_SNODE_PUBKEY_HEADER (sc_header c) with
        | Some tester_pk => call (StorageTest blk_height tester_pk msg_hash) c
        | None => c
        end
    end.

(** The blockchain-test branch. *)
Definition swarm_blockchain_test (req : request_t) (c : snode_conn)
  : snode_conn :=
  let body := parse_noexcept (req_body req) in
  if is_discarded body then set_result 400 c
  else
    match (max_height <- (v <- at_ "max_height" body ;; get_uint64 v) ;;
           seed <- (v <- at_ "seed" body ;; get_uint64 v) ;;
           height <- match find "height" body with
                     | Some _ => v <- at_ "height" body ;; get_uint64 v
                     | None => Ok 0
                     end ;;
           Ok (max_height, seed, height)) with
    | Throw _ => set_result 400 c
    | Ok (max_height, seed, height) =>
        match um_find LOKI_SENDER_SNODE_PUBKEY_HEADER (sc_header c) with
        | Some tester_pk =>
            call (BlockchainTest height tester_pk max_height seed)
              (delay_response c)
        | None => c
        end
    end.

(** [connection_t::process_swarm_req] *)
Definition process_swarm_req (target : string) (req : request_t)
    (c : snode_conn) : snode_conn :=
  let '(valid, c) := validate_snode_request req c in
  if negb valid && negb (String.eqb target "/swarms/ping_test/v1") then c
  else
    let c := set_field LOKI_SNODE_SIGNATURE_HEADER get_cert_signature c in
    if String.eqb target "/swarms/push_batch/v1" then
      call (PushBatch (req_body req)) (set_result 200 c)
    else if String.eqb target "/swarms/storage_test/v1" then
      swarm_storage_test req c
    else if String.eqb target "/swarms/blockchain_test/v1" then
      swarm_blockchain_test req c
    else if String.eqb target "/swarms/ping_test/v1" then
      set_result 200 c
    else if String.eqb target "/swarms/proxy_exit" then
      match req_find req LOKI_SENDER_KEY_HEADER with
      | Some key =>
          set_response (process_proxy_exit_response key (req_body req))
            (call (ProxyExit key (req_body req)) c)
      | None => c
      end
    else c.

(** The handlers of [process_request] that are not modelled here; the first
    can throw. *)
Variable process_client_req_rate_limited : snode_conn -> result snode_conn.
Variables process_proxy_req process_onion_req_conn process_file_proxy_req
  on_get_stats on_get_logs : snode_conn -> snode_conn.

Inductive verb : Type := http_post | http_get | http_other.

(** [connection_t::process_request], on a connection that has written
    nothing yet.  [ready] and [reason] are what [snode_ready] gives. *)
Definition process_request (method : verb) (target : string)
    (req : request_t) (ready : bool) (reason : string) (c : snode_conn)
  : snode_conn :=
  let c := set_result 500 c in
  let is_swarm_req := String.prefix "/swarms/" target in
  match method with
  | http_post =>
      if String.eqb target "/swarms/ping_test/v1"
      then process_swarm_req target req c
      else if negb ready
      then write_body ("Service node is not ready: " ++ reason ++ nl)
             (set_result 503 c)
      else if String.eqb target "/storage_rpc/v1" then
        match process_client_req_rate_limited c with
        | Ok c' => c'
        | Throw e =>
            set_result 500
              (write_body
                 ("Exception caught while processing client request: "
                  ++ what e) c)
        end
      else if is_swarm_req then process_swarm_req target req c
      else if String.eqb target "/proxy" then process_proxy_req c
      else if String.eqb target "/onion_req" then process_onion_req_conn c
      else if String.eqb target "/file_proxy" then process_file_proxy_req c
      else set_result 404
             (write_body ("unknown target for POST: " ++ target) c)
  | http_get =>
      if String.eqb target "/get_stats/v1" then on_get_stats c
      else if String.eqb target "/get_logs/v1" then on_get_logs c
      else set_result 404
             (write_body ("unknown target for GET: " ++ target) c)
  | http_other => set_result 400 c
  end.

End SnodeRequests.

(** The connection when [process_request] starts. *)
Definition new_snode_conn : snode_conn :=
  mkSnodeConn 200 [] EmptyString [] false [] EmptyString [].

(** The sender of a request has passed every check of
    [validate_snode_request]: the request names it in its pubkey header, it
    is a known node, the signature in the request's signature header is its
    signature of the body, and the rate limiter lets it through. *)
Definition sender_validated
    (pubkey_header signature_header : string)
    (is_snode_address_known : string -> bool)
    (check_signature_of : string -> string -> string -> bool)
    (should_rate_limit : string -> bool)
    (req : request_t) (sender : string) : Prop :=
  req_find req pubkey_header = Some sender
  /\ is_snode_address_known (sender ++ ".snode") = true
  /\ should_rate_limit sender = false
  /\ exists signature,
       req_find req signature_header = Some signature
       /\ check_signature_of (req_body req) signature sender = true.

(** The tester that a test call names is the sender. *)
Definition names_sender (request : service_call) (sender : string) : Prop :=
  match request with
  | StorageTest _ tester_pk _ | BlockchainTest _ tester_pk _ _ =>
      tester_pk = sender
  | _ => True
  end.

(** ** Records with missing data (httpserver/swarm.cpp) *)

Section MissingData.
(** [operator bool] of the key types (declared with them): whether the key
    is set. *)
Variable key_is_set : string -> bool.

(** The condition of [count_missing_data]. *)
Definition has_missing_data (snode : sn_record_t) : bool :=
  String.eqb (ip snode) EmptyString || String.eqb (ip snode) "0.0.0.0"
  || (port snode =? 0) || (lmq_port snode =? 0)
  || negb (key_is_set (pubkey_ed25519 snode))
  || negb (key_is_set (pubkey_x25519 snode)).

(** [count_missing_data]: the pair [(missing, total)], for a roster of
    fewer than 2^31 snodes (the counters are [int]). *)
Definition count_missing_data (swarms : all_swarms_t) : Z * Z :=
  fold_left
    (fun result swarm =>
       fold_left
         (fun '(missing, total) snode =>
            let total := total + 1 in
            if has_missing_data snode then (missing + 1, total)
            else (missing, total))
         (snodes swarm) result)
    swarms (0, 0).

End MissingData.

(** ** The HTTPS client session (httpserver/https_client.cpp) *)

(** The values of [SNodeError] that this file uses. *)
Inductive SNodeError : Type := NO_ERROR | ERROR_OTHER | NO_REACH.

(** [sn_response_t]: the error code, the body (a null pointer is [None])
    and whether the raw response comes with it. *)
Record sn_response_t : Type := mkSnResponse {
  error_code : SNodeError;
  sn_body : option string;
  has_raw_response : bool
}.

(** How [async_read] ends. *)
Inductive read_outcome : Type := ReadDone | EndOfStream | ReadFailed.

(** What the network does to one session: the error codes its completion
    handlers are called with, and the response that was read. *)
Record session_script : Type := mkScript {
  connect_failed : bool;
  handshake_failed : bool;
  write_failed : bool;
  read_result : read_outcome;
  result_int : Z;
  response_body : string;
  signature_field : option string       (* [OXEN_SNODE_SIGNATURE_HEADER] *)
}.

(** The session: [used_callback_] and what has been posted to the
    [io_context] for the callback, oldest first. *)
Record client_session : Type := mkSession {
  used_callback_ : bool;
  posted : list sn_response_t
}.

Section HttpsClient.
(** [signature::from_base64] ([None]: it throws), and [check_signature] on
    the hash of a certificate: signature.h is not among the sources. *)
Variable signature_from_base64 : string -> option string.
Variable check_cert_signature : string -> string -> string -> bool.
                                   (* signature, certificate, public key *)

(** [HttpsClientSession::trigger_callback] *)
Definition trigger_callback (error : SNodeError) (body : option string)
    (raw : bool) (s : client_session) : client_session :=
  mkSession true (posted s ++ [mkSnResponse error body raw])%list.

(** [HttpsClientSession::verify_signature] *)
Definition verify_signature (server_pubkey_ : option string)
    (server_cert_ : string) (script : session_script) : bool :=
  match server_pubkey_ with
  | None => true
  | Some pubkey =>
      match signature_field script with
      | None => false
      | Some value =>
          match signature_from_base64 value with
          | None => false
          | Some sig => check_cert_signature sig server_cert_ pubkey
          end
      end
  end.

(** [HttpsClientSession::on_read] *)
Definition on_read (server_pubkey_ : option string) (server_cert_ : string)
    (script : session_script) (s : client_session) : client_session :=
  match read_result script with
  | ReadDone | EndOfStream =>
      if result_int script / 100 =? 2 then
        if match server_pubkey_ with Some _ => true | None => false end
           && negb (verify_signature server_pubkey_ server_cert_ script)
        then trigger_callback ERROR_OTHER None true s
        else trigger_callback NO_ERROR (Some (response_body script)) true s
      else trigger_callback ERROR_OTHER None true s
  | ReadFailed => trigger_callback ERROR_OTHER None true s
  end.

(** The destructor. *)
Definition destroy_session (s : client_session) : client_session :=
  if negb (used_callback_ s)
  then mkSession (used_callback_ s)
         (posted s ++ [mkSnResponse ERROR_OTHER None false])%list
  else s.

(** The life of a session from [start] to its destruction: the connect
    handler, [on_connect], [on_handshake], [on_write], [on_read]. *)
Definition run_session (server_pubkey_ : option string)
    (server_cert_ : string) (script : session_script) : client_session :=
  let s := mkSession false [] in
  destroy_session
    (if connect_failed script then trigger_callback NO_REACH None false s
     else if handshake_failed script then s
     else if write_failed script
     then trigger_callback ERROR_OTHER None false s
     else on_read server_pubkey_ server_cert_ script s).

(** [make_https_request_to_sn]: what is posted or passed to the callback.
    [resolved] says whether the resolver accepts the address. *)
Definition make_https_request_to_sn (sn : sn_record_t) (resolved : bool)
    (server_cert_ : string) (script : session_script)
  : list sn_response_t :=
  if String.eqb (ip sn) "0.0.0.0" || (port sn =? 0)
  then [mkSnResponse NO_REACH None false]
  else if negb resolved then []
  else posted (run_session (Some (pubkey_legacy sn)) server_cert_ script).

End HttpsClient.

(** ** The onion request of the older connection
       (httpserver/http_connection.cpp) *)

Section ConnectionOnion.
Context `{JsonLib}.

(** The two fields that the [try] block of [connection_t::process_onion_req]
    reads from the body. *)
Definition outer_onion_json (body : string) : result (string * string) :=
  json_req <- parse_throwing body ;;
  ciphertext <- (v <- at_ "ciphertext" json_req ;; get_string v) ;;
  ephem_key <- (v <- at_ "ephemeral_key" json_req ;; get_string v) ;;
  Ok (ciphertext, ephem_key).

(** The [on_response] of [process_onion_req]. *)
Definition onion_on_response (res : Response) (c : snode_conn)
  : snode_conn :=
  conn_write_response
    match status res with
    | OK => write_body (message res) (set_result 200 c)
    | _ => set_result 503 c
    end.

(** [RequestHandler::process_onion_req(ciphertext, ephem_key, on_response)]
    is not among the sources.  What it does before it returns is given by
    [request_handler]: the responses it calls [on_response] with, in order,
    and the exception that leaves it, if any. *)
Variable request_handler : string -> string -> list Response * option exn.

(** [connection_t::process_onion_req]: the call of the request handler is
    recorded with its two string arguments.  The call is inside the [try]
    block, so an exception of the handler is answered like a body that does
    not parse. *)
Definition conn_process_onion_req (req : request_t) (c : snode_conn)
  : snode_conn :=
  let c := delay_response c in
  let caught (e : exn) (c : snode_conn) :=
    write_body ("Error parsing outer JSON in onion request: " ++ what e)
      (set_result 400 c) in
  match outer_onion_json (req_body req) with
  | Ok (ciphertext, ephem_key) =>
      let '(responses, thrown) := request_handler ciphertext ephem_key in
      let c :=
        fold_left (fun c res => onion_on_response res c) responses
          (call (ProcessOnionReq ciphertext ephem_key) c) in
      match thrown with
      | Some e => caught e c
      | None => c
      end
  | Throw e => caught e c
  end.

(** The read handler of [read_request], when the read succeeded, around a
    [process_request] that is given as [process]. *)
Definition on_request_data (process : snode_conn -> snode_conn)
    (c : snode_conn) : snode_conn :=
  let c := process c in
  if negb (sc_delay_response c) then conn_write_response c else c.

End ConnectionOnion.

(** ** The storage test over HTTPS (httpserver/https_server.cpp) *)

Module HttpsStorageTest.

Inductive MessageTestStatus : Type := SUCCESS | WRONG_REQ | RETRY | ERROR.

(** One call of [ServiceNode::process_storage_test_req]: its status and
    answer, and the time since [started] when it is made. *)
Record attempt : Type := mkAttempt {
  test_status : MessageTestStatus;
  test_answer : string;
  test_elapsed : Z
}.



Section Task.
Context `{JsonLib}.

(** [TEST_RETRY_PERIOD] and [parse_pubkey] ([None]: the key is not valid)
    are declared in headers that are not among the sources. *)
Variable TEST_RETRY_PERIOD : Z.
Variable parse_pubkey : string -> option string.









End Task.


End HttpsStorageTest.

(** ** The exit of a proxy request (httpserver/request_handler.cpp) *)

(** What [process_proxy_exit] does with its callback: call it with a
    response, pass a wrapping callback on to [process_client_req] with a
    body, or leave by an exception of [wrap_proxy_response]. *)
Inductive proxy_exit_step : Type :=
| ProxyCb (res : Response)
| ProxyClientReq (body : string) (lp_used : bool)
| ProxyRaised (e : exn).

Section ProxyExit.
Context `{JsonLib} `{CryptoLib} `{ServiceDecls}.

(** [OXEN_LONG_POLL_HEADER] is defined in a header that is not among the
    sources. *)
Variable OXEN_LONG_POLL_HEADER : string.

(** The second [try] block of [process_proxy_exit]: [body] and [lp_used]. *)
Definition proxy_exit_fields (text : string) : result (string * bool) :=
  req <- parse_throwing text ;;
  body <- (v <- at_ "body" req ;; get_string v) ;;
  lp_used <-
    match find "headers" req with
    | None => Ok false
    | Some _ =>
        headers <- at_ "headers" req ;;
        match find OXEN_LONG_POLL_HEADER headers with
        | None => Ok false
        | Some _ =>
            v <- at_ OXEN_LONG_POLL_HEADER headers ;; get_bool v
        end
    end ;;
  Ok (body, lp_used).

(** [cb(wrap_proxy_response(res, client_key, EncryptType::aes_cbc))] *)
Definition proxy_reply (channel_cipher_ : ChannelEncryption)
    (client_key : string) (res : Response) : proxy_exit_step :=
  match wrap_proxy_response channel_cipher_ res client_key aes_cbc with
  | Ok wrapped => ProxyCb wrapped
  | Throw e => ProxyRaised e
  end.

(** [RequestHandler::process_proxy_exit] *)
Definition process_proxy_exit (ready : bool)
    (channel_cipher_ : ChannelEncryption) (client_key payload : string)
  : proxy_exit_step :=
  if negb ready
  then proxy_reply channel_cipher_ client_key
         (text_response SERVICE_UNAVAILABLE "Snode not ready")
  else
    match decrypt_cbc channel_cipher_ payload client_key with
    | Throw e =>
        proxy_reply channel_cipher_ client_key
          (text_response BAD_REQUEST ("Invalid ciphertext: " ++ what e))
    | Ok text =>
        match proxy_exit_fields text with
        | Throw e =>
            proxy_reply channel_cipher_ client_key
              (text_response BAD_REQUEST ("JSON parsing error: " ++ what e))
        | Ok (body, lp_used) => ProxyClientReq body lp_used
        end
    end.

End ProxyExit.

(** ** Stand-ins for evaluation

    Instances of the library classes on which the definitions above compute:
    a JSON serialiser and a table-driven parser for the request texts used
    below, a cipher that tags instead of encrypting, base64, and a message
    store kept as a list. *)

Module Fixtures.

Definition dq : string := String (ascii_of_nat 34) EmptyString.

Definition quoted (s : string) : string := dq ++ s ++ dq.

Definition dump_Z (z : Z) : string :=
  if z <? 0 then "-" ++ to_string_Z (- z) else to_string_Z z.

Fixpoint dump (j : json) : string :=
  match j with
  | JNull => "null"
  | JBool true => "true"
  | JBool false => "false"
  | JInt z => dump_Z z
  | JString s => quoted s
  | JArray l => "[" ++ String.concat "," (map dump l) ++ "]"
  | JObject kv =>
      "{" ++ String.concat ","
               (map (fun p => match p with
                              | (k, v) => quoted k ++ ":" ++ dump v
                              end) kv)
      ++ "}"
  | JDiscarded => "<discarded>"
  end.

(** The request values used below, and the texts that denote them. *)
Definition store_not_object : json :=
  JObject [("method", JString "store"); ("params", JInt 1)].

Definition known_texts : list json :=
  [store_not_object;
   JObject [("headers", JString EmptyString)];
   JObject [("headers", JString EmptyString); ("json", JInt 1)];
   JObject [("host", JString "example.com");
            ("target", JString "/loki/v3/lsrpc")];
   JObject [("destination", JString "ff")]].

Definition parse (s : string) : option json :=
  List.find (fun j => String.eqb (dump j) s) known_texts.

#[export] Instance json_lib : JsonLib := {
  json_parse := parse;
  json_dump := dump;
  discarded_eq_discarded := false
}.

(** Base64 (RFC 4648) with padding. *)
Definition b64_char (n : Z) : ascii :=
  ascii_of_N (Z.to_N
    (if n <? 26 then n + 65
     else if n <? 52 then n + 71
     else if n <? 62 then n - 4
     else if n =? 62 then 43 else 47)).

Fixpoint b64_bytes (l : list Z) : string :=
  match l with
  | a :: b :: c :: rest =>
      String (b64_char (a / 4))
        (String (b64_char (a mod 4 * 16 + b / 16))
           (String (b64_char (b mod 16 * 4 + c / 64))
              (String (b64_char (c mod 64)) (b64_bytes rest))))
  | [a; b] =>
      String (b64_char (a / 4))
        (String (b64_char (a mod 4 * 16 + b / 16))
           (String (b64_char (b mod 16 * 4)) "="))
  | [a] =>
      String (b64_char (a / 4)) (String (b64_char (a mod 4 * 16)) "==")
  | [] => EmptyString
  end.

Definition base64 (s : string) : string :=
  b64_bytes (map char_code (list_ascii_of_string s)).

Definition tag : string := "0123456789abcdef".

Definition untag (c : string) : option string :=
  if size c <? 16 then None
  else if String.eqb (remove_prefix (size c - 16) c) tag
       then Some (substr0 (size c - 16) c) else None.

#[export] Instance crypto_lib : CryptoLib := {
  crypto_scalarmult := fun _ _ => Some "shared";
  crypto_auth_hmacsha256 := fun key msg => key ++ msg;
  crypto_aead_aes256gcm_encrypt := fun m _ _ => m ++ tag;
  crypto_aead_aes256gcm_decrypt := fun c _ _ => untag c;
  EVP_aes_256_cbc_encrypt := fun _ _ m => EvpDone m;
  EVP_aes_256_cbc_decrypt := fun _ _ c => EvpDone c;
  crypto_generichash := String.concat EmptyString;
  crypto_aead_xchacha20poly1305_ietf_encrypt := fun m _ _ => m ++ tag;
  crypto_aead_xchacha20poly1305_ietf_decrypt := fun c _ _ => untag c;
  randombytes_buf := fun n => substr0 n "nonce-nonce-nonce-nonce-";
  to_base64 := base64;
  string_max_size := 2 ^ 62 - 1
}.

#[export] Instance service_decls : ServiceDecls := {
  Store := list message_t;
  user_pubkey_create :=
    fun s => if (String.length s =? 66)%nat then Some s else None;
  get_user_pubkey_size := 66;
  parseTTL := fun _ => Some 86400000;
  parseTimestamp := fun _ _ => Some 0;
  store_message := fun m db => (Ok true, m :: db);
  retrieve_messages := fun _ _ _ => Some [];
  sha512_hex := String.concat EmptyString;
  to_base32z := fun s => s;
  to_hex := fun s => s
}.

#[export] Instance onion_decls : OnionDecls := {
  fd_json_default := false;
  fd_base64_default := true;
  ed25519_pubkey_from_hex :=
    fun s => if (String.length s =? 64)%nat then Some s else None;
  x25519_pubkey_from_hex :=
    fun s => if (String.length s =? 64)%nat then Some s else None
}.

Definition node_keys : ChannelEncryption := mkChannel "node-sec" "node-pub".

Definition snode (name : string) : sn_record_t :=
  mkSnode "10.0.0.1" 443 22020 name name name.

(** A frame [| N | ciphertext | json |] with [N < 256]. *)
Definition frame (ciphertext : string) (j : json) : string :=
  String (ascii_of_nat (String.length ciphertext))
    (String zero (String zero (String zero (ciphertext ++ dump j)))).

(** A user pubkey: the tag [05] and 64 hex characters, the last 16 given. *)
Definition zeros16 : string := "0000000000000000".

Definition pubkey_ending (last16 : string) : user_pubkey_t :=
  "05" ++ zeros16 ++ zeros16 ++ zeros16 ++ last16.

(** Two swarms, [S0] with id 0 and [S1] with id 2^63; this node is in
    [S0]. *)
Definition S0 : SwarmInfo := mkSwarmInfo 0 [snode "us"; snode "peer0"].
Definition S1 : SwarmInfo :=
  mkSwarmInfo (2 ^ 63) [snode "peer1"; snode "peer2"].

Definition this_node : ServiceNode :=
  mkServiceNode (mkSwarm 0 (snode "us") [snode "peer0"] [S0; S1]) true.

(** A pubkey that folds to 2^63. *)
Definition far_pubkey : user_pubkey_t :=
  "05" ++ "8000000000000000" ++ zeros16 ++ zeros16 ++ zeros16.

(** A message body of 2^17 bytes, above the 100 KiB limit. *)
Fixpoint doubled (n : nat) (s : string) : string :=
  match n with
  | O => s
  | S n' => doubled n' (s ++ s)
  end.

Definition oversized_data : string := doubled 17 "a".

Definition oversized_store : json :=
  JObject [("pubKey", JString far_pubkey); ("ttl", JString "86400000");
           ("timestamp", JString "1600000000000");
           ("data", JString oversized_data)].


(** A lookup request, and a parser that knows further texts. *)
Definition lookup_request : json :=
  JObject [("method", JString "get_snodes_for_pubkey");
           ("params", JObject [("pubKey", JString far_pubkey)])].

Definition parse_also (more : list json) (s : string) : option json :=
  match parse s with
  | Some j => Some j
  | None => List.find (fun j => String.eqb (dump j) s) more
  end.

Definition json_lib_with (more : list json) : JsonLib := {|
  json_parse := parse_also more;
  json_dump := dump;
  discarded_eq_discarded := false
|}.



End Fixtures.

(* ===================================================================== *)
(** * Part II: theorems                                                   *)
(* ===================================================================== *)

(** ** Strings and results *)

Lemma length_substring (s : string) (n m : nat) :
  String.length (String.substring n m s)
  = Nat.min m (String.length s - n).
Proof.
  revert n m.
  induction s as [|c s IH]; intros n m.
  - destruct n, m; reflexivity.
  - destruct n as [|n].
    + destruct m as [|m]; [reflexivity|].
      cbn [String.substring String.length].
      rewrite IH. rewrite !Nat.sub_0_r. reflexivity.
    + cbn [String.substring String.length]. rewrite IH. reflexivity.
Qed.

Lemma size_nonneg (s : string) : 0 <= size s.
Proof. unfold size. lia. Qed.

Lemma size_substr0 (n : Z) (s : string) :
  0 <= n -> size (substr0 n s) = Z.min n (size s).
Proof.
  intros Hn. unfold size, substr0. rewrite length_substring. lia.
Qed.

Lemma size_remove_prefix (n : Z) (s : string) :
  0 <= n <= size s -> size (remove_prefix n s) = size s - n.
Proof.
  intros Hn. unfold size in *. unfold remove_prefix.
  rewrite length_substring. lia.
Qed.

Lemma bind_ok {A B : Type} (r : result A) (k : A -> result B) (b : B) :
  bind r k = Ok b -> exists a, r = Ok a /\ k a = Ok b.
Proof.
  destruct r as [a|e]; cbn; intros Hk; [eauto | discriminate].
Qed.

(** ** Channel encryption *)

Section ChannelCipherFacts.
Context `{CryptoLib}.

(** C2.  The dispatching [encrypt] and [decrypt] have no case for the
    xchacha20 tag: for every key pair, peer key and text both throw, so
    the round trip through them does not hold for that tag, although
    [encrypt_xchacha20] and [decrypt_xchacha20] are defined next to them. *)
Theorem dispatch_rejects_xchacha20
    (ce : ChannelEncryption) (text peer_pub : string) :
  encrypt ce xchacha20 text peer_pub
  = Throw (runtime_error "Invalid encryption type")
  /\ decrypt ce xchacha20 text peer_pub
     = Throw (runtime_error "Invalid decryption type").
Proof. split; reflexivity. Qed.

Lemma decrypt_gcm_output_size_eq (ciphertext : string) :
  decrypt_gcm_output_size ciphertext
  = wrap64 (size ciphertext - Z.min 12 (size ciphertext) - 16).
Proof.
  unfold decrypt_gcm_output_size,
    crypto_aead_aes256gcm_NPUBBYTES, crypto_aead_aes256gcm_ABYTES.
  pose proof (size_nonneg ciphertext) as Hs.
  rewrite size_remove_prefix; rewrite size_substr0 by lia;
    [reflexivity | lia].
Qed.

(** C10.  For a ciphertext shorter than nonce plus tag (28 bytes) the
    length [decrypt_gcm] passes to [resize], the remaining size minus the
    tag size, is negative before it is reduced to [size_t]: the value
    passed is [2^64] more, at least [2^64 - 16].  Where [max_size()] is
    below that, [decrypt_gcm] ends in [std::length_error] as soon as the
    key is derived. *)
Theorem decrypt_gcm_short_input_wraps (ciphertext : string) :
  size ciphertext < 28 ->
  decrypt_gcm_output_size ciphertext
  = 2 ^ 64 + (size ciphertext - Z.min 12 (size ciphertext) - 16)
  /\ 2 ^ 64 - 16 <= decrypt_gcm_output_size ciphertext
  /\ forall (ce : ChannelEncryption) (pubKey : string),
       string_max_size < 2 ^ 64 - 16 ->
       decrypt_gcm ce ciphertext pubKey = Throw length_error
       \/ exists e, derive_symmetric_key (private_key_ ce) pubKey = Throw e
                    /\ decrypt_gcm ce ciphertext pubKey = Throw e.
Proof.
  intros Hshort.
  pose proof (size_nonneg ciphertext) as Hs.
  assert (Hval : decrypt_gcm_output_size ciphertext
                 = 2 ^ 64
                   + (size ciphertext - Z.min 12 (size ciphertext) - 16)).
  { rewrite decrypt_gcm_output_size_eq. unfold wrap64.
    symmetry. apply Z.mod_unique with (q := -1); lia. }
  split; [exact Hval|]. split; [lia|].
  intros ce pubKey Hmax. unfold decrypt_gcm.
  destruct (derive_symmetric_key (private_key_ ce) pubKey) as [k|e].
  - left. cbn [bind]. unfold resize.
    destruct (Z.ltb_spec string_max_size
                (decrypt_gcm_output_size ciphertext)) as [_|Hge];
      [reflexivity | lia].
  - right. exists e. split; reflexivity.
Qed.

End ChannelCipherFacts.

(** The empty ciphertext: the length passed on is [2^64 - 16]. *)
Lemma decrypt_gcm_short_input_wraps_witness :
  size EmptyString < 28
  /\ decrypt_gcm_output_size EmptyString = 2 ^ 64 - 16
  /\ @decrypt_gcm Fixtures.crypto_lib Fixtures.node_keys EmptyString "peer"
     = Throw length_error.
Proof.
  pose proof (@decrypt_gcm_short_input_wraps Fixtures.crypto_lib EmptyString)
    as Hw.
  assert (Hshort : size EmptyString < 28) by (vm_compute; reflexivity).
  destruct (Hw Hshort) as [Hval _].
  split; [exact Hshort|]. split.
  - rewrite Hval. vm_compute. reflexivity.
  - vm_compute. reflexivity.
Defined.

(** *** The round trip through the two AES tags

    What the dispatch does deliver, under the laws of the primitives: the
    two sides derive the same secret, decryption undoes encryption, nonces
    and tags have their lengths, and the texts fit a string. *)

Lemma wrap64_small (z : Z) : 0 <= z < 2 ^ 64 -> wrap64 z = z.
Proof. intros Hz. unfold wrap64. apply Z.mod_small. exact Hz. Qed.

Lemma length_append (a b : string) :
  String.length (a ++ b) = (String.length a + String.length b)%nat.
Proof.
  induction a as [|c a IH]; cbn; [reflexivity | rewrite IH; reflexivity].
Qed.

Lemma substring_full (b : string) :
  String.substring 0 (String.length b) b = b.
Proof.
  induction b as [|c b IH]; cbn; [reflexivity | rewrite IH; reflexivity].
Qed.

Lemma substring_append_left (a b : string) :
  String.substring 0 (String.length a) (a ++ b) = a.
Proof.
  induction a as [|c a IH]; cbn.
  - destruct b; reflexivity.
  - rewrite IH. reflexivity.
Qed.

Lemma substring_append_right (a b : string) :
  String.substring (String.length a) (String.length b) (a ++ b) = b.
Proof.
  induction a as [|c a IH]; cbn; [apply substring_full | exact IH].
Qed.

Lemma split_prefix (n : Z) (a b : string) :
  size a = n ->
  substr0 n (a ++ b) = a /\ remove_prefix (size a) (a ++ b) = b.
Proof.
  intros Hn. unfold substr0, remove_prefix, size in *. subst n.
  rewrite !Nat2Z.id, length_append.
  replace (String.length a + String.length b - String.length a)%nat
    with (String.length b) by lia.
  split; [apply substring_append_left | apply substring_append_right].
Qed.

Section RoundTrip.
Context `{CryptoLib}.
Variables alice bob : ChannelEncryption.

Hypothesis shared_secret_agrees :
  crypto_scalarmult (private_key_ bob) (public_key_ alice)
  = crypto_scalarmult (private_key_ alice) (public_key_ bob).
Hypothesis gcm_opens : forall m n k,
  crypto_aead_aes256gcm_decrypt (crypto_aead_aes256gcm_encrypt m n k) n k
  = Some m.
Hypothesis gcm_tag_length : forall m n k,
  size (crypto_aead_aes256gcm_encrypt m n k) = size m + 16.
Hypothesis cbc_opens : forall k iv m c,
  EVP_aes_256_cbc_encrypt k iv m = EvpDone c ->
  EVP_aes_256_cbc_decrypt k iv c = EvpDone m.
Hypothesis cbc_padded_length : forall k iv m c,
  EVP_aes_256_cbc_encrypt k iv m = EvpDone c -> size c <= size m + 16.
Hypothesis nonce_length : size (randombytes_buf 12) = 12.
Hypothesis iv_length : size (randombytes_buf 16) = 16.
Hypothesis max_size_bound : string_max_size <= 2 ^ 63.

(** X14.  The round trip through the dispatch for the two AES tags: under
    the laws of the primitives, what [encrypt] of one side returns for the
    other side's public key, [decrypt] of the other side turns back into the
    text with the first side's public key. *)
Lemma aes_round_trip (type : EncryptType) (text c : string) :
  type <> xchacha20 ->
  size text <= string_max_size ->
  encrypt alice type text (public_key_ bob) = Ok c ->
  decrypt bob type c (public_key_ alice) = Ok text.
Proof.
  intros Htype Hfits Henc.
  pose proof (size_nonneg text) as Htext.
  destruct type; [ | | congruence]; cbn [encrypt decrypt] in *.
  - (* AES-GCM *)
    unfold encrypt_gcm in Henc. unfold decrypt_gcm, decrypt_gcm_output_size.
    unfold derive_symmetric_key, calculate_shared_secret in *.
    rewrite shared_secret_agrees.
    destruct (crypto_scalarmult (private_key_ alice) (public_key_ bob))
      as [secret|]; [|discriminate].
    cbn [bind] in *.
    apply bind_ok in Henc. destruct Henc as ([] & _ & Hc).
    injection Hc as <-.
    unfold crypto_aead_aes256gcm_NPUBBYTES, crypto_aead_aes256gcm_ABYTES in *.
    destruct (split_prefix 12 (randombytes_buf 12)
                (crypto_aead_aes256gcm_encrypt text (randombytes_buf 12)
                   (crypto_auth_hmacsha256 salt secret)))
      as [-> ->]; [exact nonce_length|].
    rewrite gcm_tag_length, gcm_opens.
    rewrite wrap64_small by lia.
    unfold resize.
    destruct (Z.ltb_spec string_max_size (size text + 16 - 16)); [lia|].
    reflexivity.
  - (* AES-CBC *)
    unfold encrypt_cbc in Henc. unfold decrypt_cbc.
    unfold calculate_shared_secret in *.
    rewrite shared_secret_agrees.
    destruct (crypto_scalarmult (private_key_ alice) (public_key_ bob))
      as [secret|]; [|discriminate].
    cbn [bind] in *.
    apply bind_ok in Henc. destruct Henc as ([] & Hroom & Hc).
    unfold EVP_CIPHER_iv_length, EVP_CIPHER_block_size in *.
    destruct (EVP_aes_256_cbc_encrypt secret (randombytes_buf 16) text)
      as [out| | |] eqn:Hevp; try discriminate.
    injection Hc as <-.
    destruct (split_prefix 16 (randombytes_buf 16) out)
      as [-> ->]; [exact iv_length|].
    pose proof (cbc_padded_length _ _ _ _ Hevp) as Hout.
    pose proof (size_nonneg out) as Hout0.
    unfold resize in *.
    rewrite wrap64_small in Hroom by lia.
    rewrite wrap64_small by lia.
    destruct (Z.ltb_spec string_max_size (16 + size text + 16));
      [discriminate|].
    destruct (Z.ltb_spec string_max_size (size out + 16)); [lia|].
    cbn [bind]. rewrite (cbc_opens _ _ _ _ Hevp). reflexivity.
Qed.

End RoundTrip.

Lemma untag_tagged (m : string) : Fixtures.untag (m ++ Fixtures.tag) = Some m.
Proof.
  unfold Fixtures.untag.
  assert (Hsize : size (m ++ Fixtures.tag) - 16 = size m).
  { unfold size. rewrite length_append. cbn. lia. }
  rewrite Hsize.
  destruct (split_prefix (size m) m Fixtures.tag eq_refl) as [-> ->].
  pose proof (size_nonneg m).
  destruct (Z.ltb_spec (size (m ++ Fixtures.tag)) 16); [lia|].
  reflexivity.
Qed.

(** The stand-ins satisfy these laws: [hello] goes from a client to the node
    and back under both AES tags, and the AES-GCM ciphertext has
    12 + 5 + 16 bytes. *)
Lemma aes_round_trip_witness :
  let client := mkChannel "client-sec" "client-pub" in
  let node := Fixtures.node_keys in
  let gcm := "nonce-nonce-hello0123456789abcdef" in
  let cbc := "nonce-nonce-nonchello" in
  @encrypt Fixtures.crypto_lib client aes_gcm "hello" (public_key_ node)
  = Ok gcm
  /\ @decrypt Fixtures.crypto_lib node aes_gcm gcm (public_key_ client)
     = Ok "hello"
  /\ @encrypt Fixtures.crypto_lib client aes_cbc "hello" (public_key_ node)
     = Ok cbc
  /\ @decrypt Fixtures.crypto_lib node aes_cbc cbc (public_key_ client)
     = Ok "hello"
  /\ size gcm = 33.
Proof.
  intros client node gcm cbc.
  assert (Hgcm : @encrypt Fixtures.crypto_lib client aes_gcm "hello"
                    (public_key_ node) = Ok gcm) by (vm_compute; reflexivity).
  assert (Hcbc : @encrypt Fixtures.crypto_lib client aes_cbc "hello"
                    (public_key_ node) = Ok cbc) by (vm_compute; reflexivity).
  assert (Hlaws : forall type c, type <> xchacha20 ->
            @encrypt Fixtures.crypto_lib client type "hello"
              (public_key_ node) = Ok c ->
            @decrypt Fixtures.crypto_lib node type c (public_key_ client)
            = Ok "hello").
  { intros type c Htype Henc.
    apply (@aes_round_trip Fixtures.crypto_lib client node); try assumption;
      try reflexivity.
    - intros m n k. apply untag_tagged.
    - intros m n k. unfold size. cbn. rewrite length_append. cbn. lia.
    - intros k iv m c' [= <-]. reflexivity.
    - intros k iv m c' [= <-]. lia.
    - vm_compute. discriminate.
    - vm_compute. discriminate. }
  split; [exact Hgcm|]. split; [apply Hlaws; [discriminate | exact Hgcm]|].
  split; [exact Hcbc|]. split; [apply Hlaws; [discriminate | exact Hcbc]|].
  reflexivity.
Defined.

(** ** Wrapping the response of a terminal hop *)

Section WrapFacts.
Context `{JsonLib} `{CryptoLib}.

(** C1.  [wrap_proxy_response] calls [encrypt] on the serialised
    [{status, body}] and drops what it returns: whenever it returns, the
    response is 200 with the base64 of the empty string as body, whatever
    the wrapped response, key and encryption type; otherwise the exception
    of [encrypt] leaves it.  The body is not the base64 of the
    ciphertext. *)
Theorem wrap_proxy_response_drops_ciphertext
    (ce : ChannelEncryption) (res : Response) (client_key : string)
    (enc_type : EncryptType) :
  match encrypt ce enc_type (json_dump (status_body_json res)) client_key
  with
  | Ok ciphertext =>
      wrap_proxy_response ce res client_key enc_type
      = Ok (mkResponse OK (to_base64 EmptyString) json_content)
  | Throw e => wrap_proxy_response ce res client_key enc_type = Throw e
  end.
Proof.
  unfold wrap_proxy_response, status_body_json.
  destruct (encrypt ce enc_type _ client_key); reflexivity.
Qed.

End WrapFacts.

(** On the stand-ins: a 200 response with body [ok] is wrapped under AES-GCM
    into a response with an empty body, while the ciphertext of its
    [{status, body}] has 12 + 26 + 16 bytes. *)
Lemma wrap_proxy_response_example :
  let res := mkResponse OK "ok" json_content in
  @wrap_proxy_response Fixtures.json_lib Fixtures.crypto_lib
    Fixtures.node_keys res "client" aes_gcm
  = Ok (mkResponse OK EmptyString json_content)
  /\ (exists c,
        @encrypt Fixtures.crypto_lib Fixtures.node_keys aes_gcm
          (Fixtures.dump (status_body_json res)) "client" = Ok c
        /\ size c = 54).
Proof.
  split; [vm_compute; reflexivity|].
  eexists. split; vm_compute; reflexivity.
Qed.

(** ** Swarm events *)

Lemma find_none_existsb {A : Type} (f : A -> bool) (l : list A) :
  List.find f l = None -> existsb f l = false.
Proof.
  induction l as [|x l IH]; cbn; [reflexivity|].
  destruct (f x); [discriminate | exact IH].
Qed.

Lemma find_some_existsb {A : Type} (f : A -> bool) (l : list A) (x : A) :
  List.find f l = Some x -> existsb f l = true /\ In x l /\ f x = true.
Proof.
  intros Hf. destruct (find_some _ _ Hf) as [Hin Hx].
  split; [|split; assumption].
  apply existsb_exists. exists x. split; assumption.
Qed.

(** C7, as amended.  [dissolved] is set exactly when this node is listed in
    a swarm of the new roster, the swarm id held before is not the INVALID
    sentinel, and that id is absent from the roster's swarm ids. *)
Theorem dissolved_iff (this : Swarm) (swarms : all_swarms_t) :
  dissolved (derive_swarm_events this swarms) = true
  <-> in_some_swarm this swarms = true
      /\ cur_swarm_id_ this <> INVALID_SWARM_ID
      /\ swarm_exists swarms (cur_swarm_id_ this) = false.
Proof.
  unfold derive_swarm_events, in_some_swarm.
  destruct (List.find _ swarms) as [our|] eqn:Hfind.
  - destruct (find_some_existsb _ _ _ Hfind) as (Hex & Hin & _).
    rewrite Hex.
    destruct (Z.eqb_spec (cur_swarm_id_ this) INVALID_SWARM_ID) as [Hinv|Hinv].
    + cbn. split; [discriminate|]. intros (_ & Hne & _). contradiction.
    + destruct (Z.eqb_spec (cur_swarm_id_ this) (swarm_id our)) as [Hsame|Hmoved];
        cbn [negb dissolved].
      * split; [discriminate|]. intros (_ & _ & Habsent).
        assert (Hpresent : swarm_exists swarms (cur_swarm_id_ this) = true).
        { apply existsb_exists. exists our. split; [exact Hin|].
          apply Z.eqb_eq. symmetry. exact Hsame. }
        congruence.
      * rewrite negb_true_iff. tauto.
  - rewrite (find_none_existsb _ _ Hfind). cbn.
    split; [discriminate|]. intros (Hf & _). discriminate.
Qed.

(** C7 as stated fails: a node that held swarm 5 and is in no swarm of an
    empty roster gets [dissolved = false], though 5 is not among the
    roster's swarm ids. *)
Lemma dissolved_not_iff_absent :
  let this := mkSwarm 5 (Fixtures.snode "us") [] [] in
  ~ (dissolved (derive_swarm_events this []) = true
     <-> swarm_exists [] (cur_swarm_id_ this) = false).
Proof.
  cbn. intros [_ Hback]. specialize (Hback eq_refl). discriminate.
Qed.

(** ** Storage test *)

Section StorageTestFacts.
Context `{JsonLib}.

Lemma on_timer_pending (a : attempt) (c : connection_t) :
  lookup_status a <> SUCCESS -> pending c -> pending (on_timer a c).
Proof.
  intros Hns [Hdelay Hnone].
  unfold on_timer, process_storage_test_req, put_body.
  destruct (lookup_status a); [congruence | | ].
  - split; cbn; assumption.
  - destruct (elapsed_ms a <? 60000); split; cbn;
      first [assumption | reflexivity].
Qed.

Lemma run_timers_pending (later : list attempt) (c : connection_t) :
  Forall (fun a => lookup_status a <> SUCCESS) later ->
  pending c -> pending (run_timers later c).
Proof.
  intros Hall. revert c.
  induction Hall as [|a later Ha _ IH]; intros c Hc; cbn; [exact Hc|].
  destruct (repeat_timer_ c); [|exact Hc].
  apply IH. apply on_timer_pending; assumption.
Qed.

(** C8.  After a first RETRY the response is delayed, and then only the
    SUCCESS branch calls [write_response]: in a run whose first lookup
    yields RETRY within the minute and whose later lookups never yield
    SUCCESS, no response is written at all, also when a later lookup
    yields WRONG_REQ or the minute has passed. *)
Theorem storage_test_writes_nothing
    (first : attempt) (later : list attempt) :
  lookup_status first = RETRY ->
  elapsed_ms first < 60000 ->
  Forall (fun a => lookup_status a <> SUCCESS) later ->
  responses_written (storage_test first later) = [].
Proof.
  intros Hretry Hearly Hall. unfold storage_test.
  apply run_timers_pending; [exact Hall|].
  unfold on_data, process_storage_test_req. rewrite Hretry.
  destruct (Z.ltb_spec (elapsed_ms first) 60000) as [_|Hlate]; [|lia].
  cbn. split; reflexivity.
Qed.

End StorageTestFacts.

(** On the stand-ins: RETRY at 0 ms and WRONG_REQ at 50 ms; RETRY every
    20 s up to the minute.  Both runs set the status and the body and write
    no response. *)
Lemma storage_test_writes_nothing_witness :
  let wrong := [mkAttempt WRONG_REQ EmptyString 50] in
  let timeout := [mkAttempt RETRY EmptyString 20000;
                  mkAttempt RETRY EmptyString 40000;
                  mkAttempt RETRY EmptyString 60000] in
  let first := mkAttempt RETRY EmptyString 0 in
  let run1 := @storage_test Fixtures.json_lib first wrong in
  let run2 := @storage_test Fixtures.json_lib first timeout in
  responses_written run1 = []
  /\ responses_written run2 = []
  /\ response_result run2 = 200
  /\ body_stream_ run2
     = Fixtures.dump (JObject [("status", JString "other")])
  /\ timer_waits run2 = [50; 50; 50].
Proof.
  cbv zeta. split; [|split; [|repeat split; vm_compute; reflexivity]].
  - apply (@storage_test_writes_nothing Fixtures.json_lib);
      [reflexivity | reflexivity | ].
    repeat constructor; discriminate.
  - apply (@storage_test_writes_nothing Fixtures.json_lib);
      [reflexivity | reflexivity | ].
    repeat constructor; discriminate.
Defined.

(** ** Client requests *)

Section ClientRequestFacts.
Context `{JsonLib} `{ServiceDecls}.

Lemma process_store_not_object (sn : ServiceNode) (p : json) (db : Store) :
  is_object p = false ->
  process_store sn p db
  = Ok (text_response BAD_REQUEST
          ("invalid json: no `pubKey` field" ++ nl), db).
Proof.
  intros Hp. destruct p; try discriminate; reflexivity.
Qed.

(** C9.  A request [{method: store, params: p}] whose [params] is not an
    object gets the callback twice: the 400 for the missing [params]
    field is not followed by a return, and the store handler answers 400
    once more. *)
Theorem process_client_req_replies_twice
    (sn : ServiceNode) (db : Store) (req_json : string) (p : json) :
  json_parse req_json
  = Some (JObject [("method", JString "store"); ("params", p)]) ->
  is_object p = false ->
  events (process_client_req sn req_json db)
  = [bad_request ("invalid json: no `params` field" ++ nl);
     bad_request ("invalid json: no `pubKey` field" ++ nl)]
  /\ cb_calls (process_client_req sn req_json db) = 2%nat.
Proof.
  intros Hparse Hp.
  assert (Hev : events (process_client_req sn req_json db)
                = [bad_request ("invalid json: no `params` field" ++ nl);
                   bad_request ("invalid json: no `pubKey` field" ++ nl)]).
  { unfold process_client_req, parse_noexcept. rewrite Hparse.
    cbn. rewrite Hp. cbn. rewrite (process_store_not_object sn p db Hp).
    reflexivity. }
  split; [exact Hev|]. unfold cb_calls. rewrite Hev. reflexivity.
Qed.

(** Input that is not JSON: the reply for the missing [method] field is not
    followed by a return either, and the [end()] iterator of the discarded
    value is dereferenced, which throws.  The callback has been invoked once
    or twice by then, depending on how the library compares discarded
    values. *)
Lemma process_client_req_invalid_json
    (sn : ServiceNode) (db : Store) (req_json : string) :
  json_parse req_json = None ->
  finish (process_client_req sn req_json db) = Threw json_invalid_iterator
  /\ cb_calls (process_client_req sn req_json db)
     = if discarded_eq_discarded then 2%nat else 1%nat.
Proof.
  intros Hparse. unfold process_client_req, parse_noexcept. rewrite Hparse.
  cbn. destruct discarded_eq_discarded; split; reflexivity.
Qed.

(** C3.  [process_oxend_request] never forwards.  The allow-list is a set
    of [const char*] built from two literals, and it is probed with
    [endpoint_str.c_str()], a pointer into the string's own buffer, which is
    in no such set: every request with a string endpoint is answered 400
    "Endpoint not allowed", also for the two names of the list and with
    [oxend_params] present. *)
Theorem process_oxend_request_never_forwards (params : json) :
  is_forwarded (process_oxend_request params) = false
  /\ forall endpoint,
       find "endpoint" params = Some (JString endpoint) ->
       process_oxend_request params
       = Replied (text_response BAD_REQUEST
                    ("Endpoint not allowed: " ++ endpoint)).
Proof.
  unfold process_oxend_request.
  assert (Hcount : forall endpoint_str,
            set_count allowed_endpoints (c_str endpoint_str) = false)
    by reflexivity.
  split.
  - destruct (find "endpoint" params) as [[| | |endpoint_str| | |]|];
      try reflexivity.
  - intros endpoint ->. rewrite Hcount. reflexivity.
Qed.

End ClientRequestFacts.

(** On the stand-ins: the request text of [{method: store, params: 1}]. *)
Lemma process_client_req_replies_twice_witness :
  let req_json := Fixtures.dump Fixtures.store_not_object in
  cb_calls
    (@process_client_req Fixtures.json_lib Fixtures.service_decls
       Fixtures.this_node req_json [])
  = 2%nat.
Proof.
  cbv zeta.
  apply (@process_client_req_replies_twice Fixtures.json_lib
           Fixtures.service_decls Fixtures.this_node []
           (Fixtures.dump Fixtures.store_not_object) (JInt 1));
    vm_compute; reflexivity.
Defined.

(** An endpoint of the list, with [oxend_params]: not forwarded. *)
Lemma process_oxend_request_never_forwards_witness :
  let params :=
    JObject [("endpoint", JString "get_service_nodes");
             ("oxend_params", JObject [])] in
  allowed_name "get_service_nodes" = true
  /\ is_forwarded (@process_oxend_request Fixtures.json_lib params) = false
  /\ @process_oxend_request Fixtures.json_lib params
     = Replied (text_response BAD_REQUEST
                  "Endpoint not allowed: get_service_nodes").
Proof.
  intro params. split; [reflexivity|].
  destruct (@process_oxend_request_never_forwards Fixtures.json_lib params)
    as [Hnever Hanswer].
  split; [exact Hnever|].
  apply (Hanswer "get_service_nodes"). reflexivity.
Defined.

(** ** Requests for a pubkey of another swarm *)

Section WrongSwarmFacts.
Context `{JsonLib} `{ServiceDecls}.

Lemma find_at (key : string) (params v : json) :
  find key params = Some v ->
  at_ key params = Ok v /\ contains key params = true.
Proof.
  unfold contains, count. intros Hf. rewrite Hf. split; [|reflexivity].
  destruct params; try discriminate. cbn in *. rewrite Hf. reflexivity.
Qed.

Lemma find_string_at (key : string) (params : json) (s : string) :
  find key params = Some (JString s) -> string_at key params = Ok s.
Proof.
  intros Hf. unfold string_at.
  destruct (find_at _ _ _ Hf) as [-> _]. reflexivity.
Qed.

(** C6, as amended.  For a pubkey that parses and maps to a swarm other
    than ours: a store request whose [ttl], [timestamp] and [data] are
    strings, with [data] of at most 102400 bytes, and a retrieve request
    that has a [lastHash], are answered 421 with the serialised
    [{snodes: ...}] of exactly the members of the pubkey's swarm, and the
    message store is left as it was. *)
Theorem wrong_swarm_misdirected
    (sn : ServiceNode) (db : Store) (params : json)
    (pk_str : string) (pk : user_pubkey_t) :
  find "pubKey" params = Some (JString pk_str) ->
  user_pubkey_create pk_str = Some pk ->
  sn_is_pubkey_for_us sn pk = false ->
  let all_swarms := all_valid_swarms_ (swarm_ sn) in
  let S := swarm_members all_swarms (get_swarm_by_pk all_swarms pk) in
  let misdirected :=
    mkResponse MISDIRECTED_REQUEST
      (json_dump (JObject [("snodes", JArray (map snode_to_json S))]))
      json_content in
  (forall ttl timestamp data : string,
      find "ttl" params = Some (JString ttl) ->
      find "timestamp" params = Some (JString timestamp) ->
      find "data" params = Some (JString data) ->
      size data <= MAX_MESSAGE_BODY ->
      process_store sn params db = Ok (misdirected, db))
  /\ (contains "lastHash" params = true ->
      process_retrieve sn params db = Ok (misdirected, db)).
Proof.
  intros Hpk Hcreate Hwrong all_swarms S misdirected.
  destruct (find_at _ _ _ Hpk) as [_ Hhas_pk].
  pose proof (find_string_at _ _ _ Hpk) as Hpk_str.
  split.
  - intros ttl timestamp data Httl Hts Hdata Hsize.
    destruct (find_at _ _ _ Httl) as [_ Hhas_ttl].
    destruct (find_at _ _ _ Hts) as [_ Hhas_ts].
    destruct (find_at _ _ _ Hdata) as [_ Hhas_data].
    unfold process_store. cbn [first_missing].
    rewrite Hhas_pk, Hhas_ttl, Hhas_ts, Hhas_data.
    rewrite (find_string_at _ _ _ Httl), (find_string_at _ _ _ Hts),
      (find_string_at _ _ _ Hdata), Hpk_str.
    cbn [bind]. rewrite Hcreate.
    destruct (Z.gtb_spec (size data) MAX_MESSAGE_BODY) as [Hbig|_]; [lia|].
    rewrite Hwrong. reflexivity.
  - intros Hlast. unfold process_retrieve. cbn [first_missing].
    rewrite Hhas_pk, Hlast, Hpk_str. cbn [bind].
    rewrite Hcreate, Hwrong. reflexivity.
Qed.

End WrongSwarmFacts.

(** On the stand-ins (the scenario of two swarms with ids 0 and 2^63, this
    node in the first, a pubkey that folds to 2^63): store and retrieve are
    answered 421 with the two members of the second swarm. *)
Lemma wrong_swarm_misdirected_witness :
  let store :=
    JObject [("pubKey", JString Fixtures.far_pubkey);
             ("ttl", JString "86400000");
             ("timestamp", JString "1600000000000");
             ("data", JString "aGVsbG8=")] in
  let retrieve :=
    JObject [("pubKey", JString Fixtures.far_pubkey);
             ("lastHash", JString EmptyString)] in
  let misdirected :=
    mkResponse MISDIRECTED_REQUEST
      (Fixtures.dump
         (JObject [("snodes",
                    JArray (map (@snode_to_json Fixtures.service_decls)
                              (snodes Fixtures.S1)))]))
      json_content in
  @process_store Fixtures.json_lib Fixtures.service_decls
    Fixtures.this_node store [] = Ok (misdirected, [])
  /\ @process_retrieve Fixtures.json_lib Fixtures.service_decls
       Fixtures.this_node retrieve [] = Ok (misdirected, []).
Proof.
  cbv zeta. split.
  - apply (proj1 (@wrong_swarm_misdirected Fixtures.json_lib
                    Fixtures.service_decls Fixtures.this_node []
                    (JObject [("pubKey", JString Fixtures.far_pubkey);
                              ("ttl", JString "86400000");
                              ("timestamp", JString "1600000000000");
                              ("data", JString "aGVsbG8=")])
                    Fixtures.far_pubkey Fixtures.far_pubkey
                    eq_refl eq_refl eq_refl)
             "86400000" "1600000000000" "aGVsbG8=");
      try reflexivity.
    vm_compute. discriminate.
  - apply (proj2 (@wrong_swarm_misdirected Fixtures.json_lib
                    Fixtures.service_decls Fixtures.this_node []
                    (JObject [("pubKey", JString Fixtures.far_pubkey);
                              ("lastHash", JString EmptyString)])
                    Fixtures.far_pubkey Fixtures.far_pubkey
                    eq_refl eq_refl eq_refl)).
    reflexivity.
Defined.

(** C6 as stated fails: a store request for a pubkey of the other swarm
    whose [data] has 2^17 bytes is answered 400, not 421: the length of
    [data] is checked before the swarm. *)
Lemma oversized_store_not_misdirected :
  @user_pubkey_create Fixtures.service_decls Fixtures.far_pubkey
  = Some Fixtures.far_pubkey
  /\ @sn_is_pubkey_for_us Fixtures.this_node Fixtures.far_pubkey = false
  /\ exists r,
       @process_store Fixtures.json_lib Fixtures.service_decls
         Fixtures.this_node Fixtures.oversized_store [] = Ok (r, [])
       /\ status r = BAD_REQUEST
       /\ status r <> MISDIRECTED_REQUEST.
Proof.
  split; [reflexivity|]. split; [vm_compute; reflexivity|].
  eexists. split; [vm_compute; reflexivity|].
  split; [reflexivity | discriminate].
Qed.

(** ** Classification of a peeled onion layer *)

Section OnionFacts.
Context `{JsonLib} `{OnionDecls}.

Ltac settle := cbn; repeat split; reflexivity.

(** C5, as amended.  For a plaintext that parses as a combined payload with
    inner JSON [j], [process_inner_request] returns
    - FinalDestination exactly when [headers] is present and [json] and
      [base64], where present, are booleans;
    - RelayToServer exactly when [headers] is absent, [host] is present and
      the server fields are well formed;
    - RelayToNode exactly when [headers] and [host] are absent and
      [destination], [ephemeral_key] and [enc_type] are well formed;
    - the InvalidJson error in every other case. *)
Theorem process_inner_request_classifies
    (plaintext ciphertext : string) (j : json) :
  parse_combined_payload plaintext = Ok (ciphertext, j) ->
  let r := process_inner_request plaintext in
  is_final r = count "headers" j && final_fields_ok j
  /\ is_relay_to_server r
     = negb (count "headers" j) && count "host" j && server_fields_ok j
  /\ is_relay_to_node r
     = negb (count "headers" j) && negb (count "host" j) && node_fields_ok j
  /\ is_invalid_json r
     = negb (is_final r || is_relay_to_server r || is_relay_to_node r).
Proof.
  intros Hparse r. subst r.
  unfold process_inner_request, classify_inner. rewrite Hparse. cbn [bind].
  unfold final_fields_ok, bool_or_absent, server_fields_ok, node_fields_ok,
    optional_field.
  unfold count, at_.
  destruct j as [| | | | |kv|]; try settle.
  cbn [find].
  destruct (assoc "headers" kv) as [hd|].
  - (* terminal hop *)
    destruct (assoc "json" kv) as [[]|]; try settle;
      destruct (assoc "base64" kv) as [[]|]; settle.
  - destruct (assoc "host" kv) as [host|].
    + (* relay to a server *)
      destruct host; try settle.
      destruct (assoc "target" kv) as [[]|]; try settle;
        destruct (assoc "port" kv) as [[]|]; try settle;
        destruct (assoc "protocol" kv) as [[]|]; settle.
    + (* relay to a node *)
      destruct (assoc "destination" kv) as [[| | |d| | |]|]; try settle.
      unfold from_hex. cbn [bind get_string].
      destruct (ed25519_pubkey_from_hex d);
        destruct (assoc "ephemeral_key" kv) as [[| | |e| | |]|]; try settle.
      cbn [bind get_string].
      destruct (x25519_pubkey_from_hex e); [|settle].
      cbn [bind].
      destruct (assoc "enc_type" kv) as [[| | |t| | |]|]; try settle.
      unfold parse_enc_type. cbn [get_string bind is_some andb].
      destruct (String.eqb t "aes-gcm"), (String.eqb t "gcm"),
        (String.eqb t "aes-cbc"), (String.eqb t "cbc"); settle.
Qed.

End OnionFacts.

(** On the stand-ins: the frame of ciphertext [X] and inner JSON
    [{headers: (empty)}] is a FinalDestination with the default flags. *)
Lemma process_inner_request_classifies_witness :
  let j := JObject [("headers", JString EmptyString)] in
  let r := @process_inner_request Fixtures.json_lib Fixtures.onion_decls
             (Fixtures.frame "X" j) in
  is_final r = true /\ r = FinalDestination (mkFinal "X" false true).
Proof.
  cbv zeta.
  destruct (@process_inner_request_classifies Fixtures.json_lib
              Fixtures.onion_decls
              (Fixtures.frame "X" (JObject [("headers", JString EmptyString)]))
              "X" (JObject [("headers", JString EmptyString)]))
    as (Hfinal & _).
  - vm_compute. reflexivity.
  - split; [rewrite Hfinal; reflexivity | vm_compute; reflexivity].
Defined.

(** C5 as stated fails: an inner JSON with [headers] and a [json] field that
    is a number is not a FinalDestination, and one with a [destination] and
    no [ephemeral_key] is not a RelayToNode; both are InvalidJson. *)
Lemma present_key_not_enough :
  let j1 := JObject [("headers", JString EmptyString); ("json", JInt 1)] in
  let j2 := JObject [("destination", JString "ff")] in
  let classify := @process_inner_request Fixtures.json_lib
                    Fixtures.onion_decls in
  let parse := @parse_combined_payload Fixtures.json_lib in
  parse (Fixtures.frame "X" j1) = Ok ("X", j1)
  /\ ~ (is_final (classify (Fixtures.frame "X" j1)) = true
        <-> count "headers" j1 = true)
  /\ parse (Fixtures.frame "X" j2) = Ok ("X", j2)
  /\ classify (Fixtures.frame "X" j2) = ParseError INVALID_JSON
  /\ count "headers" j2 = false /\ count "host" j2 = false
  /\ count "destination" j2 = true.
Proof.
  cbv zeta. split; [vm_compute; reflexivity|]. split.
  - intros [_ Hback]. specialize (Hback eq_refl).
    vm_compute in Hback. discriminate.
  - repeat split; vm_compute; reflexivity.
Qed.

(** ** Pubkey to swarm *)

Lemma hex_digit_range (c : ascii) (d : Z) :
  hex_digit c = Some d -> 0 <= d <= 15.
Proof.
  unfold hex_digit.
  destruct (Z.leb_spec 48 (char_code c)), (Z.leb_spec (char_code c) 57);
    cbn [andb]; try (intros [= <-]; lia);
    destruct (Z.leb_spec 97 (char_code c)), (Z.leb_spec (char_code c) 102);
    cbn [andb]; try (intros [= <-]; lia);
    destruct (Z.leb_spec 65 (char_code c)), (Z.leb_spec (char_code c) 70);
    cbn [andb]; try (intros [= <-]; lia); discriminate.
Qed.

Lemma hex_digits_bound (s : string) (acc : Z) :
  0 <= acc ->
  0 <= hex_digits acc s
  <= 16 ^ Z.of_nat (String.length s) * (acc + 1) - 1.
Proof.
  revert acc. induction s as [|c s IH]; intros acc Hacc.
  - cbn [hex_digits String.length]. change (Z.of_nat 0) with 0.
    rewrite Z.pow_0_r. lia.
  - cbn [hex_digits String.length].
    rewrite Nat2Z.inj_succ, Z.pow_succ_r by lia.
    assert (Hpow : 0 < 16 ^ Z.of_nat (String.length s))
      by (apply Z.pow_pos_nonneg; lia).
    destruct (hex_digit c) as [d|] eqn:Hd.
    + pose proof (hex_digit_range _ _ Hd) as Hrange.
      specialize (IH (16 * acc + d) ltac:(lia)).
      assert (16 ^ Z.of_nat (String.length s) * (d + 1)
              <= 16 ^ Z.of_nat (String.length s) * 16)
        by (apply Z.mul_le_mono_nonneg_l; lia).
      lia.
    + assert (1 * (acc + 1) <= 16 ^ Z.of_nat (String.length s) * (acc + 1))
        by (apply Z.mul_le_mono_nonneg_r; lia).
      lia.
Qed.

Lemma skip_space_length (s : string) :
  (String.length (skip_space s) <= String.length s)%nat.
Proof.
  induction s as [|c s IH]; cbn; [lia|].
  destruct (isspace c); cbn; lia.
Qed.

Lemma hex_digits_16 (s : string) :
  (String.length s <= 16)%nat -> 0 <= hex_digits 0 s < 2 ^ 64.
Proof.
  intros Hlen. pose proof (hex_digits_bound s 0 ltac:(lia)) as Hb.
  assert (16 ^ Z.of_nat (String.length s) <= 16 ^ 16)
    by (apply Z.pow_le_mono_r; lia).
  change (16 ^ 16) with (2 ^ 64) in *. lia.
Qed.

Lemma strtoull16_range (buf : string) :
  (String.length buf <= 16)%nat -> 0 <= strtoull16 buf < 2 ^ 64.
Proof.
  intros Hlen. unfold strtoull16.
  pose proof (skip_space_length buf) as Hskip.
  set (s := skip_space buf) in *.
  assert (Hsigned : forall neg rest,
             (String.length rest <= 16)%nat ->
             0 <= (let s' :=
                     match rest with
                     | String "0"%char (String x (String d rest')) =>
                         if (Ascii.eqb x "x"%char || Ascii.eqb x "X"%char)
                            && match hex_digit d with
                               | Some _ => true
                               | None => false
                               end
                         then String d rest' else rest
                     | _ => rest
                     end in
                   let v := hex_digits 0 s' in
                   if neg : bool then wrap64 (- v) else v) < 2 ^ 64).
  { intros neg rest Hrest. cbv zeta.
    match goal with
    | |- context [hex_digits 0 ?t] =>
        assert (Ht : (String.length t <= 16)%nat)
    end.
    { destruct rest as [|a [|x [|d rest']]];
        try (destruct a as [[] [] [] [] [] [] [] []]); cbn in *; try lia.
      match goal with
      | |- context [if ?c then _ else _] => destruct c
      end; cbn; lia. }
    destruct neg; [apply Z.mod_pos_bound; lia | apply hex_digits_16; exact Ht]. }
  destruct s as [|c rest].
  - apply (Hsigned false EmptyString). cbn. lia.
  - cbn in Hskip.
    destruct (Ascii.eqb c "-"%char) eqn:Hminus.
    + apply Ascii.eqb_eq in Hminus. subst c.
      apply (Hsigned true rest). lia.
    + destruct (Ascii.eqb c "+"%char) eqn:Hplus.
      * apply Ascii.eqb_eq in Hplus. subst c.
        apply (Hsigned false rest). lia.
      * assert (Hplain : (String.length (String c rest) <= 16)%nat)
          by (cbn; lia).
        pose proof (Hsigned false (String c rest) Hplain) as Hp.
        destruct c as [[] [] [] [] [] [] [] []];
          try discriminate Hminus; try discriminate Hplus; exact Hp.
Qed.

Lemma lxor_u64 (a b : Z) :
  0 <= a < 2 ^ 64 -> 0 <= b < 2 ^ 64 -> 0 <= Z.lxor a b < 2 ^ 64.
Proof.
  intros Ha Hb.
  assert (Hnn : 0 <= Z.lxor a b) by (apply Z.lxor_nonneg; lia).
  split; [exact Hnn|].
  destruct (Z.eq_dec (Z.lxor a b) 0) as [->|Hnz]; [lia|].
  apply Z.log2_lt_pow2; [lia|].
  pose proof (Z.log2_lxor a b ltac:(lia) ltac:(lia)) as Hlog.
  assert (Hla : Z.log2 a < 64).
  { destruct (Z.eq_dec a 0) as [->|]; [cbn; lia|].
    apply Z.log2_lt_pow2; lia. }
  assert (Hlb : Z.log2 b < 64).
  { destruct (Z.eq_dec b 0) as [->|]; [cbn; lia|].
    apply Z.log2_lt_pow2; lia. }
  lia.
Qed.

Lemma xor_chunks_range (fuel : nat) (rest : string) (res : Z) :
  0 <= res < 2 ^ 64 -> 0 <= xor_chunks fuel rest res < 2 ^ 64.
Proof.
  revert rest res. induction fuel as [|fuel IH]; intros rest res Hres;
    cbn [xor_chunks]; [exact Hres|].
  destruct rest as [|c rest]; [exact Hres|].
  apply IH. apply lxor_u64; [exact Hres|].
  apply strtoull16_range. unfold substr0. rewrite length_substring.
  change (Z.to_nat 16) with 16%nat. lia.
Qed.

Lemma hex_to_u64_range (pk : user_pubkey_t) : 0 <= hex_to_u64 pk < 2 ^ 64.
Proof. unfold hex_to_u64. apply xor_chunks_range. lia. Qed.

(** *** The loop of [get_swarm_by_pk] *)

Lemma valid_ids_app (l : all_swarms_t) (si : SwarmInfo) :
  valid_ids (l ++ [si])%list
  = (valid_ids l
     ++ if swarm_id si =? INVALID_SWARM_ID then [] else [swarm_id si])%list.
Proof.
  unfold valid_ids. rewrite map_app, filter_app. cbn [map filter].
  destruct (swarm_id si =? INVALID_SWARM_ID); reflexivity.
Qed.

Lemma scan_step_inv (res : Z) (seen : list Z) (st : scan) (si : SwarmInfo) :
  0 <= res <= MAX_ID ->
  0 <= swarm_id si <= MAX_ID ->
  scan_inv res seen st ->
  scan_inv res (seen ++ [swarm_id si])%list (scan_step res st si).
Proof.
  intros Hres Hid Hinv. unfold scan_step.
  assert (Hmax : MAX_ID = 2 ^ 64 - 2) by reflexivity.
  assert (Hinvalid : INVALID_SWARM_ID = 2 ^ 64 - 1) by reflexivity.
  destruct (Z.eqb_spec (swarm_id si) INVALID_SWARM_ID) as [Heq|_]; [lia|].
  set (x := swarm_id si) in *.
  assert (Hdist : (if x >? res then x - res else res - x) = direct_dist res x).
  { unfold direct_dist. destruct (Z.gtb_spec x res); lia. }
  rewrite Hdist.
  assert (Hd : 0 <= direct_dist res x <= MAX_ID) by (unfold direct_dist; lia).
  destruct seen as [|y seen].
  - (* the first valid id *)
    cbn in Hinv. subst st. cbn -[Z.pow].
    destruct (Z.ltb_spec (direct_dist res x) INVALID_SWARM_ID); [|lia].
    destruct (Z.ltb_spec x INVALID_SWARM_ID); [|lia].
    assert (Hright : (if x >? 0 then x else 0) = x)
      by (destruct (Z.gtb_spec x 0); lia).
    rewrite Hright.
    repeat split; try (left; reflexivity);
      try (intros z [<-|[]];
           cbn [cur_best cur_min leftmost_id rightmost_id]; lia).
    exists [], []. split; [reflexivity|]. intros z [].
  - (* a later one *)
    cbn [scan_inv] in Hinv.
    destruct Hinv as (Hmin & (before & after & Hsplit & Hbefore)
                      & Hleast & Hlin & Hlmin & Hrin & Hrmax).
    change (scan_facts res ((y :: seen) ++ [x])
              (mkScan
                 (if direct_dist res x <? cur_min st then x else cur_best st)
                 (if direct_dist res x <? cur_min st
                  then direct_dist res x else cur_min st)
                 (if x <? leftmost_id st then x else leftmost_id st)
                 (if x >? rightmost_id st then x else rightmost_id st))).
    remember (y :: seen) as l eqn:Hl. clear Hl y seen.
    assert (Hin_app : forall z, In z (l ++ [x])%list <-> In z l \/ z = x).
    { intros z. rewrite in_app_iff. cbn. intuition. }
    unfold scan_facts. cbn [cur_best cur_min leftmost_id rightmost_id].
    destruct (Z.ltb_spec (direct_dist res x) (cur_min st)) as [Hcloser|Hfar].
    + split; [reflexivity|]. split.
      { exists l, []. split; [reflexivity|].
        intros z Hz. specialize (Hleast z Hz). lia. }
      split.
      { intros z Hz. apply Hin_app in Hz. destruct Hz as [Hz| ->]; [|lia].
        specialize (Hleast z Hz). lia. }
      split.
      { apply Hin_app. destruct (Z.ltb_spec x (leftmost_id st)); auto. }
      split.
      { intros z Hz. apply Hin_app in Hz.
        destruct (Z.ltb_spec x (leftmost_id st));
          destruct Hz as [Hz| ->]; try lia; specialize (Hlmin z Hz); lia. }
      split.
      { apply Hin_app. destruct (Z.gtb_spec x (rightmost_id st)); auto. }
      intros z Hz. apply Hin_app in Hz.
      destruct (Z.gtb_spec x (rightmost_id st));
        destruct Hz as [Hz| ->]; try lia; specialize (Hrmax z Hz); lia.
    + split; [exact Hmin|]. split.
      { exists before, (after ++ [x])%list. split; [|exact Hbefore].
        rewrite Hsplit. rewrite <- app_assoc. reflexivity. }
      split.
      { intros z Hz. apply Hin_app in Hz. destruct Hz as [Hz| ->]; [|lia].
        exact (Hleast z Hz). }
      split.
      { apply Hin_app. destruct (Z.ltb_spec x (leftmost_id st)); auto. }
      split.
      { intros z Hz. apply Hin_app in Hz.
        destruct (Z.ltb_spec x (leftmost_id st));
          destruct Hz as [Hz| ->]; try lia; specialize (Hlmin z Hz); lia. }
      split.
      { apply Hin_app. destruct (Z.gtb_spec x (rightmost_id st)); auto. }
      intros z Hz. apply Hin_app in Hz.
      destruct (Z.gtb_spec x (rightmost_id st));
        destruct Hz as [Hz| ->]; try lia; specialize (Hrmax z Hz); lia.
Qed.

Lemma valid_ids_range (swarms : all_swarms_t) (x : Z) :
  Forall (fun si => is_u64 (swarm_id si)) swarms ->
  In x (valid_ids swarms) -> 0 <= x <= MAX_ID /\ x <> INVALID_SWARM_ID.
Proof.
  intros Hall Hin. unfold valid_ids in Hin.
  apply filter_In in Hin. destruct Hin as [Hin Hvalid].
  apply in_map_iff in Hin. destruct Hin as (si & <- & Hsi).
  rewrite Forall_forall in Hall. specialize (Hall si Hsi).
  apply negb_true_iff, Z.eqb_neq in Hvalid.
  unfold is_u64, MAX_ID, INVALID_SWARM_ID in *. lia.
Qed.

Lemma scan_fold_inv (res : Z) (swarms : all_swarms_t) :
  0 <= res <= MAX_ID ->
  Forall (fun si => is_u64 (swarm_id si)) swarms ->
  scan_inv res (valid_ids swarms) (fold_left (scan_step res) swarms scan_init).
Proof.
  intros Hres. induction swarms as [|si l IH] using rev_ind; intros Hall.
  - reflexivity.
  - apply Forall_app in Hall. destruct Hall as [Hl Hsi].
    rewrite fold_left_app, valid_ids_app. cbn [fold_left].
    specialize (IH Hl).
    destruct (Z.eqb_spec (swarm_id si) INVALID_SWARM_ID) as [Hinv|Hvalid].
    + rewrite app_nil_r. unfold scan_step.
      rewrite (proj2 (Z.eqb_eq _ _) Hinv). exact IH.
    + apply scan_step_inv; [exact Hres | | exact IH].
      inversion Hsi as [|? ? Hu _]; subst.
      unfold is_u64, MAX_ID, INVALID_SWARM_ID in *. lia.
Qed.

(** What [get_swarm_by_pk] returns for a hash below the sentinel. *)
Lemma closest_swarm_spec (swarms : all_swarms_t) (res : Z) :
  0 <= res <= MAX_ID ->
  Forall (fun si => is_u64 (swarm_id si)) swarms ->
  valid_ids swarms <> [] ->
  let ids := valid_ids swarms in
  let r := closest_swarm swarms res in
  In r ids
  /\ (forall x, In x ids -> ring_dist res r <= ring_dist res x)
  /\ (ring_dist res r < direct_dist res r ->
      forall x, In x ids -> ring_dist res r < direct_dist res x)
  /\ (ring_dist res r = direct_dist res r ->
      first_among (fun x => direct_dist res x <= direct_dist res r) r ids).
Proof.
  intros Hres Hall Hne ids r.
  pose proof (scan_fold_inv res swarms Hres Hall) as Hinv.
  pose proof (fun x => valid_ids_range swarms x Hall) as Hrange.
  fold ids in Hrange.
  assert (Hfacts : scan_facts res ids
                     (fold_left (scan_step res) swarms scan_init)).
  { subst ids. destruct (valid_ids swarms); [congruence | exact Hinv]. }
  clear Hinv Hne.
  subst r. unfold closest_swarm.
  set (st := fold_left (scan_step res) swarms scan_init) in *.
  destruct Hfacts as (Hmin & Hfirst & Hleast & Hlin & Hlmin & Hrin & Hrmax).
  assert (Hbest : In (cur_best st) ids).
  { destruct Hfirst as (before & after & -> & _).
    apply in_app_iff. right. left. reflexivity. }
  pose proof (Hrange _ Hbest) as [Hb _].
  pose proof (Hrange _ Hlin) as [Hl _].
  pose proof (Hrange _ Hrin) as [Hr _].
  pose proof (Hlmin _ Hrin) as Hlr.
  assert (Hmax : MAX_ID = 2 ^ 64 - 2) by reflexivity.
  assert (Hdl : cur_min st <= direct_dist res (leftmost_id st))
    by (apply Hleast; exact Hlin).
  assert (Hdr : cur_min st <= direct_dist res (rightmost_id st))
    by (apply Hleast; exact Hrin).
  assert (Hall_x : forall x, In x ids ->
             0 <= x <= MAX_ID
             /\ leftmost_id st <= x <= rightmost_id st
             /\ cur_min st <= direct_dist res x).
  { intros x Hx. destruct (Hrange x Hx). auto. }
  destruct (Z.gtb_spec res (rightmost_id st)) as [Habove|Hnot_above].
  - (* the hash is above every id: the way round leads to the leftmost *)
    rewrite (wrap64_small (MAX_ID - res)) by lia.
    rewrite wrap64_small by lia.
    destruct (Z.ltb_spec (MAX_ID - res + leftmost_id st) (cur_min st))
      as [Hwrap|Hdirect].
    + split; [exact Hlin|]. unfold ring_dist, direct_dist in *.
      split; [|split].
      * intros x Hx. destruct (Hall_x x Hx) as (? & ? & ?). lia.
      * intros _ x Hx. destruct (Hall_x x Hx) as (? & ? & ?). lia.
      * intros Heq. lia.
    + split; [exact Hbest|]. unfold ring_dist, direct_dist in *.
      split; [|split].
      * intros x Hx. destruct (Hall_x x Hx) as (? & ? & ?). lia.
      * intros Hlt. lia.
      * intros _. rewrite <- Hmin. exact Hfirst.
  - destruct (Z.ltb_spec res (leftmost_id st)) as [Hbelow|Hinside].
    + (* the hash is below every id: the way round leads to the rightmost *)
      rewrite (wrap64_small (MAX_ID - rightmost_id st)) by lia.
      rewrite wrap64_small by lia.
      destruct (Z.ltb_spec (res + (MAX_ID - rightmost_id st)) (cur_min st))
        as [Hwrap|Hdirect].
      * split; [exact Hrin|]. unfold ring_dist, direct_dist in *.
        split; [|split].
        -- intros x Hx. destruct (Hall_x x Hx) as (? & ? & ?). lia.
        -- intros _ x Hx. destruct (Hall_x x Hx) as (? & ? & ?). lia.
        -- intros Heq. lia.
      * split; [exact Hbest|]. unfold ring_dist, direct_dist in *.
        split; [|split].
        -- intros x Hx. destruct (Hall_x x Hx) as (? & ? & ?). lia.
        -- intros Hlt. lia.
        -- intros _. rewrite <- Hmin. exact Hfirst.
    + (* the hash lies between the leftmost and the rightmost id *)
      split; [exact Hbest|]. unfold ring_dist, direct_dist in *.
      split; [|split].
      * intros x Hx. destruct (Hall_x x Hx) as (? & ? & ?). lia.
      * intros Hlt. lia.
      * intros _. rewrite <- Hmin. exact Hfirst.
Qed.

Lemma spec_ring_dist_small (h x : Z) :
  0 <= h <= MAX_ID -> 0 <= x <= MAX_ID ->
  spec_ring_dist h x
  = Z.min (direct_dist h x) (2 ^ 64 - 1 - direct_dist h x).
Proof.
  intros Hh Hx. unfold spec_ring_dist, direct_dist.
  assert (Hmax : MAX_ID = 2 ^ 64 - 2) by reflexivity.
  rewrite Z.mod_small by lia. reflexivity.
Qed.

(** C4, as amended.  For a roster of [uint64_t] swarm ids with at least one
    valid id, and a pubkey whose folded hash [h] is not [UINT64_MAX],
    [get_swarm_by_pk] returns a valid swarm id of the roster, never the
    sentinel, that minimises the ring distance to [h] modulo [2^64 - 1].
    Among ids at that distance it does not prefer the smaller one: an id
    returned for its direct distance is strictly closer than any id is
    round the ring, and it is the first listed in the roster among the ids
    at that direct distance. *)
Theorem get_swarm_by_pk_closest (all_swarms : all_swarms_t)
    (pk : user_pubkey_t) :
  Forall (fun si => is_u64 (swarm_id si)) all_swarms ->
  valid_ids all_swarms <> [] ->
  hex_to_u64 pk <> UINT64_MAX ->
  let h := hex_to_u64 pk in
  let ids := valid_ids all_swarms in
  let r := get_swarm_by_pk all_swarms pk in
  In r ids
  /\ r <> INVALID_SWARM_ID
  /\ (forall x, In x ids -> spec_ring_dist h r <= spec_ring_dist h x)
  /\ (spec_ring_dist h r = direct_dist h r ->
      (forall x, In x ids -> direct_dist h r < 2 ^ 64 - 1 - direct_dist h x)
      /\ first_among (fun x => direct_dist h x <= direct_dist h r) r ids).
Proof.
  intros Hall Hne Hh. cbv zeta. unfold get_swarm_by_pk.
  pose proof (hex_to_u64_range pk) as Hrange_h.
  set (h := hex_to_u64 pk) in *.
  assert (Hmax : MAX_ID = 2 ^ 64 - 2) by reflexivity.
  assert (Hres : 0 <= h <= MAX_ID) by (unfold UINT64_MAX in Hh; lia).
  destruct (closest_swarm_spec all_swarms h Hres Hall Hne)
    as (Hin & Hleast & Hround & Hfirst).
  pose proof (fun x => valid_ids_range all_swarms x Hall) as Hvalid.
  set (ids := valid_ids all_swarms) in *.
  set (r := closest_swarm all_swarms h) in *.
  destruct (Hvalid r Hin) as [Hr Hr_valid].
  split; [exact Hin|]. split; [exact Hr_valid|].
  assert (Hcases : ring_dist h r < direct_dist h r
                   \/ ring_dist h r = direct_dist h r)
    by (unfold ring_dist; lia).
  split.
  - intros x Hx. destruct (Hvalid x Hx) as [Hx_range _].
    rewrite !spec_ring_dist_small by assumption.
    specialize (Hleast x Hx).
    destruct Hcases as [Hlt|Heq].
    + specialize (Hround Hlt x Hx). unfold ring_dist, direct_dist in *. lia.
    + unfold ring_dist, direct_dist in *. lia.
  - rewrite spec_ring_dist_small by assumption. intros Hdirect.
    assert (Heq : ring_dist h r = direct_dist h r)
      by (unfold ring_dist, direct_dist in *; lia).
    split; [|exact (Hfirst Heq)].
    intros x Hx. destruct (Hvalid x Hx) as [Hx_range _].
    specialize (Hleast x Hx). unfold ring_dist, direct_dist in *. lia.
Qed.

(** On the stand-ins: swarms 0 and 2^63, a pubkey that folds to 5. *)
Lemma get_swarm_by_pk_closest_witness :
  let roster := [Fixtures.S0; Fixtures.S1] in
  let pk := Fixtures.pubkey_ending "0000000000000005" in
  hex_to_u64 pk = 5
  /\ get_swarm_by_pk roster pk = 0
  /\ In (get_swarm_by_pk roster pk) (valid_ids roster)
  /\ forall x, In x (valid_ids roster) ->
       spec_ring_dist (hex_to_u64 pk) (get_swarm_by_pk roster pk)
       <= spec_ring_dist (hex_to_u64 pk) x.
Proof.
  cbv zeta.
  destruct (get_swarm_by_pk_closest [Fixtures.S0; Fixtures.S1]
              (Fixtures.pubkey_ending "0000000000000005"))
    as (Hin & _ & Hleast & _).
  - repeat constructor; cbn; unfold is_u64, UINT64_MAX; lia.
  - vm_compute. discriminate.
  - vm_compute. discriminate.
  - split; [vm_compute; reflexivity|].
    split; [vm_compute; reflexivity|].
    split; [exact Hin | exact Hleast].
Defined.

(** C4 as stated fails: swarms 10 and 0, listed in that order, are both at
    distance 5 from a hash of 5, and the swarm returned is 10, not the
    smaller id 0. *)
Lemma tie_goes_to_first_listed :
  let roster := [mkSwarmInfo 10 []; mkSwarmInfo 0 []] in
  let pk := Fixtures.pubkey_ending "0000000000000005" in
  hex_to_u64 pk = 5
  /\ spec_ring_dist 5 10 = spec_ring_dist 5 0
  /\ get_swarm_by_pk roster pk = 10
  /\ get_swarm_by_pk roster pk <> 0.
Proof.
  cbv zeta. repeat split; try (vm_compute; reflexivity).
  vm_compute. discriminate.
Qed.

(** The hash [UINT64_MAX], left out above: for a roster whose only swarm is
    0 and a pubkey whose first word is all ones, the sentinel comes back;
    [MAX_ID - res] wraps in the special case of [get_swarm_by_pk]. *)
Lemma all_ones_hash_gets_sentinel :
  let pk := "05" ++ "ffffffffffffffff" ++ Fixtures.zeros16
            ++ Fixtures.zeros16 ++ Fixtures.zeros16 in
  hex_to_u64 pk = UINT64_MAX
  /\ get_swarm_by_pk [mkSwarmInfo 0 []] pk = INVALID_SWARM_ID.
Proof. cbv zeta. split; vm_compute; reflexivity. Qed.

(* ===================================================================== *)
(** * Part II, continued: further properties of the code                 *)
(* ===================================================================== *)

(** ** Pubkey to swarm: what the mapping depends on *)

Lemma scan_step_invalid (res : Z) (st : scan) (si : SwarmInfo) :
  swarm_id si = INVALID_SWARM_ID -> scan_step res st si = st.
Proof.
  intros Hinv. unfold scan_step. rewrite Hinv, Z.eqb_refl. reflexivity.
Qed.

Lemma scan_step_id_only (res : Z) (st : scan) (a b : SwarmInfo) :
  swarm_id a = swarm_id b -> scan_step res st a = scan_step res st b.
Proof. intros Hid. unfold scan_step. rewrite Hid. reflexivity. Qed.

Lemma scan_fold_valid_ids (res : Z) (swarms : all_swarms_t) (st : scan) :
  fold_left (scan_step res) swarms st
  = fold_left (fun st id => scan_step res st (mkSwarmInfo id []))
      (valid_ids swarms) st.
Proof.
  revert st. induction swarms as [|si l IH]; intros st; [reflexivity|].
  cbn [fold_left]. unfold valid_ids in *. cbn [map filter].
  destruct (Z.eqb_spec (swarm_id si) INVALID_SWARM_ID) as [Hinv|Hvalid].
  - cbn [negb]. rewrite scan_step_invalid by exact Hinv. apply IH.
  - cbn [negb fold_left].
    rewrite (scan_step_id_only res st si (mkSwarmInfo (swarm_id si) []))
      by reflexivity.
    apply IH.
Qed.

(** X1.  The swarm a pubkey maps to depends on the roster only through its
    valid swarm ids, in roster order: two rosters that list the same valid
    ids give the same swarm, whatever their snodes and wherever entries
    with the sentinel id sit. *)
Theorem get_swarm_by_pk_ids_only (s1 s2 : all_swarms_t) (pk : user_pubkey_t) :
  valid_ids s1 = valid_ids s2 ->
  get_swarm_by_pk s1 pk = get_swarm_by_pk s2 pk.
Proof.
  intros Hids. unfold get_swarm_by_pk, closest_swarm.
  rewrite (scan_fold_valid_ids _ s1), (scan_fold_valid_ids _ s2), Hids.
  reflexivity.
Qed.

(** Swarm 0 loses a member and an unassigned entry appears: the mapping of a
    pubkey stays what it was. *)
Lemma get_swarm_by_pk_ids_only_witness :
  let before := [Fixtures.S0; Fixtures.S1] in
  let after := [mkSwarmInfo 0 [Fixtures.snode "us"];
                mkSwarmInfo INVALID_SWARM_ID [Fixtures.snode "peer0"];
                Fixtures.S1] in
  get_swarm_by_pk before Fixtures.far_pubkey
  = get_swarm_by_pk after Fixtures.far_pubkey.
Proof.
  cbv zeta. apply get_swarm_by_pk_ids_only. reflexivity.
Defined.

(** X2.  A roster without a valid swarm id (empty, or sentinel ids only)
    maps every pubkey to the sentinel, except a pubkey whose hash is 0: for
    it the special case for a hash left of every id picks [rightmost_id],
    still at its initial 0, and swarm 0 is returned although the roster
    has no such swarm. *)
Theorem get_swarm_by_pk_no_valid_swarm (swarms : all_swarms_t)
    (pk : user_pubkey_t) :
  valid_ids swarms = [] ->
  get_swarm_by_pk swarms pk
  = if hex_to_u64 pk =? 0 then 0 else INVALID_SWARM_ID.
Proof.
  intros Hnone. unfold get_swarm_by_pk, closest_swarm.
  rewrite scan_fold_valid_ids, Hnone. cbn [fold_left].
  pose proof (hex_to_u64_range pk) as Hrange.
  set (h := hex_to_u64 pk) in *.
  cbn [scan_init rightmost_id leftmost_id cur_min cur_best].
  destruct (Z.eqb_spec h 0) as [->|Hnz].
  - vm_compute. reflexivity.
  - destruct (Z.gtb_spec h 0) as [_|Hle]; [|lia].
    destruct (_ <? _); reflexivity.
Qed.

(** The empty roster: the all-zero pubkey gets swarm 0, another one the
    sentinel. *)
Lemma get_swarm_by_pk_no_valid_swarm_witness :
  get_swarm_by_pk [] (Fixtures.pubkey_ending Fixtures.zeros16) = 0
  /\ get_swarm_by_pk [mkSwarmInfo INVALID_SWARM_ID []] Fixtures.far_pubkey
     = INVALID_SWARM_ID.
Proof.
  split.
  - rewrite (get_swarm_by_pk_no_valid_swarm [] _ eq_refl).
    vm_compute. reflexivity.
  - rewrite (get_swarm_by_pk_no_valid_swarm
               [mkSwarmInfo INVALID_SWARM_ID []] _ eq_refl).
    vm_compute. reflexivity.
Defined.

(** ** The hash of a pubkey *)

Lemma hex_digit_plain (c : ascii) (d : Z) :
  hex_digit c = Some d ->
  isspace c = false
  /\ c <> "-"%char /\ c <> "+"%char /\ c <> "x"%char /\ c <> "X"%char.
Proof.
  destruct c as [[] [] [] [] [] [] [] []]; vm_compute; intros Hd;
    try discriminate Hd; repeat split; congruence.
Qed.

Lemma strtoull16_hex (w : string) :
  all_hex w = true -> strtoull16 w = hex_value w.
Proof.
  intros Hw. unfold strtoull16, hex_value.
  destruct w as [|a w]; [reflexivity|].
  cbn [all_hex] in Hw.
  destruct (hex_digit a) as [da|] eqn:Ha; [|discriminate].
  destruct (hex_digit_plain a da Ha) as (Hsp & Hminus & Hplus & _).
  cbn [skip_space]. rewrite Hsp.
  assert (Hsign : match String a w with
                  | String "-"%char rest => (true, rest)
                  | String "+"%char rest => (false, rest)
                  | _ => (false, String a w)
                  end = (false, String a w)).
  { destruct a as [[] [] [] [] [] [] [] []]; try reflexivity; congruence. }
  rewrite Hsign.
  assert (Hprefix :
            match String a w with
            | String "0"%char (String x (String d rest)) =>
                if (Ascii.eqb x "x"%char || Ascii.eqb x "X"%char)
                   && match hex_digit d with
                      | Some _ => true
                      | None => false
                      end
                then String d rest else String a w
            | _ => String a w
            end = String a w).
  { destruct w as [|x [|d rest]];
      try (destruct a as [[] [] [] [] [] [] [] []]; reflexivity).
    cbn [all_hex] in Hw.
    destruct (hex_digit x) as [dx|] eqn:Hx; [|discriminate].
    destruct (hex_digit_plain x dx Hx) as (_ & _ & _ & Hlower & Hupper).
    apply Ascii.eqb_neq in Hlower, Hupper. rewrite Hlower, Hupper.
    destruct a as [[] [] [] [] [] [] [] []]; reflexivity. }
  rewrite Hprefix. reflexivity.
Qed.

Lemma string_drop_append (a b : string) :
  string_drop (String.length a) (a ++ b) = b.
Proof. induction a as [|c a IH]; cbn; [destruct b; reflexivity | exact IH]. Qed.

Lemma is_word_nonempty (w rest : string) :
  is_word w -> exists c tail, w ++ rest = String c tail.
Proof.
  intros [Hlen _]. destruct w as [|c w]; [discriminate|].
  exists c, (w ++ rest). reflexivity.
Qed.

Lemma xor_chunks_word (fuel : nat) (w rest : string) (res : Z) :
  is_word w ->
  xor_chunks (S fuel) (w ++ rest) res
  = xor_chunks fuel rest (Z.lxor res (hex_value w)).
Proof.
  intros Hw. destruct (is_word_nonempty w rest Hw) as (c & tail & Hne).
  destruct Hw as [Hlen Hhex].
  cbn [xor_chunks]. rewrite Hne. rewrite <- Hne.
  assert (Hchunk : substr0 16 (w ++ rest) = w).
  { unfold substr0. change (Z.to_nat 16) with 16%nat. rewrite <- Hlen.
    apply substring_append_left. }
  assert (Hrest : string_drop 16 (w ++ rest) = rest).
  { rewrite <- Hlen. apply string_drop_append. }
  rewrite Hchunk, Hrest, strtoull16_hex by exact Hhex. reflexivity.
Qed.

(** X3.  For a pubkey made of a 2-character tag and four words of 16 hex
    digits, [hex_to_u64] is the exclusive or of the four words read as
    numbers: the tag takes no part, and the white space, sign and [0x]
    handling of [strtoull] never comes into play. *)
Theorem hex_to_u64_words (tag w1 w2 w3 w4 : string) :
  String.length tag = 2%nat ->
  is_word w1 -> is_word w2 -> is_word w3 -> is_word w4 ->
  hex_to_u64 (tag ++ w1 ++ w2 ++ w3 ++ w4)
  = Z.lxor (Z.lxor (Z.lxor (hex_value w1) (hex_value w2)) (hex_value w3))
      (hex_value w4).
Proof.
  intros Htag H1 H2 H3 H4. unfold hex_to_u64.
  assert (Hdrop : string_drop 2 (tag ++ w1 ++ w2 ++ w3 ++ w4)
                  = w1 ++ w2 ++ w3 ++ w4).
  { rewrite <- Htag. apply string_drop_append. }
  rewrite Hdrop.
  assert (Hlen : String.length (tag ++ w1 ++ w2 ++ w3 ++ w4) = 66%nat).
  { rewrite !length_append, Htag.
    destruct H1 as [-> _], H2 as [-> _], H3 as [-> _], H4 as [-> _].
    reflexivity. }
  rewrite Hlen.
  change 66%nat with (S (S (S (S 62)))).
  rewrite (xor_chunks_word _ w1) by exact H1.
  rewrite (xor_chunks_word _ w2) by exact H2.
  rewrite (xor_chunks_word _ w3) by exact H3.
  replace w4 with (w4 ++ EmptyString) at 1.
  - rewrite (xor_chunks_word _ w4) by exact H4.
    cbn [xor_chunks]. rewrite Z.lxor_0_l. reflexivity.
  - clear. induction w4 as [|c w IH]; cbn; [reflexivity | rewrite IH; reflexivity].
Qed.

(** A mixed-case pubkey: the words are [ffff000000000000], [0000ABCD00000000],
    zero and [00000000000000ff]. *)
Lemma hex_to_u64_words_witness :
  hex_to_u64 ("05" ++ "ffff000000000000" ++ "0000ABCD00000000"
              ++ Fixtures.zeros16 ++ "00000000000000ff")
  = 18446651495689486591.
Proof.
  rewrite hex_to_u64_words;
    [vm_compute; reflexivity | reflexivity | | | | ];
    split; reflexivity.
Defined.

(** ** Swarm events: what a diff reports *)

(** X4.  Whatever [derive_swarm_events] reports as new is new: a reported
    snode is a member of our new swarm, is not this node and was not among
    our peers; a reported swarm id is in the roster and was not known
    before.  Nothing is reported when the node's swarm id changes (it has
    just started, or was moved to another swarm). *)
Theorem derive_swarm_events_reports_new (this : Swarm) (swarms : all_swarms_t) :
  let ev := derive_swarm_events this swarms in
  (forall sn, In sn (new_snodes ev) ->
     In sn (our_swarm_members ev)
     /\ sn_record_eqb sn (our_address_ this) = false
     /\ contains_snode (swarm_peers_ this) sn = false)
  /\ (forall id, In id (new_swarms ev) ->
        swarm_exists swarms id = true /\ is_existing_swarm this id = false)
  /\ (our_swarm_id ev <> cur_swarm_id_ this ->
      new_snodes ev = [] /\ new_swarms ev = []).
Proof.
  cbv zeta. unfold derive_swarm_events.
  destruct (List.find _ swarms) as [our|];
    [|cbn; repeat split; intros; try contradiction; reflexivity].
  destruct (cur_swarm_id_ this =? INVALID_SWARM_ID);
    [cbn; repeat split; intros; try contradiction; reflexivity|].
  destruct (Z.eqb_spec (cur_swarm_id_ this) (swarm_id our)) as [Hsame|Hmoved];
    cbn [negb new_snodes new_swarms our_swarm_members our_swarm_id];
    [|repeat split; intros; try contradiction; reflexivity].
  split; [|split].
  - intros sn Hsn. apply filter_In in Hsn. destruct Hsn as [Hin Hnew].
    apply andb_true_iff in Hnew. destruct Hnew as [Hpeer Hus].
    apply negb_true_iff in Hpeer, Hus. auto.
  - intros id Hid. apply in_map_iff in Hid.
    destruct Hid as (si & <- & Hsi). apply filter_In in Hsi.
    destruct Hsi as [Hin Hnew]. apply negb_true_iff in Hnew.
    split; [|exact Hnew].
    apply existsb_exists. exists si. split; [exact Hin | apply Z.eqb_refl].
  - intros Hne. congruence.
Qed.

(** X5.  The swarm [derive_swarm_events] reports as ours: when some swarm of
    the roster lists this node, the reported id is the id of a swarm of the
    roster and the reported members include this node; when none does, the
    reported id is the sentinel and every list is empty. *)
Theorem derive_swarm_events_our_swarm (this : Swarm) (swarms : all_swarms_t) :
  let ev := derive_swarm_events this swarms in
  (in_some_swarm this swarms = true ->
   swarm_exists swarms (our_swarm_id ev) = true
   /\ contains_snode (our_swarm_members ev) (our_address_ this) = true)
  /\ (in_some_swarm this swarms = false ->
      ev = mkEvents INVALID_SWARM_ID [] [] [] false).
Proof.
  cbv zeta. unfold derive_swarm_events, in_some_swarm.
  destruct (List.find _ swarms) as [our|] eqn:Hfind.
  - destruct (find_some_existsb _ _ _ Hfind) as (Hex & Hin & Hours).
    rewrite Hex. split; [intros _ | discriminate].
    assert (Hexists : swarm_exists swarms (swarm_id our) = true).
    { apply existsb_exists. exists our. split; [exact Hin | apply Z.eqb_refl]. }
    destruct (cur_swarm_id_ this =? INVALID_SWARM_ID);
      [|destruct (negb (cur_swarm_id_ this =? swarm_id our))];
      cbn [our_swarm_id our_swarm_members]; auto.
  - rewrite (find_none_existsb _ _ Hfind).
    split; [discriminate | reflexivity].
Qed.


(** ** Applying a roster: [apply_ips] *)

Lemma um_find_app {V : Type} (k : string) (a b : umap V) :
  um_find k (a ++ b)%list
  = match um_find k a with Some v => Some v | None => um_find k b end.
Proof.
  induction a as [|[k' v] a IH]; cbn [um_find app]; [reflexivity|].
  destruct (String.eqb k' k); [reflexivity | exact IH].
Qed.

Lemma um_find_emplace {V : Type} (k k' : string) (v : V) (m : umap V) :
  um_find k (um_emplace k' v m)
  = match um_find k m with
    | Some x => Some x
    | None => if String.eqb k' k then Some v else None
    end.
Proof.
  unfold um_emplace.
  destruct (um_find k' m) as [x|] eqn:Hk'.
  - destruct (um_find k m) as [y|] eqn:Hk; [reflexivity|].
    destruct (String.eqb k' k) eqn:E; [|reflexivity].
    apply String.eqb_eq in E. subst k'. congruence.
  - rewrite um_find_app. cbn [um_find]. reflexivity.
Qed.

Lemma find_app_first {A : Type} (f : A -> bool) (a b : list A) :
  List.find f (a ++ b)%list
  = match List.find f a with Some x => Some x | None => List.find f b end.
Proof.
  induction a as [|x a IH]; cbn [List.find app]; [reflexivity|].
  destruct (f x); [reflexivity | exact IH].
Qed.

Lemma um_find_emplace_snodes (k : string) (l : list sn_record_t)
    (m : umap sn_record_t) :
  um_find k (emplace_snodes l m)
  = match um_find k m with
    | Some x => Some x
    | None => first_with_key k l
    end.
Proof.
  unfold emplace_snodes, first_with_key.
  revert m. induction l as [|sn l IH]; intro m; cbn [fold_left List.find].
  - destruct (um_find k m); reflexivity.
  - rewrite IH, um_find_emplace.
    destruct (um_find k m); [reflexivity|].
    destruct (String.eqb (pubkey_legacy sn) k); reflexivity.
Qed.

Lemma um_find_emplace_swarms (k : string) (swarms : all_swarms_t)
    (m : umap sn_record_t) :
  um_find k (fold_left (fun m swarm => emplace_snodes (snodes swarm) m) swarms m)
  = match um_find k m with
    | Some x => Some x
    | None => first_with_key k (all_snodes swarms)
    end.
Proof.
  unfold all_snodes.
  revert m. induction swarms as [|si swarms IH]; intro m;
    cbn [fold_left flat_map].
  - destruct (um_find k m); reflexivity.
  - rewrite IH, um_find_emplace_snodes.
    destruct (um_find k m); [reflexivity|].
    unfold first_with_key. rewrite find_app_first. reflexivity.
Qed.

(** [get_snode_map_from_swarms] maps a key to the first record that carries
    it, in the order of the roster. *)
Lemma get_snode_map_from_swarms_find (k : string) (swarms : all_swarms_t) :
  um_find k (get_snode_map_from_swarms swarms)
  = first_with_key k (all_snodes swarms).
Proof.
  unfold get_snode_map_from_swarms. rewrite um_find_emplace_swarms.
  reflexivity.
Qed.

Lemma update_if_changed_string (val new_val ignore_val : string) :
  fst (update_if_changed String.eqb val new_val ignore_val)
  = if String.eqb new_val ignore_val then val else new_val.
Proof.
  unfold update_if_changed.
  destruct (String.eqb new_val ignore_val); cbn [negb andb fst];
    [reflexivity|].
  destruct (String.eqb new_val val) eqn:E; cbn [negb fst]; [|reflexivity].
  apply String.eqb_eq in E. congruence.
Qed.

Lemma update_if_changed_Z (val new_val ignore_val : Z) :
  fst (update_if_changed Z.eqb val new_val ignore_val)
  = if new_val =? ignore_val then val else new_val.
Proof.
  unfold update_if_changed.
  destruct (new_val =? ignore_val); cbn [negb andb fst]; [reflexivity|].
  destruct (new_val =? val) eqn:E; cbn [negb fst]; [|reflexivity].
  apply Z.eqb_eq in E. congruence.
Qed.

(** A value that has been updated needs no update. *)
Lemma update_if_changed_again {T : Type} (eqb : T -> T -> bool)
    (eqb_refl : forall x, eqb x x = true) (val new_val ignore_val : T) :
  update_if_changed eqb
    (fst (update_if_changed eqb val new_val ignore_val)) new_val ignore_val
  = (fst (update_if_changed eqb val new_val ignore_val), false).
Proof.
  unfold update_if_changed.
  destruct (eqb new_val ignore_val) eqn:Ei; cbn [negb andb fst];
    [reflexivity|].
  destruct (eqb new_val val) eqn:Ev; cbn [negb fst].
  - rewrite Ev. reflexivity.
  - rewrite eqb_refl. reflexivity.
Qed.

Lemma apply_ips_snode_fst (m : umap sn_record_t) (snode : sn_record_t) :
  fst (apply_ips_snode m snode)
  = match um_find (pubkey_legacy snode) m with
    | Some sn =>
        mkSnode
          (fst (update_if_changed String.eqb (ip snode) (ip sn) "0.0.0.0"))
          (fst (update_if_changed Z.eqb (port snode) (port sn) 0))
          (fst (update_if_changed Z.eqb (lmq_port snode) (lmq_port sn) 0))
          (pubkey_legacy snode) (pubkey_ed25519 snode) (pubkey_x25519 snode)
    | None => snode
    end.
Proof.
  unfold apply_ips_snode.
  destruct (um_find (pubkey_legacy snode) m) as [sn|]; [|reflexivity].
  destruct (update_if_changed String.eqb (ip snode) (ip sn) "0.0.0.0").
  destruct (update_if_changed Z.eqb (port snode) (port sn) 0).
  destruct (update_if_changed Z.eqb (lmq_port snode) (lmq_port sn) 0).
  reflexivity.
Qed.

Lemma apply_ips_snode_again (m : umap sn_record_t) (snode : sn_record_t) :
  apply_ips_snode m (fst (apply_ips_snode m snode))
  = (fst (apply_ips_snode m snode), false).
Proof.
  rewrite apply_ips_snode_fst.
  destruct (um_find (pubkey_legacy snode) m) as [sn|] eqn:Hf.
  - unfold apply_ips_snode at 1. cbn [pubkey_legacy ip port lmq_port
      pubkey_ed25519 pubkey_x25519]. rewrite Hf.
    rewrite (update_if_changed_again String.eqb String.eqb_refl).
    rewrite !(update_if_changed_again Z.eqb Z.eqb_refl).
    reflexivity.
  - unfold apply_ips_snode. rewrite Hf. reflexivity.
Qed.

Lemma apply_ips_snode_carried (other : all_swarms_t) (snode : sn_record_t) :
  carried_forward snode
    (first_with_key (pubkey_legacy snode) (all_snodes other))
    (fst (apply_ips_snode (get_snode_map_from_swarms other) snode)).
Proof.
  rewrite apply_ips_snode_fst, get_snode_map_from_swarms_find.
  unfold carried_forward, same_keys.
  destruct (first_with_key (pubkey_legacy snode) (all_snodes other)) as [o|].
  - cbn [ip port lmq_port pubkey_legacy pubkey_ed25519 pubkey_x25519].
    rewrite update_if_changed_string, !update_if_changed_Z.
    repeat split; reflexivity.
  - repeat split; reflexivity.
Qed.

Lemma Forall2_map_r {A B : Type} (R : A -> B -> Prop) (f : A -> B)
    (l : list A) :
  (forall x, In x l -> R x (f x)) -> Forall2 R l (map f l).
Proof.
  induction l as [|x l IH]; intro H; cbn [map]; constructor.
  - apply H. left. reflexivity.
  - apply IH. intros y Hy. apply H. right. exact Hy.
Qed.

(** X6.  [apply_ips] keeps the roster it is told to keep, swarm by swarm and
    snode by snode: the swarm ids and the three keys of every snode are
    unchanged, and each address field (ip, port, lmq_port) is the one of the
    first record with the same legacy key in the other roster unless that
    one is the default (0.0.0.0, resp. 0) or there is no such record, in
    which case the kept field stays. *)
Theorem apply_ips_carries_forward (swarms_to_keep other_swarms : all_swarms_t) :
  map swarm_id (apply_ips swarms_to_keep other_swarms)
  = map swarm_id swarms_to_keep
  /\ Forall2
       (fun kept_swarm result_swarm =>
          Forall2
            (fun kept after =>
               carried_forward kept
                 (first_with_key (pubkey_legacy kept)
                    (all_snodes other_swarms))
                 after)
            (snodes kept_swarm) (snodes result_swarm))
       swarms_to_keep (apply_ips swarms_to_keep other_swarms).
Proof.
  unfold apply_ips. split.
  - rewrite map_map. cbn [swarm_id]. reflexivity.
  - apply Forall2_map_r. intros si _. cbn [snodes].
    apply Forall2_map_r. intros sn _.
    apply apply_ips_snode_carried.
Qed.

(** X7.  Applying the same roster a second time changes nothing and counts
    no update; applying an empty roster changes nothing. *)
Theorem apply_ips_idempotent (swarms_to_keep other_swarms : all_swarms_t) :
  apply_ips (apply_ips swarms_to_keep other_swarms) other_swarms
  = apply_ips swarms_to_keep other_swarms
  /\ apply_ips_updates (apply_ips swarms_to_keep other_swarms) other_swarms
     = 0%nat
  /\ apply_ips swarms_to_keep [] = swarms_to_keep.
Proof.
  split; [|split].
  - unfold apply_ips. rewrite map_map. apply map_ext. intro si.
    cbn [swarm_id snodes]. f_equal. rewrite map_map. apply map_ext.
    intro sn. rewrite apply_ips_snode_again. reflexivity.
  - unfold apply_ips_updates, apply_ips, all_snodes.
    set (m := get_snode_map_from_swarms other_swarms).
    induction swarms_to_keep as [|si l IH]; [reflexivity|].
    cbn [map flat_map snodes]. rewrite filter_app, length_app.
    cbn [map flat_map snodes] in IH. rewrite IH, Nat.add_0_r.
    clear IH. induction (snodes si) as [|sn ss IHs]; [reflexivity|].
    cbn [map filter]. rewrite apply_ips_snode_again. cbn [snd]. exact IHs.
  - unfold apply_ips. cbn [get_snode_map_from_swarms fold_left].
    rewrite <- (map_id swarms_to_keep) at 2. apply map_ext. intro si.
    destruct si as [sid ss]. cbn [swarm_id snodes]. f_equal.
    rewrite <- (map_id ss) at 2. apply map_ext. intro sn.
    unfold apply_ips_snode. cbn [um_find fst]. reflexivity.
Qed.


(** ** The funded-node indexes: [update_state] and [find_node] *)

Lemma um_find_In {V : Type} (k : string) (v : V) (m : umap V) :
  um_find k m = Some v -> In (k, v) m.
Proof.
  induction m as [|[k' v'] m IH]; cbn [um_find]; [discriminate|].
  destruct (String.eqb k' k) eqn:E.
  - apply String.eqb_eq in E. intro H. injection H as ->. subst k'.
    left. reflexivity.
  - intro H. right. apply IH. exact H.
Qed.

Lemma um_find_not_None {V : Type} (k : string) (v : V) (m : umap V) :
  In (k, v) m -> um_find k m <> None.
Proof.
  induction m as [|[k' v'] m IH]; cbn [um_find In]; [tauto|].
  intros [H|H].
  - injection H as -> ->. rewrite String.eqb_refl. discriminate.
  - destruct (String.eqb k' k); [discriminate | apply IH; exact H].
Qed.

Lemma um_find_NoDup {V : Type} (k : string) (v : V) (m : umap V) :
  NoDup (map fst m) -> In (k, v) m -> um_find k m = Some v.
Proof.
  induction m as [|[k' v'] m IH]; cbn [um_find In map fst]; [tauto|].
  intros Hnd [H|H].
  - injection H as -> ->. rewrite String.eqb_refl. reflexivity.
  - inversion Hnd as [|? ? Hnotin Hnd']; subst.
    destruct (String.eqb k' k) eqn:E.
    + apply String.eqb_eq in E. subst k'. exfalso. apply Hnotin.
      apply (in_map fst) in H. exact H.
    + apply IH; assumption.
Qed.

Lemma um_find_None_keys {V : Type} (k : string) (m : umap V) :
  um_find k m = None -> ~ In k (map fst m).
Proof.
  induction m as [|[k' v'] m IH]; cbn [um_find In map fst]; [tauto|].
  destruct (String.eqb k' k) eqn:E; [discriminate|].
  apply String.eqb_neq in E. intros H [H'|H']; [congruence|].
  apply IH; assumption.
Qed.

Lemma um_emplace_keyed (sn : sn_record_t) (m : umap sn_record_t) :
  keyed_by_legacy m -> keyed_by_legacy (um_emplace (pubkey_legacy sn) sn m).
Proof.
  unfold keyed_by_legacy, um_emplace. intros [Hnd Hk].
  destruct (um_find (pubkey_legacy sn) m) eqn:Hf; [split; assumption|].
  split.
  - rewrite map_app. cbn [map fst].
    apply um_find_None_keys in Hf.
    clear Hk. induction m as [|[k' v'] m IH]; cbn [map fst app].
    + constructor; [intros []| constructor].
    + inversion Hnd as [|? ? Hnotin Hnd']; subst. constructor.
      * rewrite in_app_iff. intros [H|[H|[]]]; [tauto|].
        apply Hf. left. symmetry. exact H.
      * apply IH; [exact Hnd'|]. intro H. apply Hf. right. exact H.
  - intros k sn' Hin. apply in_app_iff in Hin. destruct Hin as [H|[H|[]]].
    + apply Hk. exact H.
    + injection H as <- <-. reflexivity.
Qed.

Lemma emplace_snodes_keyed (l : list sn_record_t) (m : umap sn_record_t) :
  keyed_by_legacy m -> keyed_by_legacy (emplace_snodes l m).
Proof.
  unfold emplace_snodes. revert m.
  induction l as [|sn l IH]; intros m Hm; cbn [fold_left]; [exact Hm|].
  apply IH, um_emplace_keyed, Hm.
Qed.

Lemma emplace_swarms_keyed (swarms : all_swarms_t) (m : umap sn_record_t) :
  keyed_by_legacy m ->
  keyed_by_legacy
    (fold_left (fun m si => emplace_snodes (snodes si) m) swarms m).
Proof.
  revert m.
  induction swarms as [|si l IH]; intros m Hm; cbn [fold_left]; [exact Hm|].
  apply IH, emplace_snodes_keyed, Hm.
Qed.

Lemma index_by_sound (key : sn_record_t -> string)
    (entries : list (string * sn_record_t)) (m0 : umap string)
    (k pk : string) :
  um_find k
    (fold_left (fun m (e : string * sn_record_t) =>
                  um_emplace (key (snd e)) (fst e) m) entries m0) = Some pk ->
  um_find k m0 = Some pk
  \/ exists sn, In (pk, sn) entries /\ key sn = k.
Proof.
  revert m0. induction entries as [|[pk' sn'] l IH]; intro m0;
    cbn [fold_left fst snd]; [tauto|].
  intro H. apply IH in H. destruct H as [H|[sn [Hin Hk]]].
  - rewrite um_find_emplace in H.
    destruct (um_find k m0) as [x|]; [left; exact H|].
    destruct (String.eqb (key sn') k) eqn:E; [|discriminate].
    apply String.eqb_eq in E. injection H as ->.
    right. exists sn'. split; [left; reflexivity | exact E].
  - right. exists sn. split; [right; exact Hin | exact Hk].
Qed.

Lemma index_by_keeps (key : sn_record_t -> string)
    (entries : list (string * sn_record_t)) (m0 : umap string) (k : string) :
  um_find k m0 <> None ->
  um_find k
    (fold_left (fun m (e : string * sn_record_t) =>
                  um_emplace (key (snd e)) (fst e) m) entries m0) <> None.
Proof.
  revert m0. induction entries as [|[pk' sn'] l IH]; intros m0 H;
    cbn [fold_left fst snd]; [exact H|].
  apply IH. rewrite um_find_emplace.
  destruct (um_find k m0); [discriminate | tauto].
Qed.

Lemma index_by_complete (key : sn_record_t -> string)
    (entries : list (string * sn_record_t)) (m0 : umap string)
    (pk : string) (sn : sn_record_t) :
  In (pk, sn) entries ->
  um_find (key sn)
    (fold_left (fun m (e : string * sn_record_t) =>
                  um_emplace (key (snd e)) (fst e) m) entries m0) <> None.
Proof.
  revert m0. induction entries as [|[pk' sn'] l IH]; intros m0 Hin;
    cbn [fold_left fst snd]; [destruct Hin|].
  destruct Hin as [H|H].
  - injection H as -> ->. apply index_by_keeps.
    rewrite um_find_emplace, String.eqb_refl.
    destruct (um_find (key sn) m0); discriminate.
  - apply IH. exact H.
Qed.

(** A lookup by a derived key answers with a record that has this key and
    is the record of its own legacy key. *)
Lemma find_by_index_sound (key : sn_record_t -> string)
    (visit : umap sn_record_t -> list (string * sn_record_t))
    (funded : umap sn_record_t) (k : string) (sn : sn_record_t) :
  visits_all visit -> keyed_by_legacy funded ->
  match um_find k (index_by key (visit funded)) with
  | Some legacy => um_find legacy funded
  | None => None
  end = Some sn ->
  key sn = k /\ um_find (pubkey_legacy sn) funded = Some sn.
Proof.
  intros Hv [Hnd Hk] H.
  destruct (um_find k (index_by key (visit funded))) as [legacy|] eqn:Hi;
    [|discriminate].
  apply index_by_sound in Hi. cbn [um_find] in Hi.
  destruct Hi as [Hi|[sn' [Hin Hkey]]]; [discriminate|].
  apply (proj1 (Hv _ _)) in Hin.
  rewrite (um_find_NoDup legacy sn' funded Hnd Hin) in H.
  injection H as ->. split; [exact Hkey|].
  rewrite (Hk _ _ Hin). apply um_find_NoDup; assumption.
Qed.

Lemma find_by_index_complete (key : sn_record_t -> string)
    (visit : umap sn_record_t -> list (string * sn_record_t))
    (funded : umap sn_record_t) (sn : sn_record_t) :
  visits_all visit -> keyed_by_legacy funded ->
  um_find (pubkey_legacy sn) funded = Some sn ->
  match um_find (key sn) (index_by key (visit funded)) with
  | Some legacy => um_find legacy funded
  | None => None
  end <> None.
Proof.
  intros Hv [Hnd Hk] H.
  apply um_find_In in H.
  assert (Hc := index_by_complete key (visit funded) []
                  (pubkey_legacy sn) sn (proj2 (Hv _ _) H)).
  fold (index_by key (visit funded)) in Hc.
  destruct (um_find (key sn) (index_by key (visit funded))) as [legacy|]
    eqn:Hi; [|congruence].
  apply index_by_sound in Hi. cbn [um_find] in Hi.
  destruct Hi as [Hi|[sn' [Hin _]]]; [discriminate|].
  apply (proj1 (Hv _ _)) in Hin. rewrite (um_find_NoDup legacy sn' funded Hnd Hin).
  discriminate.
Qed.

Lemma funded_keyed (swarms : all_swarms_t) (decommissioned : list sn_record_t) :
  keyed_by_legacy
    (emplace_snodes decommissioned
       (fold_left (fun m si => emplace_snodes (snodes si) m) swarms [])).
Proof.
  apply emplace_snodes_keyed, emplace_swarms_keyed.
  split; [constructor | intros k sn []].
Qed.

Lemma first_with_key_In (pk : string) (l : list sn_record_t)
    (o : sn_record_t) :
  first_with_key pk l = Some o -> In o l.
Proof.
  unfold first_with_key. intro Hf. apply find_some in Hf. apply Hf.
Qed.

(** A derived key that only one funded record has finds that record. *)
Lemma find_by_index_unique (key : sn_record_t -> string)
    (visit : umap sn_record_t -> list (string * sn_record_t))
    (funded : umap sn_record_t) (sn : sn_record_t) :
  visits_all visit -> keyed_by_legacy funded ->
  um_find (pubkey_legacy sn) funded = Some sn ->
  (forall o, um_find (pubkey_legacy o) funded = Some o ->
             key o = key sn -> o = sn) ->
  match um_find (key sn) (index_by key (visit funded)) with
  | Some legacy => um_find legacy funded
  | None => None
  end = Some sn.
Proof.
  intros Hv Hkeyed Hfunded Honly.
  pose proof (find_by_index_complete key visit funded sn Hv Hkeyed Hfunded)
    as Hsome.
  destruct (match um_find (key sn) (index_by key (visit funded)) with
            | Some legacy => um_find legacy funded
            | None => None
            end) as [found|] eqn:Hfound; [|congruence].
  destruct (find_by_index_sound key visit funded (key sn) found Hv Hkeyed
              Hfound) as [Hkey Hlegacy].
  rewrite (Honly found Hlegacy Hkey). reflexivity.
Qed.

(** X8.  After [update_state] has rebuilt the indexes (the node is inactive,
    or its swarm has members), whatever the order in which the hash map is
    visited: [find_node] by legacy key answers with the first record of that
    key among the snodes of the roster followed by the decommissioned ones;
    [find_node] by ed25519 or x25519 key answers only with a funded record
    that has the requested key; the key of a funded record always finds
    some funded record, and it finds that very record when no other funded
    record has the same key.  (With a shared key the record found depends
    on the order of the visit, see [shared_key_follows_visit_order].) *)
Theorem find_node_after_update_state
    (visit : umap sn_record_t -> list (string * sn_record_t))
    (this : Swarm) (idx : SwarmIndex)
    (swarms : all_swarms_t) (decommissioned : list sn_record_t)
    (events : SwarmEvents) (active : bool) :
  visits_all visit ->
  (active = true -> our_swarm_members events <> []) ->
  let idx' :=
    snd (update_state visit this idx swarms decommissioned events active) in
  let funded (sn : sn_record_t) :=
    find_node idx' (pubkey_legacy sn) = Some sn in
  (forall pk,
      find_node idx' pk
      = first_with_key pk (all_snodes swarms ++ decommissioned)%list)
  /\ (forall k sn,
         find_node_ed25519 idx' k = Some sn ->
         pubkey_ed25519 sn = k /\ funded sn)
  /\ (forall k sn,
         find_node_x25519 idx' k = Some sn ->
         pubkey_x25519 sn = k /\ funded sn)
  /\ (forall sn,
         funded sn ->
         find_node_ed25519 idx' (pubkey_ed25519 sn) <> None
         /\ find_node_x25519 idx' (pubkey_x25519 sn) <> None)
  /\ (forall sn,
         funded sn ->
         (forall o, funded o -> pubkey_ed25519 o = pubkey_ed25519 sn ->
                    o = sn) ->
         find_node_ed25519 idx' (pubkey_ed25519 sn) = Some sn)
  /\ (forall sn,
         funded sn ->
         (forall o, funded o -> pubkey_x25519 o = pubkey_x25519 sn ->
                    o = sn) ->
         find_node_x25519 idx' (pubkey_x25519 sn) = Some sn).
Proof.
  intros Hv Hm idx' funded. subst funded idx'. unfold update_state.
  assert (Hguard :
    active && match our_swarm_members events with [] => true | _ => false end
    = false).
  { destruct active; [|reflexivity].
    destruct (our_swarm_members events); [|reflexivity].
    exfalso. apply Hm; reflexivity. }
  rewrite Hguard. cbn [snd].
  unfold find_node, find_node_ed25519, find_node_x25519.
  cbn [all_funded_nodes_ all_funded_ed25519_ all_funded_x25519_].
  assert (Hkeyed := funded_keyed swarms decommissioned).
  split; [|split; [|split; [|split; [|split]]]].
  - intro pk. rewrite um_find_emplace_snodes, um_find_emplace_swarms.
    cbn [um_find]. unfold first_with_key. rewrite find_app_first.
    reflexivity.
  - intros k sn H.
    apply (find_by_index_sound pubkey_ed25519 visit _ k sn Hv Hkeyed H).
  - intros k sn H.
    apply (find_by_index_sound pubkey_x25519 visit _ k sn Hv Hkeyed H).
  - intros sn H. split.
    + apply (find_by_index_complete pubkey_ed25519 visit _ sn Hv Hkeyed H).
    + apply (find_by_index_complete pubkey_x25519 visit _ sn Hv Hkeyed H).
  - intros sn H Honly.
    apply (find_by_index_unique pubkey_ed25519 visit _ sn Hv Hkeyed H Honly).
  - intros sn H Honly.
    apply (find_by_index_unique pubkey_x25519 visit _ sn Hv Hkeyed H Honly).
Qed.

Lemma find_node_after_update_state_witness :
  let visit := @rev (string * sn_record_t) in
  let swarms := [Fixtures.S0; Fixtures.S1] in
  let events := mkEvents 0 (snodes Fixtures.S0) [] [] false in
  let idx' :=
    snd (update_state visit (swarm_ Fixtures.this_node) (mkIndex [] [] [])
           swarms [Fixtures.snode "old"] events true) in
  visits_all visit
  /\ find_node idx' "old" = Some (Fixtures.snode "old")
  /\ find_node_ed25519 idx' "peer0" = Some (Fixtures.snode "peer0").
Proof.
  intros visit swarms events idx'.
  assert (Hv : visits_all visit).
  { intros m e. symmetry. apply in_rev. }
  split; [exact Hv|].
  destruct (find_node_after_update_state visit (swarm_ Fixtures.this_node)
              (mkIndex [] [] []) swarms [Fixtures.snode "old"] events true Hv)
    as (Hlegacy & Hsound & _ & _ & Hed & _).
  - intros _. discriminate.
  - split; [rewrite Hlegacy; reflexivity|].
    apply (Hed (Fixtures.snode "peer0")); [reflexivity|].
    intros o Hfunded Hkey.
    change (find_node idx' (pubkey_legacy o) = Some o) in Hfunded.
    rewrite Hlegacy in Hfunded. apply first_with_key_In in Hfunded.
    cbn [all_snodes flat_map snodes Fixtures.S0 Fixtures.S1 app In]
      in Hfunded.
    cbn [pubkey_ed25519 Fixtures.snode] in Hkey.
    repeat (destruct Hfunded as [<-|Hfunded];
            [try reflexivity; cbn in Hkey; discriminate|]).
    destruct Hfunded.
Defined.

(** Two funded records with one ed25519 key: which of them the key finds
    follows the order in which the map is visited. *)
Lemma shared_key_follows_visit_order :
  let a := mkSnode "10.0.0.1" 443 22020 "a" "shared" "xa" in
  let b := mkSnode "10.0.0.2" 443 22020 "b" "shared" "xb" in
  let swarms := [mkSwarmInfo 0 [a; b]] in
  let events := mkEvents 0 [a; b] [] [] false in
  let index visit :=
    snd (update_state visit (mkSwarm 0 a [] []) (mkIndex [] [] []) swarms []
           events true) in
  find_node_ed25519 (index (fun m => m)) "shared" = Some a
  /\ find_node_ed25519 (index (@rev (string * sn_record_t))) "shared"
     = Some b.
Proof. cbv zeta. split; vm_compute; reflexivity. Qed.

(** X9.  What [update_state] does to the swarm itself.  An inactive node
    keeps its swarm object as it is.  An active node takes over the new
    roster with addresses carried forward from the old one; after that, if
    the events list no member of our swarm, the call returns at once and
    leaves the peers and the three indexes as they were, and otherwise the
    peers become the members other than this node, in their order. *)
Theorem update_state_swarm
    (visit : umap sn_record_t -> list (string * sn_record_t))
    (this : Swarm) (idx : SwarmIndex)
    (swarms : all_swarms_t) (decommissioned : list sn_record_t)
    (events : SwarmEvents) :
  fst (update_state visit this idx swarms decommissioned events false) = this
  /\ let r := update_state visit this idx swarms decommissioned events true in
     all_valid_swarms_ (fst r) = apply_ips swarms (all_valid_swarms_ this)
     /\ cur_swarm_id_ (fst r) = cur_swarm_id_ this
     /\ our_address_ (fst r) = our_address_ this
     /\ (our_swarm_members events = [] ->
         snd r = idx /\ swarm_peers_ (fst r) = swarm_peers_ this)
     /\ (our_swarm_members events <> [] ->
         swarm_peers_ (fst r)
         = filter (fun sn => negb (sn_record_eqb sn (our_address_ this)))
             (our_swarm_members events)
         /\ contains_snode (swarm_peers_ (fst r)) (our_address_ this) = false).
Proof.
  split; [reflexivity|].
  unfold update_state. cbn [andb].
  destruct (our_swarm_members events) as [|m ms] eqn:Hmem.
  - cbn [fst snd apply_swarm_changes all_valid_swarms_ cur_swarm_id_
         our_address_ swarm_peers_].
    split; [reflexivity|]. split; [reflexivity|]. split; [reflexivity|].
    split; [intros _; split; reflexivity|].
    intro H. exfalso. apply H. reflexivity.
  - cbn [fst snd apply_swarm_changes all_valid_swarms_ cur_swarm_id_
         our_address_ swarm_peers_].
    split; [reflexivity|]. split; [reflexivity|]. split; [reflexivity|].
    split; [discriminate|].
    intros _. split; [reflexivity|].
    unfold contains_snode. clear Hmem.
    induction (m :: ms) as [|x l IH]; [reflexivity|].
    cbn [filter]. destruct (sn_record_eqb x (our_address_ this)) eqn:E;
      cbn [negb]; [exact IH|].
    cbn [existsb]. rewrite E. exact IH.
Qed.


(** ** The other cipher: XChaCha20-Poly1305 *)

Section XChaCha20Facts.
Context `{CryptoLib}.
Variables alice bob : ChannelEncryption.

Hypothesis x25519_agrees :
  crypto_scalarmult (private_key_ bob) (public_key_ alice)
  = crypto_scalarmult (private_key_ alice) (public_key_ bob).
Hypothesis xchacha20_opens : forall m n k,
  crypto_aead_xchacha20poly1305_ietf_decrypt
    (crypto_aead_xchacha20poly1305_ietf_encrypt m n k) n k = Some m.
Hypothesis xchacha20_tag_length : forall m n k,
  size (crypto_aead_xchacha20poly1305_ietf_encrypt m n k) = size m + 16.
Hypothesis xchacha20_nonce_length : size (randombytes_buf 24) = 24.

(** X10.  The XChaCha20-Poly1305 pair, which the dispatch never reaches,
    does round-trip when called directly: under the laws of the primitives,
    what [encrypt_xchacha20] of one side produces for the other side's
    public key, [decrypt_xchacha20] of the other side opens with the first
    side's public key.  Both sides hash the shared secret with the sender's
    public key first. *)
Theorem xchacha20_round_trip (text c : string) :
  size text <= string_max_size ->
  encrypt_xchacha20 alice text (public_key_ bob) = Ok c ->
  decrypt_xchacha20 bob c (public_key_ alice) = Ok text.
Proof.
  intros Hfits Henc.
  pose proof (size_nonneg text) as Htext.
  unfold encrypt_xchacha20 in Henc. unfold decrypt_xchacha20.
  unfold xchacha20_shared_key in *.
  apply bind_ok in Henc. destruct Henc as ([] & _ & Henc).
  rewrite x25519_agrees.
  destruct (crypto_scalarmult (private_key_ alice) (public_key_ bob))
    as [secret|]; [|discriminate].
  cbn [bind] in *. injection Henc as <-.
  unfold crypto_aead_xchacha20poly1305_ietf_NPUBBYTES,
    crypto_aead_xchacha20poly1305_ietf_ABYTES in *.
  set (key := crypto_generichash [secret; public_key_ alice; public_key_ bob]).
  destruct (split_prefix 24 (randombytes_buf 24)
              (crypto_aead_xchacha20poly1305_ietf_encrypt text
                 (randombytes_buf 24) key))
    as [-> ->]; [exact xchacha20_nonce_length|].
  rewrite xchacha20_tag_length, xchacha20_opens.
  destruct (Z.ltb_spec (size text + 16) 16); [lia|].
  unfold resize.
  destruct (Z.ltb_spec string_max_size (size text + 16 - 16)); [lia|].
  reflexivity.
Qed.

End XChaCha20Facts.

Lemma xchacha20_round_trip_witness :
  let client := mkChannel "client-sec" "client-pub" in
  let c := "nonce-nonce-nonce-nonce-hello0123456789abcdef" in
  @encrypt_xchacha20 Fixtures.crypto_lib client "hello" "node-pub" = Ok c
  /\ @decrypt_xchacha20 Fixtures.crypto_lib Fixtures.node_keys c "client-pub"
     = Ok "hello".
Proof.
  intros client c.
  assert (Henc : @encrypt_xchacha20 Fixtures.crypto_lib client "hello"
                    "node-pub" = Ok c) by (vm_compute; reflexivity).
  split; [exact Henc|].
  apply (@xchacha20_round_trip Fixtures.crypto_lib client Fixtures.node_keys).
  - reflexivity.
  - intros m n k. apply untag_tagged.
  - intros m n k. unfold size. cbn. rewrite length_append. cbn. lia.
  - vm_compute. reflexivity.
  - vm_compute. discriminate.
  - exact Henc.
Defined.

Section XChaCha20Guard.
Context `{CryptoLib}.

(** X11.  [decrypt_xchacha20] checks the length before anything else: an
    input of fewer than 24 + 16 bytes is refused with [Invalid ciphertext:
    too short], whatever the keys, so that the length given to [resize]
    never wraps around (unlike in [decrypt_gcm]). *)
Theorem decrypt_xchacha20_short_input
    (ce : ChannelEncryption) (ciphertext pubKey : string) :
  size ciphertext < 40 ->
  decrypt_xchacha20 ce ciphertext pubKey
  = Throw (runtime_error "Invalid ciphertext: too short").
Proof.
  intros Hshort. pose proof (size_nonneg ciphertext) as Hs.
  unfold decrypt_xchacha20, crypto_aead_xchacha20poly1305_ietf_NPUBBYTES,
    crypto_aead_xchacha20poly1305_ietf_ABYTES.
  rewrite size_remove_prefix; rewrite size_substr0 by lia; [|lia].
  destruct (Z.ltb_spec (size ciphertext - Z.min 24 (size ciphertext)) 16);
    [reflexivity | lia].
Qed.

End XChaCha20Guard.

Lemma decrypt_xchacha20_short_input_witness :
  size "nonce-nonce-nonce-nonce-0123456789abcde" < 40
  /\ @decrypt_xchacha20 Fixtures.crypto_lib Fixtures.node_keys
       "nonce-nonce-nonce-nonce-0123456789abcde" "client-pub"
     = Throw (runtime_error "Invalid ciphertext: too short").
Proof.
  assert (Hshort : size "nonce-nonce-nonce-nonce-0123456789abcde" < 40)
    by (vm_compute; reflexivity).
  split; [exact Hshort|].
  apply (@decrypt_xchacha20_short_input Fixtures.crypto_lib). exact Hshort.
Defined.

(** ** Peer statistics: [cleanup_old] *)

Section StatsFacts.
Variable test_result_t : Type.
Variable timestamp : test_result_t -> Z.

Lemma cleanup_old_split (tests : list test_result_t) (cutoff_time : Z) :
  exists erased,
    tests = (erased ++ cleanup_old test_result_t timestamp tests cutoff_time)%list
    /\ Forall (fun res => timestamp res <= cutoff_time) erased.
Proof.
  induction tests as [|res rest IH]; cbn [cleanup_old].
  - exists []. split; [reflexivity | constructor].
  - destruct (Z.gtb_spec (timestamp res) cutoff_time) as [Hnew|Hold].
    + exists []. split; [reflexivity | constructor].
    + destruct IH as (erased & Heq & Hall).
      exists (res :: erased). split.
      * cbn [app]. f_equal. exact Heq.
      * constructor; [lia | exact Hall].
Qed.

(** X12.  [cleanup_old] erases a prefix of the deque and nothing else: the
    results erased are all at or before the cutoff, what is left is the
    rest of the deque in its order, and the first result left, if any, is
    newer than the cutoff.  A result at or before the cutoff that follows a
    newer one is therefore kept. *)
Theorem cleanup_old_erases_prefix
    (tests : list test_result_t) (cutoff_time : Z) :
  let kept := cleanup_old test_result_t timestamp tests cutoff_time in
  (exists erased,
      tests = (erased ++ kept)%list
      /\ Forall (fun res => timestamp res <= cutoff_time) erased)
  /\ match kept with
     | [] => True
     | first :: _ => timestamp first > cutoff_time
     end.
Proof.
  cbn zeta. split; [apply cleanup_old_split|].
  induction tests as [|res rest IH]; cbn [cleanup_old]; [exact I|].
  destruct (Z.gtb_spec (timestamp res) cutoff_time) as [Hnew|Hold];
    [lia | exact IH].
Qed.

(** X13.  On a deque in the order of its timestamps, [cleanup_old] keeps
    exactly the results newer than the cutoff. *)
Theorem cleanup_old_in_time_order
    (tests : list test_result_t) (cutoff_time : Z) :
  in_time_order test_result_t timestamp tests ->
  cleanup_old test_result_t timestamp tests cutoff_time
  = filter (fun res => timestamp res >? cutoff_time) tests.
Proof.
  induction tests as [|res rest IH]; cbn [cleanup_old in_time_order filter];
    [reflexivity|].
  intros [Hres Hrest].
  destruct (Z.gtb_spec (timestamp res) cutoff_time) as [Hnew|Hold].
  - f_equal. clear IH Hrest.
    induction rest as [|r rest IHr]; cbn [filter]; [reflexivity|].
    inversion Hres as [|? ? Hr Hres']; subst.
    destruct (Z.gtb_spec (timestamp r) cutoff_time) as [_|Hle]; [|lia].
    f_equal. apply IHr. exact Hres'.
  - apply IH. exact Hrest.
Qed.

End StatsFacts.

Lemma cleanup_old_in_time_order_witness :
  in_time_order Z (fun t => t) [10; 20; 20; 35]
  /\ cleanup_old Z (fun t => t) [10; 20; 20; 35] 20 = [35].
Proof.
  assert (Horder : in_time_order Z (fun t => t) [10; 20; 20; 35]).
  { cbn [in_time_order]. repeat split; repeat constructor; lia. }
  split; [exact Horder|].
  rewrite (cleanup_old_in_time_order Z (fun t => t) _ 20 Horder).
  reflexivity.
Defined.


(** ** The combined payload *)

Lemma byte_at_head (c : ascii) (s : string) :
  byte_at 0 (String c s) = Z.of_N (N_of_ascii c).
Proof. reflexivity. Qed.

Lemma byte_at_tail (i : nat) (c : ascii) (s : string) :
  byte_at (S i) (String c s) = byte_at i s.
Proof. reflexivity. Qed.

Lemma char_of_byte (b : Z) :
  0 <= b < 2 ^ 8 -> Z.of_N (N_of_ascii (byte_char b)) = b.
Proof.
  intros Hb. unfold byte_char.
  rewrite N_ascii_embedding by (change 256%N with (Z.to_N 256); lia).
  apply Z2N.id. lia.
Qed.

Lemma byte_at_range (i : nat) (s : string) : 0 <= byte_at i s < 2 ^ 8.
Proof.
  unfold byte_at. destruct (String.get i s) as [c|]; [|lia].
  pose proof (N_ascii_bounded c) as Hc.
  change (2 ^ 8) with (Z.of_N 256). lia.
Qed.

Lemma read_u32_le_range (s : string) : 0 <= read_u32_le s < 2 ^ 32.
Proof.
  unfold read_u32_le.
  pose proof (byte_at_range 0 s). pose proof (byte_at_range 1 s).
  pose proof (byte_at_range 2 s). pose proof (byte_at_range 3 s).
  lia.
Qed.

Lemma read_u32_le_le32 (n : Z) (rest : string) :
  0 <= n < 2 ^ 32 -> read_u32_le (le32 n ++ rest) = n.
Proof.
  intros Hn. unfold read_u32_le, le32. cbn [append].
  rewrite !byte_at_tail, !byte_at_head.
  rewrite !char_of_byte by (apply Z.mod_pos_bound; lia).
  change (2 ^ 8) with 256. change (2 ^ 16) with 65536.
  change (2 ^ 24) with 16777216. change (2 ^ 32) with 4294967296 in Hn.
  Z.to_euclidean_division_equations. lia.
Qed.

Lemma byte_of_char (c : ascii) : byte_char (Z.of_N (N_of_ascii c)) = c.
Proof. unfold byte_char. rewrite N2Z.id. apply ascii_N_embedding. Qed.

Lemma le32_read_u32_le (a b c d : ascii) (rest : string) :
  le32 (read_u32_le (String a (String b (String c (String d rest)))))
  = substr0 4 (String a (String b (String c (String d rest)))).
Proof.
  unfold read_u32_le. rewrite !byte_at_tail, !byte_at_head.
  pose proof (byte_at_range 0 (String a EmptyString)) as Ha.
  pose proof (byte_at_range 0 (String b EmptyString)) as Hb.
  pose proof (byte_at_range 0 (String c EmptyString)) as Hc.
  pose proof (byte_at_range 0 (String d EmptyString)) as Hd.
  rewrite byte_at_head in Ha, Hb, Hc, Hd.
  rewrite <- (byte_of_char a) at 2. rewrite <- (byte_of_char b) at 2.
  rewrite <- (byte_of_char c) at 2. rewrite <- (byte_of_char d) at 2.
  set (a0 := Z.of_N (N_of_ascii a)) in *.
  set (b0 := Z.of_N (N_of_ascii b)) in *.
  set (c0 := Z.of_N (N_of_ascii c)) in *.
  set (d0 := Z.of_N (N_of_ascii d)) in *.
  unfold le32, substr0. change (Z.to_nat 4) with 4%nat.
  cbn [String.substring].
  change (2 ^ 8) with 256 in *. change (2 ^ 16) with 65536.
  change (2 ^ 24) with 16777216.
  set (n := a0 + 256 * b0 + 65536 * c0 + 16777216 * d0).
  assert (E0 : n mod 256 = a0)
    by (subst n; Z.to_euclidean_division_equations; lia).
  assert (E1 : n / 256 mod 256 = b0)
    by (subst n; Z.to_euclidean_division_equations; lia).
  assert (E2 : n / 65536 mod 256 = c0)
    by (subst n; Z.to_euclidean_division_equations; lia).
  assert (E3 : n / 16777216 mod 256 = d0)
    by (subst n; Z.to_euclidean_division_equations; lia).
  rewrite E0, E1, E2, E3. destruct rest; reflexivity.
Qed.

Lemma substring_take_drop (n : nat) (s : string) :
  String.substring 0 n s ++ string_drop n s = s.
Proof.
  revert n. induction s as [|c s IH]; intros [|n]; cbn; try reflexivity.
  rewrite IH. reflexivity.
Qed.

Lemma substring_is_drop (n : nat) (s : string) :
  String.substring n (String.length s - n) s = string_drop n s.
Proof.
  revert n. induction s as [|c s IH]; intros [|n]; cbn [string_drop].
  - reflexivity.
  - reflexivity.
  - rewrite Nat.sub_0_r. apply substring_full.
  - cbn. apply IH.
Qed.

Lemma string_drop_drop (a b : nat) (s : string) :
  string_drop a (string_drop b s) = string_drop (b + a) s.
Proof.
  revert s. induction b as [|b IH]; intros s; [reflexivity|].
  destruct s as [|c s]; cbn [string_drop Nat.add].
  - destruct a; reflexivity.
  - apply IH.
Qed.

Lemma remove_prefix_drop (n : Z) (s : string) :
  remove_prefix n s = string_drop (Z.to_nat n) s.
Proof. unfold remove_prefix. apply substring_is_drop. Qed.

Lemma size_append (a b : string) : size (a ++ b) = size a + size b.
Proof. unfold size. rewrite length_append. lia. Qed.

Section CombinedPayload.
Context `{JsonLib} `{OnionDecls}.

(** X15.  [parse_combined_payload] reads back what the layout holds: for a
    ciphertext of fewer than 2^32 bytes followed by a JSON text, it returns
    that ciphertext and the parsed JSON, or the exception of the JSON
    parser. *)
Theorem parse_combined_payload_reads_layout (ciphertext json_text : string) :
  size ciphertext < 2 ^ 32 ->
  parse_combined_payload (combined_payload ciphertext json_text)
  = (json <- parse_throwing json_text ;; Ok (ciphertext, json)).
Proof.
  intros Hsize. pose proof (size_nonneg ciphertext) as Hc.
  pose proof (size_nonneg json_text) as Ht.
  unfold parse_combined_payload, combined_payload.
  assert (Hhead : size (le32 (size ciphertext)) = 4) by reflexivity.
  rewrite read_u32_le_le32 by lia.
  rewrite !size_append, Hhead.
  destruct (Z.ltb_spec (4 + (size ciphertext + size json_text)) 4); [lia|].
  destruct (split_prefix 4 (le32 (size ciphertext))
              (ciphertext ++ json_text) Hhead) as [_ Hrest].
  rewrite Hhead in Hrest. rewrite Hrest, size_append.
  destruct (Z.ltb_spec (size ciphertext + size json_text) (size ciphertext));
    [lia|].
  destruct (split_prefix (size ciphertext) ciphertext json_text eq_refl)
    as [-> ->].
  reflexivity.
Qed.

(** X16.  Whatever [parse_combined_payload] accepts has that layout: the
    payload is its first four bytes, the ciphertext returned and a text
    whose parse is the JSON returned, and the four bytes give the length of
    the ciphertext. *)
Theorem parse_combined_payload_layout
    (payload ciphertext : string) (j : json) :
  parse_combined_payload payload = Ok (ciphertext, j) ->
  exists json_text,
    payload = combined_payload ciphertext json_text
    /\ size ciphertext = read_u32_le payload
    /\ json_parse json_text = Some j.
Proof.
  unfold parse_combined_payload.
  pose proof (size_nonneg payload) as Hp.
  pose proof (read_u32_le_range payload) as Hn.
  destruct (Z.ltb_spec (size payload) 4) as [|H4]; [discriminate|].
  assert (Hrest : size (remove_prefix 4 payload) = size payload - 4)
    by (apply size_remove_prefix; lia).
  destruct (Z.ltb_spec (size (remove_prefix 4 payload)) (read_u32_le payload))
    as [|Hfits]; [discriminate|].
  set (n := read_u32_le payload) in *.
  intros Hparse. apply bind_ok in Hparse.
  destruct Hparse as (j' & Hjson & Hret). injection Hret as <- <-.
  assert (Hsize : size (substr0 n (remove_prefix 4 payload)) = n)
    by (rewrite size_substr0; lia).
  exists (remove_prefix (size (substr0 n (remove_prefix 4 payload)))
            (remove_prefix 4 payload)).
  split; [|split].
  - unfold combined_payload. rewrite Hsize.
    assert (Htail : substr0 n (remove_prefix 4 payload)
                    ++ remove_prefix n (remove_prefix 4 payload)
                    = remove_prefix 4 payload).
    { unfold substr0. rewrite (remove_prefix_drop n).
      apply substring_take_drop. }
    rewrite Htail.
    assert (Hhead : le32 n = substr0 4 payload).
    { subst n. unfold size in H4.
      destruct payload as [|a [|b [|c [|d rest]]]]; cbn in H4; try lia.
      apply le32_read_u32_le. }
    rewrite Hhead. unfold substr0. rewrite (remove_prefix_drop 4).
    symmetry. apply substring_take_drop.
  - exact Hsize.
  - unfold parse_throwing in Hjson.
    destruct (json_parse _) as [j0|]; [|discriminate].
    injection Hjson as ->. reflexivity.
Qed.

End CombinedPayload.


Lemma parse_combined_payload_reads_layout_witness :
  let j := JObject [("headers", JString EmptyString)] in
  size "ciphertext" < 2 ^ 32
  /\ @parse_combined_payload Fixtures.json_lib
       (combined_payload "ciphertext" (Fixtures.dump j))
     = Ok ("ciphertext", j).
Proof.
  intro j.
  assert (Hsize : size "ciphertext" < 2 ^ 32) by (vm_compute; reflexivity).
  split; [exact Hsize|].
  rewrite (@parse_combined_payload_reads_layout Fixtures.json_lib
             "ciphertext" (Fixtures.dump j) Hsize).
  vm_compute. reflexivity.
Defined.

Lemma parse_combined_payload_layout_witness :
  let j := JObject [("destination", JString "ff")] in
  let payload := Fixtures.frame "next hop" j in
  @parse_combined_payload Fixtures.json_lib payload = Ok ("next hop", j)
  /\ exists json_text,
       payload = combined_payload "next hop" json_text
       /\ size "next hop" = read_u32_le payload
       /\ Fixtures.parse json_text = Some j.
Proof.
  intros j payload.
  assert (Hparse : @parse_combined_payload Fixtures.json_lib payload
                   = Ok ("next hop", j)) by (vm_compute; reflexivity).
  split; [exact Hparse|].
  exact (@parse_combined_payload_layout Fixtures.json_lib payload
           "next hop" j Hparse).
Defined.


(** ** What an onion request carries on *)

Section OnionDispatchFacts.
Context `{JsonLib} `{CryptoLib} `{OnionDecls}.

Ltac binds H :=
  repeat (apply bind_ok in H; destruct H as (? & ? & H)).

Lemma parse_enc_type_aes (name : string) (type : EncryptType) :
  parse_enc_type name = Ok type -> type <> xchacha20.
Proof.
  unfold parse_enc_type.
  destruct (String.eqb name "aes-gcm" || String.eqb name "gcm");
    [intros [= <-]; discriminate|].
  destruct (String.eqb name "aes-cbc" || String.eqb name "cbc");
    [intros [= <-]; discriminate | discriminate].
Qed.

Lemma get_uint16_range (j : json) (port : Z) :
  get_uint16 j = Ok port -> 0 <= port < 2 ^ 16.
Proof.
  destruct j as [| b | z | | | |]; cbn [get_uint16]; try discriminate.
  - intros [= <-]. destruct b; lia.
  - intros [= <-]. unfold wrap16. apply Z.mod_pos_bound. lia.
Qed.

Lemma classify_inner_carries_on (plaintext : string) (parsed : ParsedInfo) :
  classify_inner plaintext = Ok parsed -> carries_on plaintext parsed.
Proof.
  unfold classify_inner. intros Hc.
  apply bind_ok in Hc. destruct Hc as ([ciphertext j] & Hparse & Hc).
  destruct (count "headers" j).
  - binds Hc. injection Hc as <-. cbn [carries_on fd_body].
    exists j. exact Hparse.
  - destruct (find "host" j) as [it|].
    + binds Hc. injection Hc as <-. cbn [carries_on rs_payload rs_port].
      split; [reflexivity|].
      match goal with
      | Hp : optional_field "port" get_uint16 443 j = Ok _ |- _ =>
          unfold optional_field in Hp;
          destruct (find "port" j);
          [apply get_uint16_range in Hp; exact Hp
          | injection Hp as <-; lia]
      end.
    + binds Hc. injection Hc as <-.
      cbn [carries_on rn_ciphertext rn_enc_type].
      split; [exists j; exact Hparse|].
      match goal with
      | Ht : optional_field "enc_type" _ aes_gcm j = Ok _ |- _ =>
          unfold optional_field in Ht;
          destruct (find "enc_type" j);
          [ binds Ht; apply parse_enc_type_aes in Ht; exact Ht
          | injection Ht as <-; discriminate ]
      end.
Qed.

Lemma process_inner_request_carries (plaintext : string) :
  carries_on plaintext (process_inner_request plaintext).
Proof.
  unfold process_inner_request.
  destruct (classify_inner plaintext) as [parsed|e] eqn:Hc.
  - apply classify_inner_carries_on. exact Hc.
  - reflexivity.
Qed.

(** X17.  What [process_inner_request] hands on.  A terminal hop gets the
    ciphertext part of the payload as its body; a relay to a node gets the
    ciphertext part too, and never with the xchacha20 encryption type; a
    relay to a server gets the whole plaintext, length prefix and JSON
    included, and a port below 2^16; and the only error it reports is
    INVALID_JSON, also when the payload is too short to hold the length. *)
Theorem process_inner_request_hands_on (plaintext : string) :
  match process_inner_request plaintext with
  | FinalDestination info =>
      exists j, parse_combined_payload plaintext = Ok (fd_body info, j)
  | RelayToNode info =>
      (exists j, parse_combined_payload plaintext = Ok (rn_ciphertext info, j))
      /\ rn_enc_type info <> xchacha20
  | RelayToServer info =>
      rs_payload info = plaintext /\ 0 <= rs_port info < 2 ^ 16
  | ParseError e => e = INVALID_JSON
  end
  /\ (size plaintext < 4 ->
      process_inner_request plaintext = ParseError INVALID_JSON).
Proof.
  split; [exact (process_inner_request_carries plaintext)|].
  intros Hshort. unfold process_inner_request, classify_inner,
    parse_combined_payload.
  destruct (Z.ltb_spec (size plaintext) 4); [reflexivity | lia].
Qed.

Variable service_node_find_node : string -> option sn_record_t.
Variable own_address : sn_record_t.

(** X19.  Where an onion request can end up.  A node that is not ready
    answers 503 and does nothing else.  A ready node forwards to a URL only
    a decrypted plaintext whose target passes [is_server_url_allowed], sends
    on to a node only the ciphertext part of a decrypted payload, to a node
    that [find_node] knows, with an AES encryption type, and lets a request
    exit only with the ciphertext part of a decrypted payload and the
    metadata it came with; a ciphertext that does not decrypt is answered
    with a plain 400. *)
Theorem process_onion_req_steps
    (ready : bool) (channel_cipher_ : ChannelEncryption)
    (ciphertext : string) (data : OnionRequestMetadata) :
  let opened :=
    decrypt channel_cipher_ (md_enc_type data) ciphertext
      (md_ephem_key data) in
  let step :=
    process_onion_req service_node_find_node own_address ready
      channel_cipher_ ciphertext data in
  (ready = false ->
   step = Cb (text_response SERVICE_UNAVAILABLE
                ("Snode not ready: " ++ pubkey_ed25519 own_address)))
  /\ (ready = true ->
      (forall e, opened = Throw e ->
                 step = Cb (text_response BAD_REQUEST "Invalid ciphertext"))
      /\ match step with
         | ProcessOnionToUrl protocol host port target payload =>
             opened = Ok payload
             /\ is_server_url_allowed target = true
             /\ 0 <= port < 2 ^ 16
         | SendOnionToSn dest_node payload data' =>
             (exists text j,
                 opened = Ok text
                 /\ parse_combined_payload text = Ok (payload, j))
             /\ (exists next, service_node_find_node next = Some dest_node)
             /\ md_enc_type data' <> xchacha20
         | ProcessOnionExit body _ _ data' =>
             (exists text j,
                 opened = Ok text
                 /\ parse_combined_payload text = Ok (body, j))
             /\ data' = data
         | Cb res =>
             status res = BAD_REQUEST \/ status res = BAD_GATEWAY
             \/ status res = OK
         | Raised e => True
         end).
Proof.
  cbn zeta. unfold process_onion_req, process_ciphertext_v2.
  split; [intros ->; reflexivity|]. intros ->. cbn [negb].
  destruct (decrypt channel_cipher_ (md_enc_type data) ciphertext
              (md_ephem_key data)) as [text|e0] eqn:Hopen.
  - split; [discriminate|].
    pose proof (process_inner_request_carries text) as Hcarry.
    destruct (process_inner_request text) as [info|info|info|[]];
      cbn [carries_on process_onion_req_parsed] in *.
    + destruct Hcarry as [j Hj]. split; [|reflexivity].
      exists text, j. split; [reflexivity | exact Hj].
    + destruct Hcarry as [[j Hj] Htype].
      destruct (service_node_find_node (rn_next_node info)) as [dest|] eqn:Hf.
      * split; [exists text, j; split; [reflexivity | exact Hj]|].
        split; [exists (rn_next_node info); exact Hf | exact Htype].
      * right. left. reflexivity.
    + destruct Hcarry as [Hpayload Hport].
      destruct (is_server_url_allowed (rs_target info)) eqn:Hurl.
      * rewrite Hpayload. split; [reflexivity|].
        split; [exact Hurl | exact Hport].
      * unfold wrap_proxy_response.
        destruct (encrypt _ _ _ _); cbn [bind cb_of status]; auto.
    + discriminate.
    + unfold wrap_proxy_response.
      destruct (encrypt _ _ _ _); cbn [bind cb_of status]; auto.
  - split; [intros e _; reflexivity|].
    cbn [process_onion_req_parsed status text_response]. left. reflexivity.
Qed.

End OnionDispatchFacts.

(** ** What reaches the message store *)

Section StoreFacts.
Context `{JsonLib} `{CryptoLib} `{ServiceDecls}.

(** The answer of [process_store] once the store has been asked. *)
Local Notation "'answer_of' stored" :=
  (match stored with
   | Throw e => text_response INTERNAL_SERVER_ERROR (what e)
   | Ok false =>
       text_response SERVICE_UNAVAILABLE
         ("Service node is initializing" ++ nl)
   | Ok true =>
       mkResponse OK (json_dump (set "difficulty" (JInt 1) JNull))
         json_content
   end) (at level 10, only parsing).

(** X20.  [process_store] touches the message store in one way only: by
    giving [ServiceNode::process_store] one message.  That message is for a
    pubkey of our swarm, its body is the [data] field and no longer than
    [MAX_MESSAGE_BODY], and its hash is computed from the four fields as
    they were sent.  The answer then follows what the store reports: 200
    with the difficulty for success, 503 while the node is initializing,
    500 with the message of an exception.  An answer of 400, 403, 406 or
    421 leaves the store as it was, and is the only answer given without
    asking the store. *)
Theorem process_store_stores
    (sn : ServiceNode) (params : json) (db db' : Store) (res : Response) :
  process_store sn params db = Ok (res, db') ->
  (In (status res)
      [BAD_REQUEST; MISDIRECTED_REQUEST; FORBIDDEN; NOT_ACCEPTABLE] ->
   db' = db)
  /\ ((db' = db
       /\ In (status res)
            [BAD_REQUEST; MISDIRECTED_REQUEST; FORBIDDEN; NOT_ACCEPTABLE])
      \/ exists msg stored ttl timestamp pk_str,
           store_message msg db = (stored, db')
           /\ string_at "ttl" params = Ok ttl
           /\ string_at "timestamp" params = Ok timestamp
           /\ string_at "data" params = Ok (msg_data msg)
           /\ string_at "pubKey" params = Ok pk_str
           /\ user_pubkey_create pk_str = Some (msg_pub_key msg)
           /\ sn_is_pubkey_for_us sn (msg_pub_key msg) = true
           /\ size (msg_data msg) <= MAX_MESSAGE_BODY
           /\ msg_hash msg
              = computeMessageHash timestamp ttl (msg_pub_key msg)
                  (msg_data msg)
           /\ res = answer_of stored
           /\ (status res = OK <-> stored = Ok true)).
Proof.
  unfold process_store. intros Hp.
  destruct (first_missing ["pubKey"; "ttl"; "timestamp"; "data"] params).
  { injection Hp as <- <-.
    split; [reflexivity|]. left. split; [reflexivity | cbn; auto]. }
  apply bind_ok in Hp. destruct Hp as (ttl & Httl & Hp).
  apply bind_ok in Hp. destruct Hp as (timestamp & Hts & Hp).
  apply bind_ok in Hp. destruct Hp as (data & Hdata & Hp).
  apply bind_ok in Hp. destruct Hp as (pk_str & Hpk & Hp).
  destruct (user_pubkey_create pk_str) as [pk|] eqn:Hcreate.
  2: { injection Hp as <- <-.
       split; [reflexivity|]. left. split; [reflexivity | cbn; auto]. }
  destruct (Z.gtb_spec (size data) MAX_MESSAGE_BODY) as [|Hfits].
  { injection Hp as <- <-.
    split; [reflexivity|]. left. split; [reflexivity | cbn; auto]. }
  destruct (sn_is_pubkey_for_us sn pk) eqn:Hus; cbn [negb] in Hp.
  2: { injection Hp as <- <-.
       split; [reflexivity|]. left. split; [reflexivity | cbn; auto]. }
  destruct (parseTTL ttl) as [ttlInt|].
  2: { injection Hp as <- <-.
       split; [reflexivity|]. left. split; [reflexivity | cbn; auto]. }
  destruct (parseTimestamp timestamp ttlInt) as [timestampInt|].
  2: { injection Hp as <- <-.
       split; [reflexivity|]. left. split; [reflexivity | cbn; auto 6]. }
  set (msg := mkMessage pk data
                (computeMessageHash timestamp ttl pk data)
                ttlInt timestampInt) in *.
  destruct (store_message msg db) as [stored db1] eqn:Hstore.
  assert (Hdb : db1 = db' /\ res = answer_of stored).
  { destruct stored as [[|]|e]; injection Hp as <- <-;
      split; reflexivity. }
  destruct Hdb as [-> ->].
  assert (Hok : status (answer_of stored) = OK <-> stored = Ok true).
  { destruct stored as [[|]|e]; cbn [status text_response];
      split; intro Hs; try reflexivity; discriminate. }
  split.
  { intros Hin. exfalso.
    destruct stored as [[|]|e]; cbn [status text_response In] in Hin;
      repeat (destruct Hin as [Hin|Hin]; [discriminate|]); exact Hin. }
  right.
  exists msg, stored, ttl, timestamp, pk_str.
  repeat split; try assumption; try reflexivity; apply Hok.
Qed.

End StoreFacts.


(** A message for our swarm is stored and answered with 200; a request
    without its [data] is answered with 400 and nothing is stored. *)
Lemma process_store_stores_witness :
  let stored :=
    JObject [("pubKey", JString (Fixtures.pubkey_ending Fixtures.zeros16));
             ("ttl", JString "86400000");
             ("timestamp", JString "0");
             ("data", JString "hi")] in
  let refused :=
    JObject [("pubKey", JString (Fixtures.pubkey_ending Fixtures.zeros16));
             ("ttl", JString "86400000");
             ("timestamp", JString "0")] in
  let process params :=
    @process_store Fixtures.json_lib Fixtures.service_decls
      Fixtures.this_node params [] in
  (exists res db',
      process stored = Ok (res, db')
      /\ status res = OK /\ List.length db' = 1%nat)
  /\ (exists res db',
         process refused = Ok (res, db')
         /\ status res = BAD_REQUEST /\ db' = []).
Proof.
  intros stored refused process. split.
  - destruct (process stored) as [[res db']|e] eqn:Hp;
      [|vm_compute in Hp; discriminate].
    exists res, db'. split; [reflexivity|].
    split; vm_compute in Hp; injection Hp as <- <-; reflexivity.
  - destruct (process refused) as [[res db']|e] eqn:Hp;
      [|vm_compute in Hp; discriminate].
    exists res, db'. split; [reflexivity|].
    assert (Hstatus : status res = BAD_REQUEST)
      by (vm_compute in Hp; injection Hp as <- _; reflexivity).
    split; [exact Hstatus|].
    apply (@process_store_stores Fixtures.json_lib Fixtures.service_decls
             Fixtures.this_node refused [] db' res Hp).
    rewrite Hstatus. cbn. auto.
Defined.


(** ** A well-formed client request *)

Section ClientRequestWellFormed.
Context `{JsonLib} `{ServiceDecls}.

Lemma reply_with_once (done : list handled) (db : Store)
    (r : result (Response * Store)) :
  match finish (reply_with done db r) with
  | Returned =>
      List.length (events (reply_with done db r)) = S (List.length done)
  | Threw _ =>
      events (reply_with done db r) = done
      /\ store_after (reply_with done db r) = db
  | Undefined => False
  end.
Proof.
  destruct r as [[res db']|e]; cbn [reply_with finish events store_after].
  - rewrite length_app. cbn. lia.
  - split; reflexivity.
Qed.

(** X21.  A request whose [method] is a string and whose [params] is an
    object is answered once: when [process_client_req] returns, the
    callback has been used exactly once (called, or handed to the daemon
    request); when an exception leaves it, the callback has not been used
    and the store is unchanged; no iterator is dereferenced at [end()].
    Only the [store] method changes the message store. *)
Theorem process_client_req_well_formed
    (sn : ServiceNode) (db : Store) (req_json : string)
    (body params : json) (method_name : string) :
  json_parse req_json = Some body ->
  find "method" body = Some (JString method_name) ->
  find "params" body = Some params ->
  is_object params = true ->
  let r := process_client_req sn req_json db in
  match finish r with
  | Returned => List.length (events r) = 1%nat
  | Threw _ => events r = [] /\ store_after r = db
  | Undefined => False
  end
  /\ (method_name <> "store" -> store_after r = db).
Proof.
  intros Hparse Hmethod Hparams Hobj r. subst r.
  unfold process_client_req, parse_noexcept. rewrite Hparse.
  assert (Hbody : eq_value_t_discarded body = false)
    by (destruct body; try reflexivity; discriminate).
  rewrite Hbody, Hmethod, Hparams, Hobj.
  cbn [is_string negb app with_deref deref get_string].
  destruct (String.eqb method_name "store") eqn:Estore.
  { split; [apply (reply_with_once [])|].
    apply String.eqb_eq in Estore. congruence. }
  destruct (String.eqb method_name "retrieve").
  { split; [apply (reply_with_once [])|]. intros _.
    unfold process_retrieve.
    destruct (first_missing _ params); [reflexivity|].
    destruct (string_at "pubKey" params) as [pk_str|]; [|reflexivity].
    cbn [bind]. destruct (user_pubkey_create pk_str) as [pk|]; [|reflexivity].
    destruct (negb (sn_is_pubkey_for_us sn pk)); [reflexivity|].
    destruct (string_at "lastHash" params) as [last|]; [|reflexivity].
    cbn [bind]. destruct (retrieve_messages pk last db); reflexivity. }
  destruct (String.eqb method_name "get_snodes_for_pubkey").
  { split; [apply (reply_with_once [])|]. intros _.
    destruct (process_snodes_by_pk sn params); reflexivity. }
  destruct (String.eqb method_name "oxend_request").
  { split; [reflexivity|]. intros _. reflexivity. }
  destruct (String.eqb method_name "get_lns_mapping").
  { destruct (find "name_hash" params) as [name|];
      [destruct (get_string name)|]; repeat split; reflexivity. }
  split; [reflexivity|]. intros _. reflexivity.
Qed.

End ClientRequestWellFormed.


Lemma process_client_req_well_formed_witness :
  let lib := Fixtures.json_lib_with [Fixtures.lookup_request] in
  let r :=
    @process_client_req lib Fixtures.service_decls Fixtures.this_node
      (Fixtures.dump Fixtures.lookup_request) [] in
  finish r = Returned
  /\ List.length (events r) = 1%nat
  /\ store_after r = [].
Proof.
  intros lib r.
  destruct (@process_client_req_well_formed lib Fixtures.service_decls
              Fixtures.this_node [] (Fixtures.dump Fixtures.lookup_request)
              Fixtures.lookup_request
              (JObject [("pubKey", JString Fixtures.far_pubkey)])
              "get_snodes_for_pubkey")
    as [Honce Hstore]; try (vm_compute; reflexivity).
  fold r in Honce, Hstore.
  assert (Hfinish : finish r = Returned) by (vm_compute; reflexivity).
  rewrite Hfinish in Honce.
  split; [exact Hfinish|]. split; [exact Honce|].
  apply Hstore. discriminate.
Defined.


(** ** The HTTPS front end: one response per request *)

Lemma queue_response_null (d : call_data) (res : Response) :
  queue_response false d res = d.
Proof. reflexivity. Qed.

Lemma run_cb_null (events : list handled) (d : call_data) :
  run_cb events (false, d) = (false, d).
Proof.
  unfold run_cb. induction events as [|[res|ep pl k] rest IH];
    cbn [fold_left response_cb fst snd]; [reflexivity | exact IH | exact IH].
Qed.

Lemma run_cb_first (events : list handled) (d : call_data) :
  run_cb events (true, d)
  = match first_reply events with
    | Some res => (false, queue_response true d res)
    | None => (true, d)
    end.
Proof.
  induction events as [|[res|ep pl k] rest IH]; cbn [first_reply];
    [reflexivity | | exact IH].
  unfold run_cb. cbn [fold_left response_cb fst snd].
  apply run_cb_null.
Qed.

Section HttpsServerFacts.
Context `{JsonLib} `{CryptoLib} `{ServiceDecls} `{OnionDecls}.

(** Before [process_client_req] dereferences an end iterator, it has
    called back with a 400. *)
Lemma process_client_req_undefined
    (sn : ServiceNode) (body : string) (db : Store) :
  finish (process_client_req sn body db) = Undefined ->
  exists msg,
    first_reply (events (process_client_req sn body db))
    = Some (text_response BAD_REQUEST msg).
Proof.
  unfold process_client_req, with_deref, deref.
  set (parsed := parse_noexcept body).
  destruct (find "method" parsed) as [m|].
  - destruct (get_string m) as [method_name|e]; [|discriminate].
    destruct (find "params" parsed) as [p|].
    + intros Hundefined. exfalso. revert Hundefined.
      repeat match goal with
             | |- context [String.eqb method_name ?k] =>
                 destruct (String.eqb method_name k)
             end;
        unfold reply_with;
        try match goal with
            | |- context [match ?r with Ok _ => _ | Throw _ => _ end] =>
                destruct r as [[? ?]|?]
            end;
        try discriminate.
      destruct (find "name_hash" p) as [name|]; [|discriminate].
      destruct (get_string name); discriminate.
    + destruct (eq_value_t_discarded parsed), (negb (is_string m));
        repeat match goal with
               | |- context [String.eqb method_name ?k] =>
                   destruct (String.eqb method_name k)
               end;
        destruct parsed; cbn [finish events app first_reply bad_request];
        try discriminate; intros _; eexists; reflexivity.
  - destruct (eq_value_t_discarded parsed); destruct parsed;
      cbn [finish events app first_reply bad_request];
      try discriminate; intros _; eexists; reflexivity.
Qed.

(** X22.  Over HTTPS a client request gets at most one response, however
    often [process_client_req] uses its callback, and whatever the request:
    the response queued is the first one the callback was called with; if
    there was none and an exception left the handler, it is a 500 that
    quotes the exception; if there was none and the handler returned (the
    callback went to a daemon request), nothing is queued yet.  The
    [replied] flag is set exactly when a response has been queued.  For a
    request that makes [process_client_req] dereference an end iterator
    (a JSON object without [method] or [params]), this is the state when
    that point is reached, and the one response queued by then is a 400. *)
Theorem storage_rpc_task_one_response
    (sn : ServiceNode) (body : string) (db : Store) :
  let r := process_client_req sn body db in
  let out := storage_rpc_task sn body db fresh_call in
  let data' := snd (fst (fst out)) in
  snd out = match finish r with Undefined => false | _ => true end
  /\ snd (fst out) = store_after r
  /\ deferred data'
     = match first_reply (events r), finish r with
       | Some res, _ => [res]
       | None, Threw e =>
           [text_response INTERNAL_SERVER_ERROR
              ("Exception caught with processing client request: "
               ++ what e)]
       | None, _ => []
       end
  /\ replied data' = negb (Nat.eqb (List.length (deferred data')) 0)
  /\ (List.length (deferred data') <= 1)%nat
  /\ (snd out = false ->
      exists msg, deferred data' = [text_response BAD_REQUEST msg]).
Proof.
  cbn zeta. unfold storage_rpc_task.
  cbn [fresh_call replied aborted orb].
  rewrite run_cb_first.
  pose proof (process_client_req_undefined sn body db) as Hundef.
  destruct (first_reply (events (process_client_req sn body db))) as [res|];
    destruct (finish (process_client_req sn body db)) as [|e|];
    cbn [fst snd queue_response replied aborted deferred negb orb app
         List.length Nat.eqb];
    (split; [reflexivity|]); (split; [reflexivity|]);
    (split; [reflexivity|]); (split; [reflexivity|]);
    (split; [cbn; lia|]); try discriminate; intros _;
    destruct (Hundef eq_refl) as [msg Hmsg]; try discriminate.
  injection Hmsg as ->. exists msg. reflexivity.
Qed.

(** X23.  The edge of an onion request.  A body that does not parse (no
    combined payload, no [ephemeral_key], an [enc_type] other than the four
    AES names, a [hop_no] that is not a number) is answered with one 400
    that quotes the exception, and [process_onion_req] is not reached.
    Otherwise [process_onion_req] gets the ciphertext part of the body with
    a hop number between 0 and 2^31 - 1 and an AES encryption type, and at
    most one response is queued by the time the task returns. *)
Theorem onion_req_v2_task_outcome
    (service_node_find_node : string -> option sn_record_t)
    (own_address : sn_record_t) (ready : bool)
    (channel_cipher_ : ChannelEncryption) (body : string) :
  let out :=
    onion_req_v2_task service_node_find_node own_address ready
      channel_cipher_ body fresh_call in
  match parse_onion_req_v2 body with
  | Throw e =>
      out = (mkCallData true false
               [text_response BAD_REQUEST
                  ("Error parsing onion request: " ++ what e)],
             None)
  | Ok (ciphertext, onion) =>
      (exists j, parse_combined_payload body = Ok (ciphertext, j))
      /\ 0 <= md_hop_no onion < 2 ^ 31
      /\ md_enc_type onion <> xchacha20
      /\ snd out
         = Some (process_onion_req service_node_find_node own_address ready
                   channel_cipher_ ciphertext onion)
      /\ (List.length (deferred (fst out)) <= 1)%nat
  end.
Proof.
  cbn zeta. unfold onion_req_v2_task.
  cbn [fresh_call replied aborted orb].
  destruct (parse_onion_req_v2 body) as [[ciphertext onion]|e] eqn:Hparse;
    [|reflexivity].
  unfold parse_onion_req_v2 in Hparse.
  apply bind_ok in Hparse. destruct Hparse as ([c j] & Hpayload & Hparse).
  apply bind_ok in Hparse. destruct Hparse as (eph_json & _ & Hparse).
  apply bind_ok in Hparse. destruct Hparse as (eph_hex & _ & Hparse).
  apply bind_ok in Hparse. destruct Hparse as (ephem_key & _ & Hparse).
  apply bind_ok in Hparse. destruct Hparse as (enc_type & Henc & Hparse).
  apply bind_ok in Hparse. destruct Hparse as (hop_no & Hhop & Hparse).
  injection Hparse as <- <-. cbn [md_hop_no md_enc_type].
  split; [exists j; exact Hpayload|].
  split.
  { unfold optional_field in Hhop.
    destruct (find "hop_no" j) as [v|]; [|injection Hhop as <-; lia].
    apply bind_ok in Hhop. destruct Hhop as (n & Hn & Hhop).
    injection Hhop as <-.
    destruct v as [| b | z | | | |]; cbn [get_int] in Hn; try discriminate;
      injection Hn as <-.
    - destruct b; lia.
    - pose proof (Z.mod_pos_bound (z + 2 ^ 31) (2 ^ 32)). lia. }
  split.
  { unfold optional_field in Henc.
    destruct (find "enc_type" j) as [v|]; [|injection Henc as <-; discriminate].
    apply bind_ok in Henc. destruct Henc as (s & _ & Henc).
    unfold parse_enc_type in Henc.
    destruct (String.eqb s "aes-gcm" || String.eqb s "gcm");
      [injection Henc as <-; discriminate|].
    destruct (String.eqb s "aes-cbc" || String.eqb s "cbc");
      [injection Henc as <-; discriminate | discriminate]. }
  destruct (process_onion_req _ _ _ _ _ _);
    cbn [fst snd response_cb queue_response fresh_call replied aborted
         deferred negb orb app List.length];
    split; try reflexivity; lia.
Qed.




End HttpsServerFacts.

(** The request of C9 over HTTPS: of the two 400 responses the client gets
    the first, and the store is untouched.  The empty object: a 400 is
    queued, then the end iterator is dereferenced. *)
Lemma storage_rpc_task_one_response_witness :
  let lib := Fixtures.json_lib_with [JObject []] in
  let twice :=
    @storage_rpc_task lib Fixtures.service_decls Fixtures.this_node
      (Fixtures.dump Fixtures.store_not_object) [] fresh_call in
  let empty :=
    @storage_rpc_task lib Fixtures.service_decls Fixtures.this_node
      (Fixtures.dump (JObject [])) [] fresh_call in
  snd twice = true
  /\ deferred (snd (fst (fst twice)))
     = [text_response BAD_REQUEST ("invalid json: no `params` field" ++ nl)]
  /\ snd empty = false
  /\ deferred (snd (fst (fst empty)))
     = [text_response BAD_REQUEST ("invalid json: no `method` field" ++ nl)].
Proof.
  intros lib twice empty.
  destruct (@storage_rpc_task_one_response lib Fixtures.service_decls
              Fixtures.this_node (Fixtures.dump Fixtures.store_not_object) [])
    as (Hdefined & _ & Hqueued & _).
  destruct (@storage_rpc_task_one_response lib Fixtures.service_decls
              Fixtures.this_node (Fixtures.dump (JObject [])) [])
    as (Hdefined' & _ & Hqueued' & _).
  fold twice in Hdefined, Hqueued. fold empty in Hdefined', Hqueued'.
  split; [rewrite Hdefined; vm_compute; reflexivity|].
  split; [rewrite Hqueued; vm_compute; reflexivity|].
  split; [rewrite Hdefined'; vm_compute; reflexivity|].
  rewrite Hqueued'. vm_compute. reflexivity.
Defined.


(** ** The remote address: which zero groups are collapsed *)

Lemma skipn_cons_nth {A : Type} (n : nat) (l rest : list A) (x d : A) :
  skipn n l = x :: rest -> nth n l d = x /\ skipn (S n) l = rest.
Proof.
  revert l. induction n as [|n IH]; intros [|y l]; cbn [skipn nth];
    try discriminate.
  - intros [= -> ->]. split; reflexivity.
  - intro Hs. destruct (IH l Hs) as [Hn Hr]. split; [exact Hn|].
    exact Hr.
Qed.

Lemma zero_scan_inv_init (a : list Z) :
  zero_scan_inv a 0 (mkZeroRun 0 0 0 0).
Proof.
  unfold zero_scan_inv, zeros_between. cbn [run_start run_end zero_start
    zero_end].
  repeat split; try lia; try (intros; lia); auto.
Qed.

Lemma zero_scan_inv_step (a : list Z) (i : Z) (st : zero_run) :
  0 <= i -> i + 1 < 2 ^ 64 ->
  zero_scan_inv a i st ->
  zero_scan_inv a (i + 1) (zero_scan_step (group_at a i) i st).
Proof.
  intros Hi Hmax
    (Hrs & Hre & Hcur & Hbreak & Hzs & Hze & Hzero & Hbest & Hnone).
  unfold zero_scan_step.
  destruct (Z.eqb_spec (group_at a i) 0) as [Hx|Hx]; cbn [negb].
  - (* a zero group *)
    set (start := if negb (run_end st =? i) then i else run_start st).
    assert (Hstart : 0 <= start <= i
                     /\ zeros_between a start (i + 1)
                     /\ (start = 0 \/ group_at a (start - 1) <> 0)).
    { subst start.
      destruct (Z.eqb_spec (run_end st) i) as [He|He]; cbn [negb].
      - destruct (Hcur He) as [Hz Hleft].
        split; [lia|]. split; [|exact Hleft].
        intros k Hk. destruct (Z.eq_dec k i) as [->|]; [exact Hx|].
        apply Hz. lia.
      - split; [lia|]. split.
        + intros k Hk. replace k with i by lia. exact Hx.
        + destruct (Z.eq_dec i 0) as [->|]; [left; reflexivity|].
          right. apply Hbreak. exact He. }
    clearbody start. destruct Hstart as (Hs0 & Hsz & Hsleft).
    assert (Hends : forall s e, 0 <= s < e -> e = i + 1 ->
                      zeros_between a s e -> start <= s).
    { intros s e Hse -> Hz.
      destruct Hsleft as [->|Hleft]; [lia|].
      destruct (Z_le_gt_dec start s) as [|Hgt]; [assumption|].
      exfalso. apply Hleft. apply Hz. lia. }
    rewrite (wrap64_small (i + 1)) by lia.
    rewrite (wrap64_small (i + 1 - start)) by lia.
    rewrite (wrap64_small (zero_end st - zero_start st)) by lia.
    destruct (Z.gtb_spec (i + 1 - start) (zero_end st - zero_start st))
      as [Hlonger|Hnot];
      unfold zero_scan_inv;
      cbn [run_start run_end zero_start zero_end].
    + split; [lia|]. split; [lia|].
      split; [intros _; split; assumption|].
      split; [intros Hne; exfalso; apply Hne; reflexivity|].
      split; [lia|]. split; [lia|]. split; [exact Hsz|].
      split; [|lia].
      intros s e Hse He Hz.
      destruct (Z.eq_dec e (i + 1)) as [Heq|Hne].
      * pose proof (Hends s e Hse Heq Hz). lia.
      * destruct (Hbest s e Hse ltac:(lia) Hz). lia.
    + split; [lia|]. split; [lia|].
      split; [intros _; split; assumption|].
      split; [intros Hne; exfalso; apply Hne; reflexivity|].
      split; [lia|]. split; [lia|]. split; [exact Hzero|].
      split; [|exact Hnone].
      intros s e Hse He Hz.
      destruct (Z.eq_dec e (i + 1)) as [Heq|Hne].
      * pose proof (Hends s e Hse Heq Hz). lia.
      * destruct (Hbest s e Hse ltac:(lia) Hz). lia.
  - (* a group that is not zero *)
    unfold zero_scan_inv.
    split; [lia|]. split; [lia|].
    split; [intros He; lia|].
    split; [intros _; replace (i + 1 - 1) with i by lia; exact Hx|].
    split; [lia|]. split; [lia|]. split; [exact Hzero|].
    split; [|exact Hnone].
    intros s e Hse He Hz.
    destruct (Z.eq_dec e (i + 1)) as [Heq|Hne].
    + exfalso. apply Hx. apply Hz. lia.
    + apply Hbest; [lia | lia | exact Hz].
Qed.

Lemma zero_scan_inv_all (a rest : list Z) (i : Z) (st : zero_run) :
  0 <= i ->
  skipn (Z.to_nat i) a = rest ->
  i + Z.of_nat (List.length rest) < 2 ^ 64 ->
  zero_scan_inv a i st ->
  zero_scan_inv a (i + Z.of_nat (List.length rest)) (zero_scan rest i st).
Proof.
  revert i st. induction rest as [|x rest IH]; intros i st Hi Hskip Hmax Hinv.
  - cbn [zero_scan List.length]. replace (i + Z.of_nat 0) with i by lia.
    exact Hinv.
  - cbn [zero_scan]. cbn [List.length] in *.
    destruct (skipn_cons_nth (Z.to_nat i) a rest x 1 Hskip) as [Hx Hrest].
    replace (i + Z.of_nat (S (List.length rest)))
      with (i + 1 + Z.of_nat (List.length rest)) in * by lia.
    apply IH.
    + lia.
    + replace (Z.to_nat (i + 1)) with (S (Z.to_nat i)) by lia. exact Hrest.
    + exact Hmax.
    + rewrite <- Hx. apply zero_scan_inv_step; [lia | lia | exact Hinv].
Qed.

(** The run that the first loop picks: it consists of zero groups, no run
    of zero groups is longer, none of the same length starts further left,
    and it is empty only as the initial [0, 0). *)
Lemma longest_zero_run_leftmost (a : list Z) :
  Z.of_nat (List.length a) < 2 ^ 64 ->
  let zero_start := fst (longest_zero_run a) in
  let zero_end := snd (longest_zero_run a) in
  0 <= zero_start <= zero_end
  /\ zero_end <= Z.of_nat (List.length a)
  /\ zeros_between a zero_start zero_end
  /\ (forall s e,
        0 <= s < e -> e <= Z.of_nat (List.length a) ->
        zeros_between a s e ->
        e - s <= zero_end - zero_start
        /\ (e - s = zero_end - zero_start -> zero_start <= s))
  /\ (zero_start = zero_end -> zero_end = 0).
Proof.
  intros Hlen. cbn zeta. unfold longest_zero_run. cbn [fst snd].
  pose proof (zero_scan_inv_all a a 0 (mkZeroRun 0 0 0 0) ltac:(lia)
                eq_refl ltac:(lia) (zero_scan_inv_init a)) as Hinv.
  cbn [Z.add] in Hinv.
  destruct Hinv as (_ & _ & _ & _ & Hzs & Hze & Hzero & Hbest & Hnone).
  split; [exact Hzs|]. split; [exact Hze|]. split; [exact Hzero|].
  split; [exact Hbest | exact Hnone].
Qed.

(** The second loop, piece by piece. *)
Lemma append_empty_r (s : string) : s ++ EmptyString = s.
Proof.
  induction s as [|c s IH]; cbn [append]; [reflexivity|].
  rewrite IH. reflexivity.
Qed.

Lemma append_assoc (s t u : string) : (s ++ t) ++ u = s ++ t ++ u.
Proof.
  induction s as [|c s IH]; cbn [append]; [reflexivity|].
  rewrite IH. reflexivity.
Qed.

Local Notation "'colon_each' l" :=
  (fold_right (fun x acc => ":" ++ hex_string x ++ acc) EmptyString l)
  (at level 10, only parsing).

Local Notation "'groups' l" :=
  (String.concat ":" (map hex_string l)) (at level 10, only parsing).

Lemma groups_colon_each (x : Z) (l : list Z) :
  groups (x :: l) = hex_string x ++ colon_each l.
Proof.
  revert x. induction l as [|y l IH]; intro x.
  - cbn [map String.concat fold_right]. rewrite append_empty_r. reflexivity.
  - change (groups (x :: y :: l))
      with (hex_string x ++ ":" ++ groups (y :: l)).
    rewrite IH. reflexivity.
Qed.

Lemma write_groups_app (l1 l2 : list Z) (i zero_start zero_end : Z) :
  write_groups (l1 ++ l2) i zero_start zero_end
  = write_groups l1 i zero_start zero_end
    ++ write_groups l2 (i + Z.of_nat (List.length l1)) zero_start zero_end.
Proof.
  revert i. induction l1 as [|x l1 IH]; intro i.
  - cbn [app write_groups List.length append].
    replace (i + Z.of_nat 0) with i by lia. reflexivity.
  - cbn [app write_groups List.length]. rewrite IH, append_assoc.
    replace (i + 1 + Z.of_nat (List.length l1))
      with (i + Z.of_nat (S (List.length l1))) by lia.
    reflexivity.
Qed.

Lemma write_groups_outside (l : list Z) (i zero_start zero_end : Z) :
  0 < i -> zero_start <= zero_end ->
  i + Z.of_nat (List.length l) <= zero_start \/ zero_end < i ->
  write_groups l i zero_start zero_end = colon_each l.
Proof.
  revert i. induction l as [|x l IH]; intros i Hi Hrun Hout;
    [reflexivity|].
  cbn [write_groups fold_right List.length] in *.
  assert (Hin : (zero_start <=? i) && (i <? zero_end) = false).
  { destruct (Z.leb_spec zero_start i), (Z.ltb_spec i zero_end);
      try reflexivity; lia. }
  assert (Hsep : (0 <? i) && negb (i =? zero_end) = true).
  { destruct (Z.ltb_spec 0 i), (Z.eqb_spec i zero_end);
      try reflexivity; lia. }
  rewrite Hin, Hsep, IH by lia. reflexivity.
Qed.

Lemma write_groups_before (l : list Z) (zero_start zero_end : Z) :
  zero_start <= zero_end ->
  Z.of_nat (List.length l) <= zero_start ->
  write_groups l 0 zero_start zero_end = groups l.
Proof.
  intros Hrun Hlen. destruct l as [|x l]; [reflexivity|].
  rewrite groups_colon_each.
  cbn [write_groups List.length] in *.
  assert (Hin : (zero_start <=? 0) && (0 <? zero_end) = false).
  { destruct (Z.leb_spec zero_start 0); [lia | reflexivity]. }
  rewrite Hin. cbn [Z.ltb Z.compare andb append].
  rewrite write_groups_outside by lia. reflexivity.
Qed.

Lemma write_groups_within (l : list Z) (i zero_start zero_end : Z) :
  zero_start <= i ->
  i + Z.of_nat (List.length l) <= zero_end ->
  write_groups l i zero_start zero_end
  = match l with
    | [] => EmptyString
    | _ => if i =? zero_start then "::" else EmptyString
    end.
Proof.
  revert i. induction l as [|x l IH]; intros i Hi Hlen; [reflexivity|].
  cbn [write_groups List.length] in *.
  assert (Hin : (zero_start <=? i) && (i <? zero_end) = true).
  { destruct (Z.leb_spec zero_start i), (Z.ltb_spec i zero_end);
      try reflexivity; lia. }
  rewrite Hin, IH by lia.
  assert (Hnext : (i + 1 =? zero_start) = false)
    by (destruct (Z.eqb_spec (i + 1) zero_start); [lia | reflexivity]).
  rewrite Hnext.
  destruct l; rewrite append_empty_r; reflexivity.
Qed.

Lemma write_groups_after (l : list Z) (zero_start zero_end : Z) :
  0 <= zero_start < zero_end ->
  write_groups l zero_end zero_start zero_end = groups l.
Proof.
  intros Hrun. destruct l as [|x l]; [reflexivity|].
  rewrite groups_colon_each. cbn [write_groups].
  assert (Hin : (zero_start <=? zero_end) && (zero_end <? zero_end)
                = false).
  { destruct (Z.ltb_spec zero_end zero_end); [lia|].
    apply andb_false_r. }
  rewrite Hin, Z.eqb_refl, andb_false_r. cbn [negb append].
  rewrite write_groups_outside by lia. reflexivity.
Qed.

Lemma write_groups_no_run (a : list Z) :
  write_groups a 0 0 0 = groups a.
Proof.
  destruct a as [|x l]; [reflexivity|].
  rewrite groups_colon_each. cbn [write_groups].
  cbn [Z.leb Z.ltb Z.eqb Z.compare andb negb append].
  rewrite write_groups_outside by lia. reflexivity.
Qed.

Lemma write_groups_collapses (a : list Z) (zero_start zero_end : Z) :
  0 <= zero_start < zero_end ->
  zero_end <= Z.of_nat (List.length a) ->
  write_groups a 0 zero_start zero_end
  = groups (firstn (Z.to_nat zero_start) a) ++ "::"
    ++ groups (skipn (Z.to_nat zero_end) a).
Proof.
  intros Hrun Hlen.
  set (n := Z.to_nat zero_start). set (m := Z.to_nat zero_end).
  assert (Hsplit : a = (firstn n a
                        ++ firstn (m - n) (skipn n a)
                        ++ skipn m a)%list).
  { rewrite <- (firstn_skipn n a) at 1. f_equal.
    rewrite <- (firstn_skipn (m - n) (skipn n a)) at 1. f_equal.
    rewrite skipn_skipn. f_equal. subst n m. lia. }
  assert (Hpre : List.length (firstn n a) = n)
    by (apply firstn_length_le; subst n; lia).
  assert (Hmid : List.length (firstn (m - n) (skipn n a)) = (m - n)%nat)
    by (apply firstn_length_le; rewrite length_skipn; subst n m; lia).
  rewrite Hsplit at 1.
  rewrite !write_groups_app, Hpre, Hmid.
  rewrite write_groups_before by (rewrite ?Hpre; subst n; lia).
  rewrite write_groups_within by (rewrite ?Hmid; subst n m; lia).
  replace (0 + Z.of_nat n + Z.of_nat (m - n)) with zero_end
    by (subst n m; lia).
  rewrite write_groups_after by lia.
  replace (0 + Z.of_nat n =? zero_start) with true
    by (symmetry; apply Z.eqb_eq; subst n; lia).
  destruct (firstn (m - n) (skipn n a)) as [|x mid] eqn:Hm;
    [cbn [List.length] in Hmid; subst n m; lia | reflexivity].
Qed.

Lemma shorts_of_length (bytes : list Z) :
  List.length (shorts_of bytes) = Nat.div2 (List.length bytes).
Proof.
  assert (Hboth : forall n (l : list Z),
            (List.length l <= n)%nat ->
            List.length (shorts_of l) = Nat.div2 (List.length l)).
  { induction n as [|n IH]; intros [|hi [|lo rest]] Hlen;
      cbn [shorts_of List.length Nat.div2] in *; try reflexivity; try lia.
    rewrite IH by lia. reflexivity. }
  apply (Hboth (List.length bytes)). lia.
Qed.

Lemma bytes_of_length (s : string) :
  List.length (bytes_of s) = String.length s.
Proof.
  unfold bytes_of. rewrite length_map.
  induction s as [|c s IH]; cbn [list_ascii_of_string List.length
    String.length]; [reflexivity | rewrite IH; reflexivity].
Qed.

(** X24.  An IPv6 address is written by [get_remote_address] as its eight
    groups in hex, joined with colons and put in brackets, with one run of
    zero groups collapsed to [::]: the longest run, and the leftmost one
    among the longest.  The run collapsed consists of zero groups, no run
    of zero groups is longer, and none of the same length starts further
    left; what is written is the groups before the run, [::], and the
    groups after it.  A single zero group is a run, so it is collapsed too
    when there is no longer one; an address without a zero group is written
    in full. *)
Theorem get_remote_address_collapses
    (to_hex : string -> string) (addr : string) :
  size addr = 16 ->
  let a := shorts_of (bytes_of addr) in
  let zero_start := fst (longest_zero_run a) in
  let zero_end := snd (longest_zero_run a) in
  List.length a = 8%nat
  /\ 0 <= zero_start <= zero_end /\ zero_end <= 8
  /\ zeros_between a zero_start zero_end
  /\ (forall s e,
        0 <= s < e -> e <= 8 -> zeros_between a s e ->
        e - s <= zero_end - zero_start
        /\ (e - s = zero_end - zero_start -> zero_start <= s))
  /\ get_remote_address to_hex addr
     = "["
       ++ (if zero_start =? zero_end
           then String.concat ":" (map hex_string a)
           else String.concat ":"
                  (map hex_string (firstn (Z.to_nat zero_start) a))
                ++ "::"
                ++ String.concat ":"
                     (map hex_string (skipn (Z.to_nat zero_end) a)))
       ++ "]".
Proof.
  intros Hsize. cbn zeta.
  set (a := shorts_of (bytes_of addr)).
  assert (Hlen : List.length a = 8%nat).
  { subst a. rewrite shorts_of_length, bytes_of_length.
    unfold size in Hsize.
    replace (String.length addr) with 16%nat by lia. reflexivity. }
  assert (Hbound : Z.of_nat (List.length a) < 2 ^ 64)
    by (rewrite Hlen; reflexivity).
  destruct (longest_zero_run_leftmost a Hbound)
    as (Hzs & Hze & Hzero & Hbest & Hnone).
  cbn zeta in Hzs, Hze, Hzero, Hbest, Hnone.
  rewrite Hlen in Hze, Hbest.
  change (Z.of_nat 8) with 8 in Hze, Hbest.
  split; [exact Hlen|]. split; [exact Hzs|]. split; [exact Hze|].
  split; [exact Hzero|]. split; [exact Hbest|].
  unfold get_remote_address. rewrite Hsize.
  cbn [Z.eqb Pos.eqb]. fold a.
  destruct (longest_zero_run a) as [zero_start zero_end].
  cbn [fst snd] in *. f_equal. f_equal.
  destruct (Z.eqb_spec zero_start zero_end) as [Heq|Hne].
  - pose proof (Hnone Heq) as Hz. subst zero_end. rewrite Hz.
    apply write_groups_no_run.
  - apply write_groups_collapses; [lia | rewrite Hlen; exact Hze].
Qed.

(** 2001:0:0:1:0:0:0:1 is written [[2001:0:0:1::1]]. *)
Lemma get_remote_address_collapses_witness :
  let addr :=
    string_of_list_ascii
      (map ascii_of_nat
         [32; 1; 0; 0; 0; 0; 0; 1; 0; 0; 0; 0; 0; 0; 0; 1])%nat in
  size addr = 16
  /\ shorts_of (bytes_of addr) = [8193; 0; 0; 1; 0; 0; 0; 1]
  /\ longest_zero_run (shorts_of (bytes_of addr)) = (4, 7)
  /\ get_remote_address (fun s => s) addr = "[2001:0:0:1::1]".
Proof.
  intro addr.
  assert (Hsize : size addr = 16) by (vm_compute; reflexivity).
  split; [exact Hsize|]. split; [vm_compute; reflexivity|].
  split; [vm_compute; reflexivity|].
  destruct (get_remote_address_collapses (fun s => s) addr Hsize)
    as (_ & _ & _ & _ & _ & Hwritten).
  rewrite Hwritten. vm_compute. reflexivity.
Defined.


(** ** Requests from other snodes: who gets through *)

Lemma um_find_assign {V : Type} (k k' : string) (v : V) (m : umap V) :
  um_find k (um_assign k' v m)
  = if String.eqb k' k then Some v else um_find k m.
Proof.
  induction m as [|[k0 v0] m IH]; cbn [um_assign um_find].
  - reflexivity.
  - destruct (String.eqb k0 k') eqn:E0; cbn [um_find].
    + apply String.eqb_eq in E0. subst k0.
      destruct (String.eqb k' k); reflexivity.
    + destruct (String.eqb k0 k) eqn:E1.
      * apply String.eqb_eq in E1. subst k0.
        rewrite String.eqb_sym, E0. reflexivity.
      * exact IH.
Qed.

Lemma swarm_prefix_not_rpc (target : string) :
  String.prefix "/swarms/" target = true ->
  String.eqb target "/storage_rpc/v1" = false.
Proof.
  intros Hp. destruct (String.eqb_spec target "/storage_rpc/v1") as [->|];
    [vm_compute in Hp; discriminate | reflexivity].
Qed.

Section SnodeRequestFacts.
Context `{JsonLib}.
Variables pubkey_header signature_header key_header : string.
Variable is_snode_address_known : string -> bool.
Variable check_signature_of : string -> string -> string -> bool.
Variable should_rate_limit : string -> bool.
Variable cert_signature : string.
Variable proxy_exit_response : string -> string -> Response.
Variable client_req : snode_conn -> result snode_conn.
Variables proxy_req onion_req file_proxy_req get_stats get_logs
  : snode_conn -> snode_conn.

Local Notation "'validate'" :=
  (validate_snode_request pubkey_header signature_header
     is_snode_address_known check_signature_of should_rate_limit).
Local Notation "'validated'" :=
  (sender_validated pubkey_header signature_header is_snode_address_known
     check_signature_of should_rate_limit).
Local Notation "'swarm_req'" :=
  (process_swarm_req pubkey_header signature_header key_header
     is_snode_address_known check_signature_of should_rate_limit
     cert_signature proxy_exit_response).

Lemma headers_after_parse (header : umap string) (pk sig : string) :
  (pubkey_header = signature_header -> pk = sig) ->
  let header' :=
    um_assign signature_header sig (um_assign pubkey_header pk header) in
  um_find pubkey_header header' = Some pk
  /\ um_find signature_header header' = Some sig.
Proof.
  intros Hsame. cbn zeta. rewrite !um_find_assign, !String.eqb_refl.
  destruct (String.eqb_spec signature_header pubkey_header) as [E|_];
    [|split; reflexivity].
  rewrite (Hsame (eq_sym E)). split; reflexivity.
Qed.

Lemma validate_passed (req : request_t) (c c' : snode_conn) :
  validate req c = (true, c') ->
  sc_result c' = sc_result c /\ sc_fields c' = sc_fields c
  /\ sc_calls c' = sc_calls c
  /\ exists sender,
       validated req sender
       /\ um_find pubkey_header (sc_header c') = Some sender.
Proof.
  unfold validate_snode_request, parse_header, header_at.
  destruct (req_find req pubkey_header) as [pk|] eqn:Hpk; [|discriminate].
  destruct (req_find req signature_header) as [sig|] eqn:Hsig;
    [|discriminate].
  cbn [negb sc_header sc_result sc_fields sc_body_stream sc_calls
       sc_delay_response].
  destruct (headers_after_parse (sc_header c) pk sig) as [Hfpk Hfsig].
  { intros E. rewrite E in Hpk. congruence. }
  rewrite Hfpk, Hfsig.
  destruct (is_snode_address_known (pk ++ ".snode")) eqn:Hknown;
    cbn [negb]; [|discriminate].
  destruct (check_signature_of (req_body req) sig pk) eqn:Hcheck;
    cbn [negb]; [|discriminate].
  destruct (should_rate_limit pk) eqn:Hrate; [discriminate|].
  intros [= <-].
  cbn [sc_result sc_fields sc_calls sc_header].
  split; [reflexivity|]. split; [reflexivity|]. split; [reflexivity|].
  exists pk. split; [|exact Hfpk].
  unfold sender_validated.
  split; [exact Hpk|]. split; [exact Hknown|]. split; [exact Hrate|].
  exists sig. split; [exact Hsig | exact Hcheck].
Qed.

Lemma validate_failed (req : request_t) (c c' : snode_conn) :
  validate req c = (false, c') ->
  sc_fields c' = sc_fields c /\ sc_calls c' = sc_calls c
  /\ (sc_result c' = sc_result c \/ sc_result c' = 401
      \/ sc_result c' = 429).
Proof.
  unfold validate_snode_request, parse_header.
  destruct (req_find req pubkey_header) as [pk|].
  2: { intros [= <-]. cbn. auto. }
  destruct (req_find req signature_header) as [sig|].
  2: { intros [= <-]. cbn. auto. }
  cbn [negb].
  destruct (is_snode_address_known _); cbn [negb].
  2: { intros [= <-]. cbn. auto. }
  destruct (check_signature_of _ _ _); cbn [negb].
  2: { intros [= <-]. cbn. auto. }
  destruct (should_rate_limit _); [|discriminate].
  intros [= <-]. cbn. auto.
Qed.

(** The calls of the two test branches name the tester that [header_] holds. *)
Lemma swarm_storage_test_calls (req : request_t) (c : snode_conn) :
  sc_calls (swarm_storage_test pubkey_header req c) = sc_calls c
  \/ exists height msg_hash tester_pk,
       um_find pubkey_header (sc_header c) = Some tester_pk
       /\ sc_calls (swarm_storage_test pubkey_header req c)
          = (sc_calls c ++ [StorageTest height tester_pk msg_hash])%list.
Proof.
  unfold swarm_storage_test.
  destruct (eq_value_t_discarded _); [left; reflexivity|].
  destruct (bind _ _) as [[height msg_hash]|]; [|left; reflexivity].
  cbn [set_result sc_header].
  destruct (um_find pubkey_header (sc_header c)) as [pk|] eqn:Hpk;
    [|left; reflexivity].
  right. exists height, msg_hash, pk. split; reflexivity.
Qed.

Lemma swarm_blockchain_test_calls (req : request_t) (c : snode_conn) :
  sc_calls (swarm_blockchain_test pubkey_header req c) = sc_calls c
  \/ exists height max_height seed tester_pk,
       um_find pubkey_header (sc_header c) = Some tester_pk
       /\ sc_calls (swarm_blockchain_test pubkey_header req c)
          = (sc_calls c
             ++ [BlockchainTest height tester_pk max_height seed])%list.
Proof.
  unfold swarm_blockchain_test.
  destruct (is_discarded _); [left; reflexivity|].
  destruct (bind _ _) as [[[max_height seed] height]|]; [|left; reflexivity].
  destruct (um_find pubkey_header (sc_header c)) as [pk|] eqn:Hpk;
    [|left; reflexivity].
  right. exists height, max_height, seed, pk. split; reflexivity.
Qed.

Lemma process_swarm_req_calls (target : string) (req : request_t)
    (c : snode_conn) (request : service_call) :
  sc_calls c = [] ->
  In request (sc_calls (swarm_req target req c)) ->
  exists sender, validated req sender /\ names_sender request sender.
Proof.
  intros Hnone. unfold process_swarm_req.
  destruct (validate req c) as [[|] c'] eqn:Hv.
  - destruct (validate_passed req c c' Hv)
      as (_ & _ & Hcalls & sender & Hsender & Hheader).
    rewrite Hnone in Hcalls. cbn [negb andb].
    set (c1 := set_field signature_header cert_signature c').
    assert (Hc1 : sc_calls c1 = [] /\ sc_header c1 = sc_header c')
      by (split; [exact Hcalls | reflexivity]).
    clearbody c1. destruct Hc1 as [Hc1 Hh1]. rewrite <- Hh1 in Hheader.
    destruct (String.eqb target "/swarms/push_batch/v1").
    { cbn [call set_result sc_calls]. rewrite Hc1. cbn [app In].
      intros [<-|[]]. exists sender. split; [exact Hsender | exact I]. }
    destruct (String.eqb target "/swarms/storage_test/v1").
    { destruct (swarm_storage_test_calls req c1)
        as [->|(h & m & pk & Hpk & ->)]; rewrite Hc1; [intros []|].
      cbn [app In]. intros [<-|[]]. exists sender.
      split; [exact Hsender | cbn; congruence]. }
    destruct (String.eqb target "/swarms/blockchain_test/v1").
    { destruct (swarm_blockchain_test_calls req c1)
        as [->|(h & mh & sd & pk & Hpk & ->)]; rewrite Hc1; [intros []|].
      cbn [app In]. intros [<-|[]]. exists sender.
      split; [exact Hsender | cbn; congruence]. }
    destruct (String.eqb target "/swarms/ping_test/v1").
    { cbn [set_result sc_calls]. rewrite Hc1. intros []. }
    destruct (String.eqb target "/swarms/proxy_exit").
    { destruct (req_find req key_header) as [key|].
      - cbn [set_response write_body set_field set_result call sc_calls].
        rewrite Hc1. cbn [app In]. intros [<-|[]].
        exists sender. split; [exact Hsender | exact I].
      - rewrite Hc1. intros []. }
    rewrite Hc1. intros [].
  - destruct (validate_failed req c c' Hv) as (_ & Hcalls & _).
    rewrite Hnone in Hcalls. cbn [negb andb].
    destruct (String.eqb target "/swarms/ping_test/v1") eqn:Eping;
      cbn [negb].
    + set (c1 := set_field signature_header cert_signature c').
      assert (Hc1 : sc_calls c1 = []) by exact Hcalls. clearbody c1.
      apply String.eqb_eq in Eping. subst target. cbn [String.eqb].
      cbn. rewrite Hc1. intros [].
    + rewrite Hcalls. intros [].
Qed.

(** X25.  Who gets through on the [/swarms/] targets of a POST.  A ping is
    answered 200 and calls nothing, whether the node is ready and whoever
    sent it.  Any other target is answered 503 while the node is not ready.
    When the sender fails [validate_snode_request], nothing is called, the
    certificate signature is not attached, and the status is 401, 429, or
    (a missing header) the 500 that [process_request] starts with.
    Whatever is called (push batch, storage test, blockchain test, proxy
    exit) is called for a sender that is a known snode, whose signature of
    the body is the one in the request's signature header and who is not
    rate limited; the tests name that sender as the tester. *)
Theorem process_request_snode_checks
    (target : string) (req : request_t) (ready : bool) (reason : string) :
  String.prefix "/swarms/" target = true ->
  let c :=
    process_request pubkey_header signature_header key_header
      is_snode_address_known check_signature_of should_rate_limit
      cert_signature proxy_exit_response client_req proxy_req onion_req
      file_proxy_req get_stats get_logs http_post target req ready reason
      new_snode_conn in
  (target = "/swarms/ping_test/v1" -> sc_result c = 200 /\ sc_calls c = [])
  /\ (target <> "/swarms/ping_test/v1" -> ready = false ->
      sc_result c = 503 /\ sc_calls c = [] /\ sc_fields c = [])
  /\ (target <> "/swarms/ping_test/v1" -> ready = true ->
      fst (validate req (set_result 500 new_snode_conn)) = false ->
      In (sc_result c) [500; 401; 429]
      /\ sc_calls c = [] /\ sc_fields c = [])
  /\ (forall request,
        In request (sc_calls c) ->
        exists sender, validated req sender /\ names_sender request sender).
Proof.
  intros Hprefix. cbn zeta. unfold process_request.
  rewrite Hprefix.
  set (c0 := set_result 500 new_snode_conn).
  assert (Hc0 : sc_calls c0 = []) by reflexivity.
  destruct (String.eqb_spec target "/swarms/ping_test/v1") as [Hping|Hping].
  - (* ping *)
    split; [|split; [congruence|split; [congruence|]]].
    + intros _. subst target. unfold process_swarm_req.
      destruct (validate req c0) as [[|] c'] eqn:Hv.
      * destruct (validate_passed req c0 c' Hv) as (_ & _ & Hcalls & _).
        cbn. split; [reflexivity | rewrite Hcalls; reflexivity].
      * destruct (validate_failed req c0 c' Hv) as (_ & Hcalls & _).
        cbn. split; [reflexivity | rewrite Hcalls; reflexivity].
    + intros request. apply process_swarm_req_calls. exact Hc0.
  - destruct ready; cbn [negb].
    + rewrite (swarm_prefix_not_rpc target Hprefix).
      split; [congruence|]. split; [discriminate|].
      split; [|intros request; apply process_swarm_req_calls; exact Hc0].
      intros _ _ Hfail. unfold process_swarm_req.
      destruct (validate req c0) as [[|] c'] eqn:Hv; [discriminate|].
      destruct (validate_failed req c0 c' Hv) as (Hfields & Hcalls & Hres).
      cbn [negb andb]. destruct (String.eqb_spec target "/swarms/ping_test/v1");
        [contradiction|]. cbn [negb].
      split; [|split; [rewrite Hcalls | rewrite Hfields]; reflexivity].
      cbn [In]. change (sc_result c0) with 500 in Hres.
      destruct Hres as [->| [->| ->]]; auto.
    + split; [congruence|].
      split; [intros _ _; repeat split|].
      split; [discriminate|]. intros request [].
Qed.

End SnodeRequestFacts.


(** A signed push from a known peer is handed to the service node. *)
Lemma process_request_snode_checks_witness :
  let req :=
    mkRequest
      (fun key =>
         if String.eqb key "X-Loki-Snode-PubKey" then Some "peer0"
         else if String.eqb key "X-Loki-Snode-Signature" then Some "sig"
         else None)
      "batch" in
  let known := fun address => String.eqb address "peer0.snode" in
  let check := fun (payload signature pk : string) =>
                 String.eqb signature "sig" in
  let limit := fun _ : string => false in
  let c :=
    @process_request Fixtures.json_lib
      "X-Loki-Snode-PubKey" "X-Loki-Snode-Signature" "X-Sender-Public-Key"
      known check limit "cert" (fun _ _ => text_response OK "done")
      (fun c => Ok c) (fun c => c) (fun c => c) (fun c => c) (fun c => c)
      (fun c => c) http_post "/swarms/push_batch/v1" req true EmptyString
      new_snode_conn in
  String.prefix "/swarms/" "/swarms/push_batch/v1" = true
  /\ sc_calls c = [PushBatch "batch"]
  /\ exists sender,
       sender_validated "X-Loki-Snode-PubKey" "X-Loki-Snode-Signature"
         known check limit req sender
       /\ names_sender (PushBatch "batch") sender.
Proof.
  intros req known check limit c.
  assert (Hprefix : String.prefix "/swarms/" "/swarms/push_batch/v1" = true)
    by reflexivity.
  assert (Hcalls : sc_calls c = [PushBatch "batch"])
    by (vm_compute; reflexivity).
  split; [exact Hprefix|]. split; [exact Hcalls|].
  destruct (@process_request_snode_checks Fixtures.json_lib
              "X-Loki-Snode-PubKey" "X-Loki-Snode-Signature"
              "X-Sender-Public-Key" known check limit "cert"
              (fun _ _ => text_response OK "done")
              (fun c => Ok c) (fun c => c) (fun c => c) (fun c => c)
              (fun c => c) (fun c => c)
              "/swarms/push_batch/v1" req true EmptyString Hprefix)
    as (_ & _ & _ & Hcalled).
  apply Hcalled. fold c. rewrite Hcalls. left. reflexivity.
Defined.


(** ** Missing data and the carried-forward addresses *)

Section MissingDataFacts.
Variable key_is_set : string -> bool.

Lemma count_snodes_fold (l : list sn_record_t) (missing total : Z) :
  fold_left
    (fun '(missing, total) snode =>
       let total := total + 1 in
       if has_missing_data key_is_set snode then (missing + 1, total)
       else (missing, total))
    l (missing, total)
  = (missing
     + Z.of_nat (List.length (filter (has_missing_data key_is_set) l)),
     total + Z.of_nat (List.length l)).
Proof.
  revert missing total. induction l as [|sn l IH]; intros missing total.
  - cbn. f_equal; lia.
  - cbn [fold_left filter List.length].
    destruct (has_missing_data key_is_set sn); rewrite IH;
      cbn [List.length]; f_equal; lia.
Qed.

Lemma count_missing_data_eq (swarms : all_swarms_t) :
  count_missing_data key_is_set swarms
  = (Z.of_nat (List.length
                 (filter (has_missing_data key_is_set) (all_snodes swarms))),
     Z.of_nat (List.length (all_snodes swarms))).
Proof.
  unfold count_missing_data, all_snodes.
  assert (Hgen : forall missing total,
    fold_left
      (fun result swarm =>
         fold_left
           (fun '(missing, total) snode =>
              let total := total + 1 in
              if has_missing_data key_is_set snode then (missing + 1, total)
              else (missing, total))
           (snodes swarm) result)
      swarms (missing, total)
    = (missing
       + Z.of_nat (List.length (filter (has_missing_data key_is_set)
                                  (flat_map snodes swarms))),
       total + Z.of_nat (List.length (flat_map snodes swarms)))).
  { induction swarms as [|si l IH]; intros missing total.
    - cbn. f_equal; lia.
    - cbn [fold_left flat_map]. rewrite count_snodes_fold, IH.
      rewrite filter_app, !length_app. f_equal; lia. }
  rewrite Hgen. f_equal.
Qed.

Lemma carried_forward_not_missing (other : all_swarms_t)
    (snode : sn_record_t) :
  (forall o, In o (all_snodes other) -> ip o <> EmptyString) ->
  has_missing_data key_is_set
    (fst (apply_ips_snode (get_snode_map_from_swarms other) snode)) = true ->
  has_missing_data key_is_set snode = true.
Proof.
  intros Hip.
  pose proof (apply_ips_snode_carried other snode) as Hcarried.
  set (after := fst (apply_ips_snode (get_snode_map_from_swarms other) snode))
    in *.
  clearbody after.
  destruct Hcarried as [(_ & Hed & Hx) Hfields].
  destruct (first_with_key (pubkey_legacy snode) (all_snodes other))
    as [o|] eqn:Hfirst; [|subst after; trivial].
  destruct Hfields as (Hipf & Hport & Hlmq).
  pose proof (Hip o (first_with_key_In _ _ _ Hfirst)) as Hne.
  unfold has_missing_data. rewrite <- Hed, <- Hx, Hipf, Hport, Hlmq.
  intros Hmiss.
  destruct (negb (key_is_set (pubkey_ed25519 snode)));
    [rewrite !orb_true_r; reflexivity|].
  destruct (negb (key_is_set (pubkey_x25519 snode)));
    [rewrite !orb_true_r; reflexivity|].
  rewrite !orb_false_r in *.
  destruct (String.eqb_spec (ip o) "0.0.0.0") as [E0|E0];
    destruct (Z.eqb_spec (port o) 0) as [E1|E1];
    destruct (Z.eqb_spec (lmq_port o) 0) as [E2|E2];
    repeat match goal with
           | H : context [String.eqb ?a ?b] |- _ =>
               destruct (String.eqb_spec a b); try congruence
           | H : context [Z.eqb ?a ?b] |- _ =>
               destruct (Z.eqb_spec a b); try congruence
           | |- context [String.eqb ?a ?b] =>
               destruct (String.eqb_spec a b); try congruence
           | |- context [Z.eqb ?a ?b] =>
               destruct (Z.eqb_spec a b); try congruence
           end;
    cbn in *; try reflexivity; try discriminate; try congruence.
Qed.

Lemma filter_map_length_le {A : Type} (f : A -> A) (p : A -> bool)
    (l : list A) :
  (forall x, p (f x) = true -> p x = true) ->
  (List.length (filter p (map f l)) <= List.length (filter p l))%nat.
Proof.
  intros Hp. induction l as [|x l IH]; cbn [map filter]; [lia|].
  destruct (p (f x)) eqn:Hf.
  - rewrite (Hp x Hf). cbn [List.length]. lia.
  - destruct (p x); cbn [List.length]; lia.
Qed.

(** X26.  Carrying addresses forward never adds a record with missing
    data, as long as no record of the other roster has an empty ip (which
    [apply_ips] does not treat as a default): [count_missing_data] of the
    result counts the same total, the number of snodes, and no more missing
    records than before. *)
Theorem apply_ips_fills_in (swarms_to_keep other_swarms : all_swarms_t) :
  (forall o, In o (all_snodes other_swarms) -> ip o <> EmptyString) ->
  let before := count_missing_data key_is_set swarms_to_keep in
  let after :=
    count_missing_data key_is_set (apply_ips swarms_to_keep other_swarms) in
  snd after = snd before
  /\ snd before = Z.of_nat (List.length (all_snodes swarms_to_keep))
  /\ 0 <= fst after <= fst before
  /\ fst before <= snd before.
Proof.
  intros Hip. cbn zeta. rewrite !count_missing_data_eq. cbn [fst snd].
  assert (Hall : all_snodes (apply_ips swarms_to_keep other_swarms)
                 = map (fun snode =>
                          fst (apply_ips_snode
                                 (get_snode_map_from_swarms other_swarms)
                                 snode))
                     (all_snodes swarms_to_keep)).
  { unfold apply_ips, all_snodes.
    induction swarms_to_keep as [|si l IH]; [reflexivity|].
    cbn [map flat_map snodes]. rewrite map_app. f_equal. exact IH. }
  rewrite Hall, length_map.
  split; [reflexivity|]. split; [reflexivity|].
  pose proof (filter_map_length_le
                (fun snode =>
                   fst (apply_ips_snode
                          (get_snode_map_from_swarms other_swarms) snode))
                (has_missing_data key_is_set) (all_snodes swarms_to_keep)
                (fun snode =>
                   carried_forward_not_missing other_swarms snode Hip))
    as Hle.
  pose proof (filter_length_le (has_missing_data key_is_set)
                (all_snodes swarms_to_keep)) as Hfl.
  lia.
Qed.

End MissingDataFacts.

(** A record without an address gets the one the other roster knows. *)
Lemma apply_ips_fills_in_witness :
  let set := fun key => negb (String.eqb key EmptyString) in
  let known := Fixtures.snode "peer0" in
  let bare := mkSnode "0.0.0.0" 0 0 "peer0" "peer0" "peer0" in
  let keep := [mkSwarmInfo 0 [bare]] in
  let other := [mkSwarmInfo 0 [known]] in
  (forall o, In o (all_snodes other) -> ip o <> EmptyString)
  /\ count_missing_data set keep = (1, 1)
  /\ count_missing_data set (apply_ips keep other) = (0, 1)
  /\ fst (count_missing_data set (apply_ips keep other))
     <= fst (count_missing_data set keep).
Proof.
  intros set known bare keep other.
  assert (Hip : forall o, In o (all_snodes other) -> ip o <> EmptyString).
  { intros o [<-|[]]. discriminate. }
  split; [exact Hip|].
  split; [vm_compute; reflexivity|]. split; [vm_compute; reflexivity|].
  destruct (apply_ips_fills_in set keep other Hip) as (_ & _ & Hle & _).
  apply Hle.
Defined.


(** ** The HTTPS client: one answer per request *)

Section HttpsClientFacts.
Variable signature_from_base64 : string -> option string.
Variable check_cert_signature : string -> string -> string -> bool.

(** X27.  A request to a snode is answered through the callback exactly
    once, with one exception: when the resolver refuses the address, the
    callback is never called.  An unknown address (ip 0.0.0.0 or port 0) is
    answered NO_REACH without a connection, as is a failed connect.  The
    answer is NO_ERROR only if connect, handshake, write and read went
    through, the status is 2xx and the response carries a signature of the
    server certificate that verifies against the snode's legacy key; the
    body is handed over exactly in that case. *)
Theorem https_request_to_sn_calls_back
    (sn : sn_record_t) (resolved : bool) (server_cert_ : string)
    (script : session_script) :
  let out :=
    make_https_request_to_sn signature_from_base64 check_cert_signature sn
      resolved server_cert_ script in
  let unknown := String.eqb (ip sn) "0.0.0.0" || (port sn =? 0) in
  (unknown = false -> resolved = false -> out = [])
  /\ (unknown = true \/ resolved = true ->
      exists r,
        out = [r]
        /\ (error_code r = NO_ERROR <->
            unknown = false
            /\ connect_failed script = false
            /\ handshake_failed script = false
            /\ write_failed script = false
            /\ read_result script <> ReadFailed
            /\ result_int script / 100 = 2
            /\ verify_signature signature_from_base64 check_cert_signature
                 (Some (pubkey_legacy sn)) server_cert_ script = true)
        /\ (sn_body r <> None <-> error_code r = NO_ERROR)
        /\ (error_code r = NO_REACH <->
            unknown = true \/ connect_failed script = true)).
Proof.
  cbn zeta. unfold make_https_request_to_sn.
  destruct (String.eqb (ip sn) "0.0.0.0" || (port sn =? 0)).
  { split; [discriminate|]. intros _. eexists. split; [reflexivity|].
    cbn. repeat split; try discriminate; try tauto; intuition discriminate. }
  split; [intros _ ->; reflexivity|].
  intros [Hu | ->]; [discriminate|]. cbn [negb].
  unfold run_session, on_read, destroy_session.
  destruct (connect_failed script).
  { eexists. split; [reflexivity|]. cbn.
    repeat split; try discriminate; try tauto; intuition discriminate. }
  destruct (handshake_failed script).
  { eexists. split; [reflexivity|]. cbn.
    repeat split; try discriminate; try tauto; intuition discriminate. }
  destruct (write_failed script).
  { eexists. split; [reflexivity|]. cbn.
    repeat split; try discriminate; try tauto; intuition discriminate. }
  destruct (read_result script) eqn:Hread;
    try (destruct (Z.eqb_spec (result_int script / 100) 2) as [Hcls|Hcls];
         [destruct (verify_signature _ _ _ _ _) eqn:Hsig|]);
    cbn [andb negb trigger_callback used_callback_ posted app];
    eexists; (split; [reflexivity|]); cbn [error_code sn_body];
    repeat split; try discriminate; try tauto; try congruence;
    intuition (try discriminate; try congruence).
Qed.

End HttpsClientFacts.


(** ** The onion request of the older connection *)

Section ConnectionOnionFacts.
Context `{JsonLib}.
Variables pubkey_header signature_header key_header : string.
Variable is_snode_address_known : string -> bool.
Variable check_signature_of : string -> string -> string -> bool.
Variable should_rate_limit : string -> bool.
Variable cert_signature : string.
Variable proxy_exit_response : string -> string -> Response.
Variable client_req : snode_conn -> result snode_conn.
Variables proxy_req file_proxy_req get_stats get_logs
  : snode_conn -> snode_conn.

Variable request_handler : string -> string -> list Response * option exn.

(** The status that [on_response] answers a response with. *)
Local Notation "'answer_status' res" :=
  (match status res with OK => 200 | _ => 503 end)
  (at level 10, only parsing).

Lemma onion_on_response_keeps (res : Response) (c : snode_conn) :
  let c' := onion_on_response res c in
  sc_delay_response c' = sc_delay_response c
  /\ sc_calls c' = sc_calls c
  /\ map fst (sc_written c')
     = (map fst (sc_written c) ++ [answer_status res])%list.
Proof.
  cbn zeta. unfold onion_on_response, conn_write_response.
  destruct (status res);
    cbn [set_result write_body sc_delay_response sc_calls sc_written
         sc_result];
    rewrite map_app; repeat split; reflexivity.
Qed.

Lemma onion_responses_keep (responses : list Response) (c : snode_conn) :
  let c' := fold_left (fun c res => onion_on_response res c) responses c in
  sc_delay_response c' = sc_delay_response c
  /\ sc_calls c' = sc_calls c
  /\ map fst (sc_written c')
     = (map fst (sc_written c)
        ++ map (fun res => answer_status res) responses)%list.
Proof.
  revert c. induction responses as [|res rest IH]; intros c.
  - cbn. rewrite app_nil_r. repeat split; reflexivity.
  - cbn [fold_left map].
    destruct (IH (onion_on_response res c)) as (Hd & Hc & Hw).
    destruct (onion_on_response_keeps res c) as (Hd1 & Hc1 & Hw1).
    cbn zeta in *.
    rewrite Hd, Hc, Hw, Hd1, Hc1, Hw1, <- app_assoc.
    repeat split; reflexivity.
Qed.

(** X28.  A POST to [/onion_req].  On a node that is not ready the read
    handler writes one 503 that gives the reason, and the request handler
    is not called.  On a ready node the read handler writes nothing itself,
    because [process_onion_req] delays the response before it looks at the
    body.  If the body is JSON with string fields [ciphertext] and
    [ephemeral_key], the request handler is called once with the two; every
    response it gives to [on_response] is written, as a 200 for an OK
    response and a 503 for any other; when it returns without having
    called back, a later response is written as 200 with its message or as
    an empty 503.  If the body is anything else, the request handler is not
    called, and a 400 with the parse error is prepared that nothing writes.
    The same 400 is prepared, with the handler's message under the parse
    error heading, when an exception leaves the request handler. *)
Theorem connection_onion_req_answer
    (req : request_t) (ready : bool) (reason : string) :
  let process :=
    process_request pubkey_header signature_header key_header
      is_snode_address_known check_signature_of should_rate_limit
      cert_signature proxy_exit_response client_req proxy_req
      (conn_process_onion_req request_handler req) file_proxy_req get_stats
      get_logs http_post "/onion_req" req ready reason in
  let c := on_request_data process new_snode_conn in
  (ready = false ->
   sc_written c = [(503, "Service node is not ready: " ++ reason ++ nl)]
   /\ sc_calls c = [])
  /\ (ready = true ->
      sc_delay_response c = true
      /\ match outer_onion_json (req_body req) with
         | Throw e =>
             sc_calls c = [] /\ sc_written c = []
             /\ sc_result c = 400
             /\ sc_body_stream c
                = "Error parsing outer JSON in onion request: " ++ what e
         | Ok (ciphertext, ephem_key) =>
             let '(responses, thrown) :=
               request_handler ciphertext ephem_key in
             sc_calls c = [ProcessOnionReq ciphertext ephem_key]
             /\ map fst (sc_written c)
                = map (fun res => answer_status res) responses
             /\ (responses = [] -> thrown = None ->
                 forall res,
                   sc_written (onion_on_response res c)
                   = [match status res with
                      | OK => (200, message res)
                      | _ => (503, EmptyString)
                      end])
             /\ (forall e, thrown = Some e ->
                 sc_result c = 400
                 /\ (responses = [] ->
                     sc_body_stream c
                     = "Error parsing outer JSON in onion request: "
                       ++ what e))
         end).
Proof.
  cbn zeta. unfold on_request_data, process_request.
  change (String.prefix "/swarms/" "/onion_req") with false.
  cbn [String.eqb Ascii.eqb Bool.eqb negb andb].
  split.
  - intros ->. cbn [negb]. cbn. split; reflexivity.
  - intros ->. cbn [negb]. unfold conn_process_onion_req.
    destruct (outer_onion_json (req_body req)) as [[ciphertext ephem_key]|e].
    2: { cbn. repeat split; reflexivity. }
    destruct (request_handler ciphertext ephem_key) as [responses thrown].
    set (c0 := call (ProcessOnionReq ciphertext ephem_key)
                 (delay_response (set_result 500 new_snode_conn))).
    destruct (onion_responses_keep responses c0) as (Hd & Hc & Hw).
    cbn zeta in Hd, Hc, Hw.
    set (c1 := fold_left (fun c res => onion_on_response res c)
                 responses c0) in *.
    destruct thrown as [e|].
    + assert (Hdelay : sc_delay_response
                         (write_body
                            ("Error parsing outer JSON in onion request: "
                             ++ what e) (set_result 400 c1)) = true)
        by exact Hd.
      rewrite Hdelay. cbn [negb].
      split; [exact Hdelay|]. split; [exact Hc|]. split; [exact Hw|].
      split; [discriminate|].
      intros e' [= <-]. split; [reflexivity|].
      intros ->. reflexivity.
    + rewrite Hd. cbn [negb c0 call delay_response sc_delay_response].
      split; [exact Hd|]. split; [exact Hc|]. split; [exact Hw|].
      split; [|discriminate].
      intros -> _ res. subst c1. cbn [fold_left].
      unfold onion_on_response, conn_write_response.
      destruct (status res); cbn; try reflexivity.
      destruct (message res); reflexivity.
Qed.

End ConnectionOnionFacts.


(** ** The storage test over HTTPS *)

Section HttpsStorageTestFacts.
Import HttpsStorageTest.
Context `{JsonLib}.
Variable TEST_RETRY_PERIOD : Z.
Variable parse_pubkey : string -> option string.






End HttpsStorageTestFacts.




(** ** The exit of a proxy request *)

Section ProxyExitFacts.
Context `{JsonLib} `{CryptoLib} `{ServiceDecls}.
Variable OXEN_LONG_POLL_HEADER : string.

Lemma proxy_exit_fields_body (text body : string) (lp_used : bool) :
  proxy_exit_fields OXEN_LONG_POLL_HEADER text = Ok (body, lp_used) ->
  exists req,
    json_parse text = Some req /\ find "body" req = Some (JString body).
Proof.
  unfold proxy_exit_fields, parse_throwing. intros Hf.
  destruct (json_parse text) as [req|]; [|discriminate].
  cbn [bind] in Hf. exists req. split; [reflexivity|].
  apply bind_ok in Hf. destruct Hf as (b & Hb & Hf).
  apply bind_ok in Hf. destruct Hf as (lp & _ & Hf).
  injection Hf as <- <-.
  apply bind_ok in Hb. destruct Hb as (v & Hat & Hget).
  unfold at_ in Hat. destruct req as [| | | | |kv|]; try discriminate.
  cbn [find]. destruct (assoc "body" kv) as [w|]; [|discriminate].
  injection Hat as ->. destruct v; try discriminate.
  injection Hget as ->. reflexivity.
Qed.

Lemma proxy_reply_constant
    (channel_cipher_ : ChannelEncryption) (client_key : string)
    (inner : Response) :
  proxy_reply channel_cipher_ client_key inner
  = match encrypt channel_cipher_ aes_cbc
            (json_dump (status_body_json inner)) client_key with
    | Ok _ => ProxyCb (mkResponse OK (to_base64 EmptyString) json_content)
    | Throw e => ProxyRaised e
    end.
Proof.
  unfold proxy_reply, wrap_proxy_response, status_body_json.
  destruct (encrypt channel_cipher_ aes_cbc _ client_key); reflexivity.
Qed.

(** X30.  [process_proxy_exit] passes a request on to [process_client_req]
    only if the node is ready, the payload decrypts under AES-CBC with the
    client's key, and the plaintext is JSON whose [body] is a string; the
    body passed on is that string.  In every other case it builds one
    refusal (a 503 [Snode not ready] when the node is not ready, a 400 that
    quotes the exception when decrypting or parsing fails) and replies with
    it through [wrap_proxy_response].  What the callback then gets does not
    depend on the refusal: it is always the 200 whose body is the base64 of
    the empty string, so the client cannot tell the three refusals apart;
    and if [encrypt] throws, the exception leaves [process_proxy_exit]
    without a call of the callback. *)
Theorem process_proxy_exit_passes_on
    (ready : bool) (channel_cipher_ : ChannelEncryption)
    (client_key payload : string) :
  let step :=
    process_proxy_exit OXEN_LONG_POLL_HEADER ready channel_cipher_
      client_key payload in
  let reply := proxy_reply channel_cipher_ client_key in
  (ready = false ->
   step = reply (text_response SERVICE_UNAVAILABLE "Snode not ready"))
  /\ (ready = true ->
      match decrypt_cbc channel_cipher_ payload client_key with
      | Throw e =>
          step = reply (text_response BAD_REQUEST
                          ("Invalid ciphertext: " ++ what e))
      | Ok text =>
          match proxy_exit_fields OXEN_LONG_POLL_HEADER text with
          | Throw e =>
              step = reply (text_response BAD_REQUEST
                              ("JSON parsing error: " ++ what e))
          | Ok (body, lp_used) =>
              step = ProxyClientReq body lp_used
              /\ exists req,
                   json_parse text = Some req
                   /\ find "body" req = Some (JString body)
          end
      end)
  /\ (forall inner,
        reply inner
        = match encrypt channel_cipher_ aes_cbc
                  (json_dump (status_body_json inner)) client_key with
          | Ok _ =>
              ProxyCb (mkResponse OK (to_base64 EmptyString) json_content)
          | Throw e => ProxyRaised e
          end)
  /\ (forall res,
        step = ProxyCb res ->
        res = mkResponse OK (to_base64 EmptyString) json_content)
  /\ (forall body lp_used,
        step = ProxyClientReq body lp_used ->
        ready = true
        /\ exists text req,
             decrypt_cbc channel_cipher_ payload client_key = Ok text
             /\ json_parse text = Some req
             /\ find "body" req = Some (JString body)).
Proof.
  cbn zeta.
  assert (Hcb : forall inner res,
            proxy_reply channel_cipher_ client_key inner = ProxyCb res ->
            res = mkResponse OK (to_base64 EmptyString) json_content).
  { intros inner res. rewrite proxy_reply_constant.
    destruct (encrypt channel_cipher_ aes_cbc _ client_key);
      [intros [= <-]; reflexivity | discriminate]. }
  assert (Hnot : forall inner body lp_used,
            proxy_reply channel_cipher_ client_key inner
            <> ProxyClientReq body lp_used).
  { intros inner body lp_used. rewrite proxy_reply_constant.
    destruct (encrypt channel_cipher_ aes_cbc _ client_key); discriminate. }
  unfold process_proxy_exit.
  split; [intros ->; reflexivity|].
  split.
  { intros ->. cbn [negb].
    destruct (decrypt_cbc channel_cipher_ payload client_key) as [text|e];
      [|reflexivity].
    destruct (proxy_exit_fields OXEN_LONG_POLL_HEADER text)
      as [[body lp_used]|e] eqn:Hfields; [|reflexivity].
    split; [reflexivity|].
    exact (proxy_exit_fields_body text body lp_used Hfields). }
  split; [exact (proxy_reply_constant channel_cipher_ client_key)|].
  destruct ready; cbn [negb].
  2: { split; [apply Hcb|]. intros body lp_used Hstep.
       exfalso. exact (Hnot _ _ _ Hstep). }
  destruct (decrypt_cbc channel_cipher_ payload client_key) as [text|e].
  2: { split; [apply Hcb|]. intros body lp_used Hstep.
       exfalso. exact (Hnot _ _ _ Hstep). }
  destruct (proxy_exit_fields OXEN_LONG_POLL_HEADER text)
    as [[body lp_used]|e] eqn:Hfields.
  2: { split; [apply Hcb|]. intros body lp_used Hstep.
       exfalso. exact (Hnot _ _ _ Hstep). }
  split; [discriminate|].
  intros body' lp_used' [= <- <-]. split; [reflexivity|].
  destruct (proxy_exit_fields_body text body lp_used Hfields)
    as (req & Hparse & Hbody).
  exists text, req. repeat split; assumption.
Qed.

End ProxyExitFacts.
